(** * Patterns: the inheritance helper and the table widget

    A shallow embedding of [js/inherit.js] and [js/table/table.js].
    JavaScript values live in [Js]; objects that the caller and the widget
    share are kept in a heap of references, DOM rows in a node store, and
    the deferred continuations of the chunked render in a timer queue. *)

From stdpp Require Import gmap strings list pretty sorting.
From Stdlib Require Import Ascii ZArith Lia Permutation Sorted.

Open Scope string_scope.
Open Scope list_scope.
Open Scope Z_scope.
Open Scope nat_scope.

(* ===================================================================== *)
(** * JavaScript values *)
(* ===================================================================== *)

Module Js.

(** Numbers are the IEEE doubles.  Every finite double is an integer
    multiple of 2^-1074, the smallest positive one, so a finite number is
    kept as that integer: [Fin k] stands for k * 2^-1074, [Fin 0] for +0,
    and the negative zero has a constructor of its own.  (Not every [k]
    is a double: one has at most 53 significant bits and is below 2^2098
    in size.  What arithmetic and the reading of text yield is rounded to
    a double.) *)
Inductive JsNum : Type :=
| NaN
| Inf (negative : bool)
| NegZero
| Fin (k : Z).

(** The number 1 in units of 2^-1074, and the integer [z] as a number. *)
Definition unit_scale : Z := 2 ^ 1074.

Definition Num (z : Z) : JsNum := Fin (z * unit_scale).

(** A value is a primitive, a reference to a heap object (plain object or
    array), or a function, which is identified by its name. *)
Inductive Val : Type :=
| VUndefined
| VNull
| VBool (b : bool)
| VNumber (n : JsNum)
| VString (s : string)
| VObject (l : N)
| VFunction (f : string).

#[global] Instance JsNum_eq_dec : EqDecision JsNum.
Proof. solve_decision. Defined.

#[global] Instance Val_eq_dec : EqDecision Val.
Proof. solve_decision. Defined.

(** ToBoolean. *)
Definition truthy (v : Val) : bool :=
  match v with
  | VUndefined | VNull => false
  | VBool b => b
  | VNumber NaN | VNumber NegZero => false
  | VNumber (Inf _) => true
  | VNumber (Fin k) => negb (Z.eqb k 0)
  | VString s => negb (String.eqb s EmptyString)
  | VObject _ | VFunction _ => true
  end.

(** [a || b] on values. *)
Definition or_else (a b : Val) : Val := if truthy a then a else b.

(** Exceptions and results of fallible code. *)
Inductive Exn : Type :=
| Error (msg : string)
| TypeError.

Inductive Result (A : Type) : Type :=
| Ok (a : A)
| Throw (e : Exn).
Arguments Ok {A} a.
Arguments Throw {A} e.

#[global] Instance Result_ret : MRet Result := @Ok.

#[global] Instance Result_bind : MBind Result := fun A B k r =>
  match r with
  | Ok a => k a
  | Throw e => Throw e
  end.

(** ** Rounding

    The integer nearest to [p / d], a tie going to the even one. *)
Definition round_div (p d : Z) : Z :=
  let q := (p / d)%Z in
  let r := (p mod d)%Z in
  if (2 * r <? d)%Z then q
  else if (d <? 2 * r)%Z then (q + 1)%Z
  else if Z.even q then q else (q + 1)%Z.

(** The size, in units, of the double nearest to [p / d] units (for
    [0 <= p] and [0 < d]) by round-to-nearest, ties-to-even: up to 2^53
    units the doubles lie one unit apart; above, a double keeps the 53
    leading bits. *)
Definition nearest (p d : Z) : Z :=
  let s := Z.max 0 (Z.log2 (p / d) - 52) in
  (round_div p (d * 2 ^ s) * 2 ^ s)%Z.

(** The double for the exact size [p / d] units and the given sign; a
    nearest size of 2^1024 (2^2098 units) or more is an infinity. *)
Definition to_double (negative : bool) (p d : Z) : JsNum :=
  let m := nearest p d in
  if (2 ^ 2098 <=? m)%Z then Inf negative
  else if (m =? 0)%Z then (if negative then NegZero else Fin 0)
  else Fin (if negative then (- m)%Z else m).

(** ** StringToNumber

    The text is taken as its code units.  Among the code units below 256
    the white space of StrWhiteSpaceChar is TAB, LF, VT, FF, CR, SP and
    NBSP. *)
Definition is_str_space (c : ascii) : bool :=
  let n := nat_of_ascii c in
  ((9 <=? n) && (n <=? 13)) || (n =? 32) || (n =? 160).

Fixpoint drop_space (cs : list ascii) : list ascii :=
  match cs with
  | [] => []
  | c :: cs' => if is_str_space c then drop_space cs' else cs
  end.

Definition trim (cs : list ascii) : list ascii :=
  reverse (drop_space (reverse (drop_space cs))).

(** The value of a character as a digit of the given base (up to 16). *)
Definition digit_in (base : Z) (c : ascii) : option Z :=
  let n := nat_of_ascii c in
  let d :=
    if (48 <=? n) && (n <=? 57) then Some (Z.of_nat (n - 48))
    else if (97 <=? n) && (n <=? 102) then Some (Z.of_nat (n - 87))
    else if (65 <=? n) && (n <=? 70) then Some (Z.of_nat (n - 55))
    else None in
  match d with
  | Some v => if (v <? base)%Z then Some v else None
  | None => None
  end.

(** A run of digits read as an integer, most significant digit first;
    nothing if another character occurs in it. *)
Fixpoint digits_in (base acc : Z) (cs : list ascii) : option Z :=
  match cs with
  | [] => Some acc
  | c :: cs' =>
      match digit_in base c with
      | Some d => digits_in base (base * acc + d)%Z cs'
      | None => None
      end
  end.

(** The same for a run that must hold a digit. *)
Definition integer_in (base : Z) (cs : list ascii) : option Z :=
  match cs with
  | [] => None
  | _ :: _ => digits_in base 0 cs
  end.

(** The longest run of decimal digits at the front, and what follows. *)
Fixpoint span_digits (cs : list ascii) : list ascii * list ascii :=
  match cs with
  | [] => ([], [])
  | c :: cs' =>
      match digit_in 10 c with
      | Some _ => let (ds, rest) := span_digits cs' in (c :: ds, rest)
      | None => ([], cs)
      end
  end.

(** ExponentPart, or nothing: the power of ten. *)
Definition exponent_part (cs : list ascii) : option Z :=
  match cs with
  | [] => Some 0%Z
  | c :: r =>
      if Ascii.eqb c "e" || Ascii.eqb c "E" then
        match r with
        | "+"%char :: ds => integer_in 10 ds
        | "-"%char :: ds => Z.opp <$> integer_in 10 ds
        | _ => integer_in 10 r
        end
      else None
  end.

(** StrUnsignedDecimalLiteral other than Infinity: digits with an
    optional fraction and exponent, of which the integer part or the
    fraction may be missing but not both.  Yields [m] and [e] with the
    value [m * 10^e]. *)
Definition unsigned_decimal (cs : list ascii) : option (Z * Z) :=
  let (ip, r1) := span_digits cs in
  let (fp, r2) :=
    match r1 with
    | "."%char :: r => span_digits r
    | _ => ([], r1)
    end in
  match ip ++ fp with
  | [] => None
  | _ :: _ =>
      m ← digits_in 10 0 (ip ++ fp);
      e ← exponent_part r2;
      Some (m, (e - Z.of_nat (length fp))%Z)
  end.

(** The literals [0x..], [0o..] and [0b..] (any case of the letter). *)
Definition non_decimal (cs : list ascii) : option Z :=
  match cs with
  | "0"%char :: x :: r =>
      if Ascii.eqb x "x" || Ascii.eqb x "X" then integer_in 16 r
      else if Ascii.eqb x "o" || Ascii.eqb x "O" then integer_in 8 r
      else if Ascii.eqb x "b" || Ascii.eqb x "B" then integer_in 2 r
      else None
  | _ => None
  end.

(** The double nearest to [m * 10^e]. *)
Definition of_decimal (negative : bool) (m e : Z) : JsNum :=
  if (0 <=? e)%Z then to_double negative (m * 10 ^ e * unit_scale) 1
  else to_double negative (m * unit_scale) (10 ^ (- e)).

(** A decimal literal or [Infinity], the sign taken off. *)
Definition unsigned_literal (negative : bool) (cs : list ascii) : JsNum :=
  if bool_decide (cs = String.list_ascii_of_string "Infinity") then Inf negative
  else
    match unsigned_decimal cs with
    | Some (m, e) => of_decimal negative m e
    | None => NaN
    end.

(** StringToNumber: white space around the literal is dropped, the empty
    text is +0, a text that is no numeric literal is NaN, and the value
    of a literal is rounded to the nearest double.  (A sign goes with a
    decimal literal and with [Infinity] only; the standard leaves some
    room in the last place for literals of more than 20 significant
    digits, which engines do not use.) *)
Definition StringToNumber (s : string) : JsNum :=
  match trim (String.list_ascii_of_string s) with
  | [] => Fin 0
  | "+"%char :: r => unsigned_literal false r
  | "-"%char :: r => unsigned_literal true r
  | cs =>
      match non_decimal cs with
      | Some n => to_double false (n * unit_scale) 1
      | None => unsigned_literal false cs
      end
  end.

Section Coercions.
(** What the host's ToPrimitive yields for an object: this runs the
    object's own [valueOf]/[toString].  [number_to_string k] is the text
    of Number::toString for the finite number of [k] units where the
    digits are not simply those of an integer: the standard asks for the
    fewest digits that read back as the number and leaves the choice
    among them to the engine. *)
Variable object_to_number : N -> JsNum.
Variable number_to_string : Z -> string.
Variable object_to_string : N -> string.

(** [Number( v )]. *)
Definition Number (v : Val) : JsNum :=
  match v with
  | VUndefined => NaN
  | VNull => Num 0
  | VBool true => Num 1
  | VBool false => Num 0
  | VNumber n => n
  | VString s => StringToNumber s
  | VObject l => object_to_number l
  | VFunction _ => NaN
  end.

(** Number::toString.  An integer below 2^53 in size prints as its
    decimal digits. *)
Definition number_text (n : JsNum) : string :=
  match n with
  | NaN => "NaN"
  | Inf false => "Infinity"
  | Inf true => "-Infinity"
  | NegZero => "0"
  | Fin k =>
      if ((k mod unit_scale =? 0) && (Z.abs (k / unit_scale) <? 2 ^ 53))%Z
      then pretty (k / unit_scale)%Z
      else number_to_string k
  end.

(** [String( v )]; a function prints as its name here. *)
Definition ToString (v : Val) : string :=
  match v with
  | VUndefined => "undefined"
  | VNull => "null"
  | VBool true => "true"
  | VBool false => "false"
  | VNumber n => number_text n
  | VString s => s
  | VObject l => object_to_string l
  | VFunction f => f
  end.
End Coercions.

(** The size of a finite number in units (0 for the others). *)
Definition units (n : JsNum) : Z :=
  match n with
  | Fin k => k
  | _ => 0%Z
  end.

(** [a - b] on numbers: the exact difference, rounded.  The difference
    of two equal finite numbers is +0, except that [-0 - +0] is -0. *)
Definition sub (a b : JsNum) : JsNum :=
  match a, b with
  | NaN, _ | _, NaN => NaN
  | Inf s, Inf t => if Bool.eqb s t then NaN else Inf s
  | Inf s, _ => Inf s
  | _, Inf t => Inf (negb t)
  | NegZero, Fin 0 => NegZero
  | _, _ =>
      let d := (units a - units b)%Z in
      if (d =? 0)%Z then Fin 0 else to_double (d <? 0)%Z (Z.abs d) 1
  end.

(** [n || 0] on numbers. *)
Definition num_or_zero (n : JsNum) : JsNum :=
  if truthy (VNumber n) then n else Num 0.

(** [a < b] on numbers: false when one of them is NaN. *)
Definition num_lt (a b : JsNum) : bool :=
  match a, b with
  | NaN, _ | _, NaN => false
  | Inf s, Inf t => s && negb t
  | Inf s, _ => s
  | _, Inf t => negb t
  | _, _ => (units a <? units b)%Z
  end.

(** ** Text

    A string stands for its sequence of code units, each below 256: the
    texts of the Latin-1 range.  (Texts with other code units are not
    values of this model.) *)

(** [a < b] on strings: the first code unit that differs decides, and a
    proper prefix comes first. *)
Definition lt (a b : string) : bool := String.ltb a b.

(** [s.toLowerCase()].  Among the code units below 256 the capital letters
    are A-Z and 192-222 without the multiplication sign 215; each lies 32
    below its small letter. *)
Definition lower (c : ascii) : ascii :=
  let n := nat_of_ascii c in
  if ((65 <=? n) && (n <=? 90))
     || ((192 <=? n) && (n <=? 222) && negb (n =? 215))
  then ascii_of_nat (n + 32) else c.

Fixpoint toLowerCase (s : string) : string :=
  match s with
  | EmptyString => EmptyString
  | String c s' => String (lower c) (toLowerCase s')
  end.

(** [isNaN] on a number. *)
Definition is_NaN (n : JsNum) : bool :=
  match n with
  | NaN => true
  | _ => false
  end.

(** A boolean where a number is wanted. *)
Definition bool_number (b : bool) : Z := if b then 1%Z else 0%Z.

End Js.

Import Js.

(* ===================================================================== *)
(** * js/inherit.js *)
(* ===================================================================== *)

Module Inherit.

(** Values as [inherit] sees them: objects with their members in
    enumeration order, and functions with their code and own properties
    ([prototype] and static members).  A function is either one the caller
    wrote, known by its source text, or the closure that [_superCaller]
    returns. *)
#[warnings="-register-all"] Inductive value : Type :=
| Plain (v : Val)
| Object (members : list (string * value))
| Fn (c : code) (props : list (string * value))
with code : Type :=
| Source (src : string)
| SuperCaller (base derived : value).

Definition undefined : value := Plain VUndefined.
Definition null : value := Plain VNull.

Definition truthy (v : value) : bool :=
  match v with
  | Plain p => Js.truthy p
  | Object _ | Fn _ _ => true
  end.

(** [v instanceof Function]. *)
Definition is_function (v : value) : bool :=
  match v with
  | Fn _ _ => true
  | _ => false
  end.

Fixpoint assoc (k : string) (ms : list (string * value)) : option value :=
  match ms with
  | [] => None
  | (k', v) :: ms' => if String.eqb k k' then Some v else assoc k ms'
  end.

Fixpoint assign (k : string) (x : value) (ms : list (string * value))
  : list (string * value) :=
  match ms with
  | [] => [(k, x)]
  | (k', v) :: ms' =>
      if String.eqb k k' then (k, x) :: ms' else (k', v) :: assign k x ms'
  end.

(** [o[k]]: reading a property of undefined or null is a TypeError. *)
Definition get (o : value) (k : string) : Result value :=
  match o with
  | Plain VUndefined | Plain VNull => Throw TypeError
  | Plain _ => Ok undefined
  | Object ms | Fn _ ms =>
      Ok (match assoc k ms with Some v => v | None => undefined end)
  end.

(** [o[k] = x]: writing a property of undefined or null is a TypeError;
    on another primitive the write is dropped. *)
Definition set (o : value) (k : string) (x : value) : Result value :=
  match o with
  | Plain VUndefined | Plain VNull => Throw TypeError
  | Plain p => Ok (Plain p)
  | Object ms => Ok (Object (assign k x ms))
  | Fn c ms => Ok (Fn c (assign k x ms))
  end.

(** The names a [for( name in o )] loop visits. *)
Definition keys (o : value) : list string :=
  match o with
  | Plain _ => []
  | Object ms | Fn _ ms => map fst ms
  end.

(** [_superCaller( base, derived )]: a new closure over both. *)
Definition _superCaller (base derived : value) : value :=
  Fn (SuperCaller base derived) [].

(** [_overriding( name, supr, derv )].  The source reads
<<
      return
          suprMember && dervMember && ... ;
>>
    The line break after [return] ends the statement, so the function
    returns undefined and the conjunction below it is never evaluated. *)
Definition _overriding (name : string) (supr derv : value) : Result value :=
  s ← get supr name;
  d ← get derv name;
  let suprMember := if truthy s then s else null in
  let dervMember := if truthy d then d else null in
  Ok undefined.

(** The conjunction written below that [return]: what the function would
    yield were it on the same line. *)
Definition _overriding_conjunction (name : string) (supr derv : value)
  : Result bool :=
  s ← get supr name;
  d ← get derv name;
  Ok (truthy s && truthy d && is_function s && is_function d).

(** [_copyMembers( src, dest )]. *)
Definition _copyMembers (src dest : value) : Result value :=
  foldl (fun acc k =>
           dest' ← acc;
           v ← get src k;
           set dest' k v)
        (Ok dest) (keys src).

(** [_getPrototype( clas )]: the same line break after [return]. *)
Definition _getPrototype (clas : value) : value := undefined.

Section Inherit.
(** [_callsSuper.test( f )]: the pattern chosen at load time, applied to
    the text of [f]. *)
Variable _callsSuper : value -> bool.

(** One turn of the loop over the derived prototype. *)
Definition inherit_member (supr derv : value) (proto : value) (name : string)
  : Result value :=
  dervFunc ← get derv name;
  ov ← _overriding name supr derv;
  if truthy ov && _callsSuper dervFunc then
    suprFunc ← get supr name;
    set proto name (_superCaller suprFunc dervFunc)
  else
    set proto name dervFunc.

(** [inherit( base, derived )].  Returns the new class together with
    [derived], whose [prototype] the function overwrites. *)
Definition inherit (base derived : value) : Result (value * value) :=
  supr ← get base "prototype";
  derv ← get derived "prototype";
  let proto := _getPrototype base in
  proto ← foldl (fun acc name => p ← acc; inherit_member supr derv p name)
                 (Ok proto) (keys derv);
  proto ← set proto "constructor" derived;
  derived ← set derived "prototype" proto;
  let clas := _superCaller base derived in
  clas ← set clas "prototype" (_getPrototype derived);
  clas ← _copyMembers derived clas;
  Ok (clas, derived).
End Inherit.

(** A base and a derived class that both define [greet]; the derived one
    calls up. *)
Definition base_greet : value := Fn (Source "function(){ return 'base'; }") [].
Definition derived_greet : value :=
  Fn (Source "function(){ return this._super() + '!'; }") [].
Definition Base : value :=
  Fn (Source "function Base(){}") [("prototype", Object [("greet", base_greet)])].
Definition Derived : value :=
  Fn (Source "function Derived(){}")
     [("prototype", Object [("greet", derived_greet)])].

Section Calls.
(** [f.apply( this, args )] for a function the caller wrote: its result
    and the members of [this] when it ends, or the exception it raises
    and the members at that point. *)
Variable apply : value -> list (string * value) -> list value
                 -> Result value * list (string * value).

(** A call of the closure that [_superCaller( base, derived )] returns, on
    an object with the members [this]. *)
Definition call_superCaller (base derived : value) (this : list (string * value))
           (args : list value) : Result value * list (string * value) :=
  let oldSuper := match assoc "_super" this with Some v => v | None => undefined end in
  let this1 := assign "_super" base this in
  match apply derived this1 args with
  | (Ok result, this2) => (Ok result, assign "_super" oldSuper this2)
  | (Throw e, this2) => (Throw e, this2)
  end.
End Calls.

End Inherit.

(* ===================================================================== *)
(** * js/typecheck.js *)
(* ===================================================================== *)

Module Is.

Section Typecheck.
(** What the host knows of an object: the constructors whose [prototype]
    lies on its prototype chain, the number it converts to, and what its
    [toString] method yields. *)
Variable constructors : N -> list string.
Variable object_to_number : N -> JsNum.
Variable number_to_string : Z -> string.
Variable object_toString : N -> Result string.

Definition chain (v : Val) : list string :=
  match v with
  | VObject l => constructors l
  | VFunction _ => ["Function"; "Object"]
  | _ => []
  end.

(** [v instanceof clas]: a TypeError unless [clas] is a function; a
    primitive is an instance of nothing. *)
Definition instanceof (v clas : Val) : Result bool :=
  match clas with
  | VFunction c => Ok (bool_decide (c ∈ chain v))
  | _ => Throw TypeError
  end.

Fixpoint _allInstancesOf (items : list Val) (clas : Val) : Result bool :=
  match items with
  | [] => Ok true
  | item :: rest =>
      b ← instanceof item clas;
      if negb b then Ok false else _allInstancesOf rest clas
  end.

(** [is.Array]. *)
Definition Array (args : list Val) : Result bool :=
  _allInstancesOf args (VFunction "Array").

(** [item.toString()].  (The text of a function is not modelled: the
    test below asks for the text of what is not a function only.) *)
Definition toString (item : Val) : Result string :=
  match item with
  | VUndefined | VNull => Throw TypeError
  | VObject l => object_toString l
  | _ => Ok (ToString number_to_string (fun _ => EmptyString) item)
  end.

(** [/^function\b/.test( s )]: the text starts with [function] and the
    word ends there. *)
Definition is_word (c : ascii) : bool :=
  let n := nat_of_ascii c in
  ((48 <=? n) && (n <=? 57)) || ((65 <=? n) && (n <=? 90)) || (n =? 95)
  || ((97 <=? n) && (n <=? 122)).

Definition starts_with_function (s : string) : bool :=
  String.prefix "function" s
  && match String.get 8 s with
     | Some c => negb (is_word c)
     | None => true
     end.

(** [is.Function]. *)
Fixpoint Function (args : list Val) : Result bool :=
  match args with
  | [] => Ok true
  | item :: rest =>
      b ← instanceof item (VFunction "Function");
      if negb b then
        s ← toString item;
        if negb (starts_with_function s) then Ok false else Function rest
      else Function rest
  end.

(** [is.InstanceOf]: the last argument is taken off as the class;
    [pop] on an empty array yields undefined. *)
Definition InstanceOf (args : list Val) : Result bool :=
  let clas := default VUndefined (last args) in
  _allInstancesOf (removelast args) clas.

(** [is.Numeric]. *)
Fixpoint Numeric (args : list Val) : bool :=
  match args with
  | [] => true
  | item :: rest =>
      if is_NaN (Js.Number object_to_number item) then false else Numeric rest
  end.

(** [is.Number]. *)
Definition Number (args : list Val) : Result bool :=
  _allInstancesOf args (VFunction "Number").

(** [is.String]. *)
Definition String (args : list Val) : Result bool :=
  _allInstancesOf args (VFunction "String").

End Typecheck.

End Is.

(* ===================================================================== *)
(** * js/table/table.js *)
(* ===================================================================== *)

Module Table.

Definition rowIDColumn : string := "_table_rowID".
Definition INSERT_BATCH_LIMIT : nat := 500.

(** ** The heap of shared objects

    Plain objects and arrays that the caller hands to the widget are
    reached through references, as are the collections the DOM library
    returns for a container target. *)
Inductive HeapObj : Type :=
| HObject (props : gmap string Val)
| HArray (elems : list Val)
| HCollection (elems : list N).

(** A reference that no object of the store has yet. *)
Definition next_free {V : Type} (m : gmap N V) : N :=
  N.succ (foldr N.max 0%N (elements (dom m))).

Definition alloc (o : HeapObj) (h : gmap N HeapObj) : N * gmap N HeapObj :=
  let l := next_free h in (l, <[l := o]> h).

(** [o.k] on an object's own properties. *)
Definition prop (ps : gmap string Val) (k : string) : Val :=
  default VUndefined (ps !! k).

(** The properties of an array: its elements under their indices. *)
Definition index_props (xs : list Val) : gmap string Val :=
  list_to_map (imap (fun i x => (pretty i, x)) xs).

(** The enumerable own properties of a value (the characters of a string
    are not modelled). *)
Definition own_props (h : gmap N HeapObj) (v : Val) : gmap string Val :=
  match v with
  | VObject l =>
      match h !! l with
      | Some (HObject ps) => ps
      | Some (HArray xs) => index_props xs
      | _ => ∅
      end
  | _ => ∅
  end.

(** [v.k]: a property read, which throws on undefined and null. *)
Definition get_prop (h : gmap N HeapObj) (v : Val) (k : string) : Result Val :=
  match v with
  | VUndefined | VNull => Throw TypeError
  | VString s =>
      Ok (if String.eqb k "length"
          then VNumber (Num (Z.of_nat (String.length s))) else VUndefined)
  | VObject l =>
      match h !! l with
      | Some (HObject ps) => Ok (prop ps k)
      | Some (HArray xs) =>
          Ok (if String.eqb k "length"
              then VNumber (Num (Z.of_nat (length xs)))
              else prop (index_props xs) k)
      | _ => Ok VUndefined
      end
  | _ => Ok VUndefined
  end.

(** The elements of an array, in index order; a value that is not an
    array has none here.  Column definitions and data are arrays. *)
Definition items (h : gmap N HeapObj) (v : Val) : list Val :=
  match v with
  | VObject l =>
      match h !! l with
      | Some (HArray xs) => xs
      | _ => []
      end
  | _ => []
  end.

(** The elements of a collection returned by the DOM library. *)
Definition collection (h : gmap N HeapObj) (v : Val) : option (list N) :=
  match v with
  | VObject l =>
      match h !! l with
      | Some (HCollection es) => Some es
      | _ => None
      end
  | _ => None
  end.

(** [$.extend( target, source )]: the own properties of [source] whose
    value is not undefined are written over [target]. *)
Definition extend (target source : gmap string Val) : gmap string Val :=
  filter (fun kv => kv.2 ≠ VUndefined) source ∪ target.

(** ** Comparators *)

Definition Comparator : Type :=
  string -> gmap string Val -> gmap string Val -> JsNum.

Section Comparators.
Variable object_to_number : N -> JsNum.

(** [Table.numberSort]. *)
Definition numberSort : Comparator := fun column a b =>
  let numA := num_or_zero (Number object_to_number (prop a column)) in
  let numB := num_or_zero (Number object_to_number (prop b column)) in
  sub numA numB.
End Comparators.

(** [Table.reverseSort]. *)
Definition reverseSort (sortFunc : Comparator) : Comparator :=
  fun column a b => sortFunc column b a.

Section TextComparators.
Variable number_to_string : Z -> string.
Variable object_to_string : N -> string.

(** [Table.stringSort]. *)
Definition stringSort : Comparator := fun column a b =>
  let aData := ToString number_to_string object_to_string (prop a column) in
  let bData := ToString number_to_string object_to_string (prop b column) in
  if lt aData bData then Num (-1)
  else if lt bData aData then Num 1
  else Num 0.

(** [Table.caseInsensitiveSort]. *)
Definition caseInsensitiveSort : Comparator := fun column a b =>
  let aData := toLowerCase (ToString number_to_string object_to_string (prop a column)) in
  let bData := toLowerCase (ToString number_to_string object_to_string (prop b column)) in
  if lt aData bData then Num (-1)
  else if lt bData aData then Num 1
  else Num 0.
End TextComparators.

(** [Table.booleanSort]. *)
Definition booleanSort : Comparator := fun column a b =>
  Num (bool_number (truthy (prop b column)) - bool_number (truthy (prop a column))).

(** [Table.combineFilters]: a filter maps the data of a cell to what is
    shown, or throws; the loop hands the result of each filter to the
    next. *)
Definition Filter : Type := Val -> Result Val.

Definition combineFilters (filters : list Filter) : Filter := fun data =>
  foldl (fun acc f => d ← acc; f d) (Ok data) filters.

(** [Array.prototype.sort( compare )].  An element moves behind another
    only when the comparison of the two is positive, so elements that
    compare equal (or NaN) keep their order: the stable sort of
    ECMAScript 2019, which is the only result a consistent comparator
    allows.  For a comparator that is not consistent the language leaves
    the order to the engine; whatever is stated below about a sorted
    result is stated for consistent comparators and a stable engine. *)
Definition is_positive (n : JsNum) : bool :=
  match n with
  | Inf negative => negb negative
  | Fin k => (0 <? k)%Z
  | NaN | NegZero => false
  end.

Section ArraySort.
Context {A : Type} (compare : A -> A -> JsNum).

Fixpoint sort_insert (x : A) (l : list A) : list A :=
  match l with
  | [] => [x]
  | y :: l' => if is_positive (compare x y) then y :: sort_insert x l' else x :: l
  end.

Fixpoint Array_sort (l : list A) : list A :=
  match l with
  | [] => []
  | x :: l' => sort_insert x (Array_sort l')
  end.
End ArraySort.

(** ** The rendered structure *)

Definition hasClass (c : string) (cs : list string) : bool := bool_decide (c ∈ cs).
Definition addClass (c : string) (cs : list string) : list string :=
  if hasClass c cs then cs else cs ++ [c].
Definition removeClass (c : string) (cs : list string) : list string :=
  filter (fun x => x ≠ c) cs.

(** The white space between class names: space, TAB, LF, FF and CR. *)
Definition is_class_space (c : ascii) : bool :=
  let n := nat_of_ascii c in
  (n =? 32) || (n =? 9) || (n =? 10) || (n =? 12) || (n =? 13).

(** The class names in a text, [cur] being the name read so far. *)
Fixpoint class_names (cur : string) (s : string) : list string :=
  match s with
  | EmptyString => if String.eqb cur EmptyString then [] else [cur]
  | String c s' =>
      if is_class_space c then
        (if String.eqb cur EmptyString then [] else [cur])
        ++ class_names EmptyString s'
      else class_names (cur +:+ String c EmptyString) s'
  end.

(** [elem.addClass( v )] for a name taken from a column definition: the
    class names in a string are added one by one, and a value of another
    kind adds none.  (A name that is a function or an array, which newer
    versions of the DOM library treat in ways of their own, is not
    modelled.) *)
Definition addClassVal (v : Val) (cs : list string) : list string :=
  match v with
  | VString s => foldl (fun acc c => addClass c acc) cs (class_names EmptyString s)
  | _ => cs
  end.

Inductive Inner : Type :=
| Html (markup : string)
| Child (v : Val).

Record Td : Type := {
  td_classes : list string;
  td_name : Val;
  td_inner : Inner
}.

(** A row element.  Its [data] slot holds the row entry it was built for;
    an entry never changes its record, so the slot is kept as the record
    the entry leads to. *)
Record Tr : Type := {
  tr_classes : list string;
  tr_cells : list Td;
  tr_data : option N
}.

Record Th : Type := {
  th_classes : list string;
  th_html : option Val;
  th_colspan : option Val
}.

(** The header table: its header row and the rows of its body. *)
Record HeaderTable : Type := {
  thead : list Th;
  header_tbody : list N
}.

(** The body table inside its container div. *)
Record BodyTable : Type := {
  container_classes : list string;
  body_tbody : list N
}.

(** A row entry [{ row, data }]: the cached row element, if built, and
    the reference to the record. *)
Record RowEntry : Type := {
  row : option N;
  data : N
}.

(** ** The state

    The heap, the store of row elements, the queue of deferred
    [_insertData] continuations (each with its [start]), and the fields of
    the table instance.  [batches] is bookkeeping: the number of rows
    each completed pass of the loop in [_insertData] handled; no code
    reads it.  [mount] is the collection the current tables were appended
    to.  The field [_table] is only ever written and is left out. *)
Record St : Type := {
  heap : gmap N HeapObj;
  nodes : gmap N Tr;
  timers : list nat;
  batches : list nat;
  mount : Val;
  _element : Val;
  _config : gmap string Val;
  _callbacks : gmap string Val;
  _headers : Val;
  _data : option (list RowEntry);
  _headerTable : option HeaderTable;
  _bodyTable : option BodyTable
}.

Definition set_heap (x : gmap N HeapObj) (st : St) : St :=
  {| heap := x; nodes := nodes st; timers := timers st;
     batches := batches st; mount := mount st; _element := _element st;
     _config := _config st; _callbacks := _callbacks st;
     _headers := _headers st; _data := _data st;
     _headerTable := _headerTable st; _bodyTable := _bodyTable st |}.

Definition set_nodes (x : gmap N Tr) (st : St) : St :=
  {| heap := heap st; nodes := x; timers := timers st;
     batches := batches st; mount := mount st; _element := _element st;
     _config := _config st; _callbacks := _callbacks st;
     _headers := _headers st; _data := _data st;
     _headerTable := _headerTable st; _bodyTable := _bodyTable st |}.

Definition set_timers (x : list nat) (st : St) : St :=
  {| heap := heap st; nodes := nodes st; timers := x;
     batches := batches st; mount := mount st; _element := _element st;
     _config := _config st; _callbacks := _callbacks st;
     _headers := _headers st; _data := _data st;
     _headerTable := _headerTable st; _bodyTable := _bodyTable st |}.

Definition set_batches (x : list nat) (st : St) : St :=
  {| heap := heap st; nodes := nodes st; timers := timers st; batches := x;
     mount := mount st; _element := _element st; _config := _config st;
     _callbacks := _callbacks st; _headers := _headers st;
     _data := _data st; _headerTable := _headerTable st;
     _bodyTable := _bodyTable st |}.

Definition set_mount (x : Val) (st : St) : St :=
  {| heap := heap st; nodes := nodes st; timers := timers st;
     batches := batches st; mount := x; _element := _element st;
     _config := _config st; _callbacks := _callbacks st;
     _headers := _headers st; _data := _data st;
     _headerTable := _headerTable st; _bodyTable := _bodyTable st |}.

Definition set__element (x : Val) (st : St) : St :=
  {| heap := heap st; nodes := nodes st; timers := timers st;
     batches := batches st; mount := mount st; _element := x;
     _config := _config st; _callbacks := _callbacks st;
     _headers := _headers st; _data := _data st;
     _headerTable := _headerTable st; _bodyTable := _bodyTable st |}.

Definition set__config (x : gmap string Val) (st : St) : St :=
  {| heap := heap st; nodes := nodes st; timers := timers st;
     batches := batches st; mount := mount st; _element := _element st;
     _config := x; _callbacks := _callbacks st; _headers := _headers st;
     _data := _data st; _headerTable := _headerTable st;
     _bodyTable := _bodyTable st |}.

Definition set__callbacks (x : gmap string Val) (st : St) : St :=
  {| heap := heap st; nodes := nodes st; timers := timers st;
     batches := batches st; mount := mount st; _element := _element st;
     _config := _config st; _callbacks := x; _headers := _headers st;
     _data := _data st; _headerTable := _headerTable st;
     _bodyTable := _bodyTable st |}.

Definition set__headers (x : Val) (st : St) : St :=
  {| heap := heap st; nodes := nodes st; timers := timers st;
     batches := batches st; mount := mount st; _element := _element st;
     _config := _config st; _callbacks := _callbacks st; _headers := x;
     _data := _data st; _headerTable := _headerTable st;
     _bodyTable := _bodyTable st |}.

Definition set__data (x : option (list RowEntry)) (st : St) : St :=
  {| heap := heap st; nodes := nodes st; timers := timers st;
     batches := batches st; mount := mount st; _element := _element st;
     _config := _config st; _callbacks := _callbacks st;
     _headers := _headers st; _data := x; _headerTable := _headerTable st;
     _bodyTable := _bodyTable st |}.

Definition set__headerTable (x : option HeaderTable) (st : St) : St :=
  {| heap := heap st; nodes := nodes st; timers := timers st;
     batches := batches st; mount := mount st; _element := _element st;
     _config := _config st; _callbacks := _callbacks st;
     _headers := _headers st; _data := _data st; _headerTable := x;
     _bodyTable := _bodyTable st |}.

Definition set__bodyTable (x : option BodyTable) (st : St) : St :=
  {| heap := heap st; nodes := nodes st; timers := timers st;
     batches := batches st; mount := mount st; _element := _element st;
     _config := _config st; _callbacks := _callbacks st;
     _headers := _headers st; _data := _data st;
     _headerTable := _headerTable st; _bodyTable := x |}.

(** Code that can throw while it changes the state: the state reached is
    kept in both cases. *)
Definition M (A : Type) : Type := St -> Result A * St.

#[global] Instance M_ret : MRet M := fun A a st => (Ok a, st).

#[global] Instance M_bind : MBind M := fun A B k m st =>
  match m st with
  | (Ok a, st') => k a st'
  | (Throw e, st') => (Throw e, st')
  end.

Definition throw {A} (e : Exn) : M A := fun st => (Throw e, st).
Definition modify (f : St -> St) : M unit := fun st => (Ok tt, f st).
Definition read {A} (f : St -> A) : M A := fun st => (Ok (f st), st).
Definition lift {A} (f : St -> Result A) : M A := fun st => (f st, st).

Definition entries (st : St) : list RowEntry := default [] (_data st).

Definition record (h : gmap N HeapObj) (l : N) : gmap string Val :=
  own_props h (VObject l).

(** ** The widget *)

Definition DEFAULT_TABLE_CONFIG : gmap string Val :=
  {[ "selectable" := VBool false;
     "scrollable" := VBool false;
     "pinToBottom" := VBool false ]}.

Definition DEFAULT_COLUMN_CONFIG : gmap string Val :=
  {[ "generator" := VFunction "Table.textCell()";
     "filter" := VFunction "String";
     "sort" := VFunction "Table.caseInsensitiveSort" ]}.

(** What [_onRowEvent] hands to the caller's handler: the handler, the
    row record and the row element (the third argument is the table). *)
Record Call : Type := {
  callee : string;
  arg_record : N;
  arg_row : N
}.

(** Where an event started: on a row, on one of its cells, or on an
    element inside one of its cells (a button, a link, a progress bar). *)
Inductive Target : Type :=
| OnRow (r : N)
| OnCell (r : N)
| InsideCell (r : N).

Definition is_td (t : Target) : bool :=
  match t with OnCell _ => true | _ => false end.
Definition is_tr (t : Target) : bool :=
  match t with OnRow _ => true | _ => false end.
Definition closest_tr (t : Target) : N :=
  match t with OnRow r | OnCell r | InsideCell r => r end.

Section Widget.
(** The host and the DOM library:
    - [resolve]: the elements [$( target )] finds;
    - [generate]: the result of calling the named cell generator on the
      cell name, the record and the filter;
    - [extend_deep]: [$.extend( true, target, source )] on the
      configuration, given the heap for nested values;
    - [object_to_number], [object_to_string]: coercions of objects;
    - [pinned_ancestor]: whether the body table has an ancestor
      matching [.lw-table-body-container] (the wrapper the widget makes
      itself carries [pl-table-body-container]);
    - [sort_by_expression]: what [sortOnColumn] does for a column whose
      name is no plain class name; see there. *)
Variable resolve : Val -> list N.
Variable generate : string -> Val -> gmap string Val -> Val -> Val.
Variable extend_deep :
  gmap N HeapObj -> gmap string Val -> gmap string Val -> gmap string Val.
Variable object_to_number : N -> JsNum.
Variable number_to_string : Z -> string.
Variable object_to_string : N -> string.
Variable pinned_ancestor : bool.
Variable sort_by_expression : string -> Comparator -> M unit.

(** [_setHeaders]: each column definition is replaced, in the caller's
    array, by a new object holding the defaults overwritten by it. *)
Fixpoint with_defaults (h : gmap N HeapObj) (xs : list Val)
  : list Val * gmap N HeapObj :=
  match xs with
  | [] => ([], h)
  | x :: xs' =>
      let (l, h1) :=
        alloc (HObject (extend (extend ∅ DEFAULT_COLUMN_CONFIG) (own_props h x))) h in
      let (ys, h2) := with_defaults h1 xs' in
      (VObject l :: ys, h2)
  end.

Definition _setHeaders (headers : Val) (st : St) : St :=
  let st1 :=
    match headers with
    | VObject l =>
        match heap st !! l with
        | Some (HArray xs) =>
            let (ys, h') := with_defaults (heap st) xs in
            set_heap (<[l := HArray ys]> h') st
        | _ => st
        end
    | _ => st
    end in
  set__headers headers st1.

(** [_setCallbacks]. *)
Definition _setCallbacks (callbacks : Val) (st : St) : St :=
  set__callbacks
    (extend (extend ∅ (_callbacks st)) (own_props (heap st) callbacks)) st.

(** [_setData]: the loop body copies [data[ i ]] into a new object,
    writes the row id into the copy and pushes the entry. *)
Fixpoint load (h : gmap N HeapObj) (i : nat) (xs : list Val)
  : list RowEntry * gmap N HeapObj :=
  match xs with
  | [] => ([], h)
  | x :: xs' =>
      let datum :=
        <[rowIDColumn := VNumber (Num (Z.of_nat (i + 1)))]>
          (extend ∅ (own_props h x)) in
      let (l, h1) := alloc (HObject datum) h in
      let (es, h2) := load h1 (S i) xs' in
      ({| row := None; data := l |} :: es, h2)
  end.

Definition _setData (data : Val) : M unit := fun st =>
  let st0 := set__data (Some []) st in
  match data with
  | VUndefined | VNull => (Throw TypeError, st0)
  | _ =>
      let (es, h') := load (heap st0) 0 (items (heap st0) data) in
      (Ok tt, set__data (Some es) (set_heap h' st0))
  end.

(** [_createCell]. *)
Definition _createCell (h : gmap N HeapObj) (cellName : Val) (datum : N)
           (header : Val) : Result Td :=
  generator ← get_prop h header "generator";
  filter ← get_prop h header "filter";
  match generator with
  | VFunction g =>
      let inner := generate g cellName (record h datum) filter in
      Ok {| td_classes := addClassVal cellName ["column"];
            td_name := cellName;
            td_inner := match inner with
                        | VString s => Html s
                        | v => Child v
                        end |}
  | _ => Throw TypeError
  end.

(** The loop over the headers that fills a new row. *)
Fixpoint build_cells (h : gmap N HeapObj) (datum : N) (headers : list Val)
  : Result (list Td) :=
  match headers with
  | [] => Ok []
  | header :: rest =>
      cellName ← get_prop h header "name";
      cell ← _createCell h cellName datum header;
      cells ← build_cells h datum rest;
      Ok (cell :: cells)
  end.

(** [row.appendTo( tbody )]: the element leaves the place it had and
    becomes the last child. *)
Definition appendTo (n : N) (tbody : list N) : list N :=
  filter (fun m => m ≠ n) tbody ++ [n].

Definition append_body (n : N) (st : St) : St :=
  match _bodyTable st with
  | Some bt =>
      set__bodyTable
        (Some {| container_classes := container_classes bt;
                 body_tbody := appendTo n (body_tbody bt) |}) st
  | None => st
  end.

Definition set_tr_data (d : N) (tr : Tr) : Tr :=
  {| tr_classes := tr_classes tr; tr_cells := tr_cells tr; tr_data := Some d |}.

(** One turn of the loop in [_insertData], for the entry at [idx]. *)
Definition insert_row (idx : nat) : M unit := fun st =>
  match entries st !! idx with
  | None => (Throw TypeError, st)
  | Some datum =>
      match row datum with
      | None =>
          match build_cells (heap st) (data datum)
                            (items (heap st) (_headers st)) with
          | Throw e => (Throw e, st)
          | Ok cells =>
              let n := next_free (nodes st) in
              let tr := {| tr_classes := []; tr_cells := cells;
                           tr_data := Some (data datum) |} in
              let es := <[idx := {| row := Some n; data := data datum |}]> (entries st) in
              (Ok tt,
               append_body n (set__data (Some es) (set_nodes (<[n := tr]> (nodes st)) st)))
          end
      | Some n =>
          (Ok tt,
           append_body n
             (set_nodes (alter (set_tr_data (data datum)) n (nodes st)) st))
      end
  end.

(** The loop of [_insertData]; [n] counts the turns the bound
    [i < INSERT_BATCH_LIMIT] still allows.  Yields the final [i]. *)
Fixpoint insert_loop (n start i : nat) : M nat := fun st =>
  match n with
  | 0 => (Ok i, st)
  | S n' =>
      if (i <? INSERT_BATCH_LIMIT) && (start + i <? length (entries st)) then
        match insert_row (start + i) st with
        | (Ok _, st') => insert_loop n' start (S i) st'
        | (Throw e, st') => (Throw e, st')
        end
      else (Ok i, st)
  end.

(** An element without what [.data()] has stored on it and on the
    elements inside it: the data slot of the row and the name kept on
    each cell. *)
Definition without_name (td : Td) : Td :=
  {| td_classes := td_classes td; td_name := VUndefined; td_inner := td_inner td |}.

Definition without_data (tr : Tr) : Tr :=
  {| tr_classes := tr_classes tr; tr_cells := map without_name (tr_cells tr);
     tr_data := None |}.

(** [row.clone()]: a new element with the same classes and cells; what
    [.data()] has stored is not copied. *)
Definition clone (tr : Tr) : Tr := without_data tr.

Definition empty_tr : Tr := {| tr_classes := []; tr_cells := []; tr_data := None |}.

(** [this._headerTable.find( 'tbody' ).append( this._data[ start ].row.clone() )]. *)
Definition append_header_clone (start : nat) : M unit := fun st =>
  match _headerTable st, entries st !! start ≫= row with
  | Some ht, Some n =>
      let c := next_free (nodes st) in
      let tr := clone (default empty_tr (nodes st !! n)) in
      (Ok tt,
       set__headerTable
         (Some {| thead := thead ht; header_tbody := header_tbody ht ++ [c] |})
         (set_nodes (<[c := tr]> (nodes st)) st))
  | _, _ => (Throw TypeError, st)
  end.

(** [_insertData( start )]; yields the number of rows it handled. *)
Definition _insertData (start : nat) : M nat := fun st =>
  match _bodyTable st, _data st with
  | Some _, Some _ =>
      (i ← insert_loop INSERT_BATCH_LIMIT start 0;
       modify (fun s => set_batches (batches s ++ [i]) s);;
       append_header_clone start;;
       len ← read (fun s => length (entries s));
       (if start + i <? len
        then modify (fun s => set_timers (timers s ++ [start + i]) s)
        else mret tt);;
       mret i) st
  | _, _ => (Throw TypeError, st)
  end.

(** Where the tables sit.  [append] puts an element into the last
    element of a collection (the others get copies, here of tables that are
    still empty), so the current tables sit in the last element of
    [mount]; they are inside the current container when that element
    belongs to it.  (The page elements are taken not to lie inside one
    another.) *)
Definition attached (st : St) : bool :=
  match collection (heap st) (mount st) ≫= last,
        collection (heap st) (_element st) with
  | Some host, Some es => bool_decide (host ∈ es)
  | _, _ => false
  end.

(** The rows [this._element.find( 'tr' )] reaches: those of the two
    tables, while the tables sit in the current container. *)
Definition rows_in_element (st : St) : list N :=
  if attached st then
    match _headerTable st with Some ht => header_tbody ht | None => [] end
    ++ match _bodyTable st with Some bt => body_tbody bt | None => [] end
  else [].

(** [this._element.empty()]: the children of the container are taken
    out, and the DOM library clears what it has stored for every element
    inside them.  The rows of tables that sit in the container lose their
    data slot, and their cells the name kept on them. *)
Definition empty_element (st : St) : St :=
  set_nodes (foldr (alter without_data) (nodes st) (rows_in_element st)) st.

(** The header cell [_updateTable] makes for one column definition. *)
Definition header_cell (h : gmap N HeapObj) (header : Val) : Result Th :=
  name ← get_prop h header "name";
  sort ← get_prop h header "sort";
  title ← get_prop h header "title";
  colspan ← get_prop h header "colspan";
  len ← (if truthy colspan then get_prop h colspan "length" else Ok VUndefined);
  Ok {| th_classes :=
          (if truthy sort then addClass "sortable" else id)
            (addClassVal name ["column"; "header"]);
        th_html := if truthy title then Some title else None;
        th_colspan := if truthy colspan then Some len else None |}.

(** The loop over the headers in [_updateTable]: cells made before a
    failure stay in the header row. *)
Fixpoint build_thead (h : gmap N HeapObj) (headers : list Val) (acc : list Th)
  : Result unit * list Th :=
  match headers with
  | [] => (Ok tt, acc)
  | header :: rest =>
      match header_cell h header with
      | Ok th => build_thead h rest (acc ++ [th])
      | Throw e => (Throw e, acc)
      end
  end.

(** [_updateTable].  The new tables are stored in the instance before
    the container is emptied of the old ones. *)
Definition _updateTable : M unit := fun st =>
  let st1 :=
    set__headerTable (Some {| thead := []; header_tbody := [] |})
      (set__bodyTable
         (Some {| container_classes := ["pl-table-body-container"];
                  body_tbody := [] |}) st) in
  match collection (heap st1) (_element st1) with
  | None => (Throw TypeError, st1)
  | Some _ =>
      let st2 :=
        set_mount (_element st1) (set_nodes (nodes (empty_element st)) st1) in
      let (r, ths) := build_thead (heap st2) (items (heap st2) (_headers st2)) [] in
      let st3 := set__headerTable (Some {| thead := ths; header_tbody := [] |}) st2 in
      match r with
      | Throw e => (Throw e, st3)
      | Ok _ =>
          let st4 :=
            if truthy (prop (_config st3) "scrollable") then
              set__bodyTable
                (Some {| container_classes :=
                           addClass "scrollable" ["pl-table-body-container"];
                         body_tbody := [] |}) st3
            else st3 in
          match entries st4 with
          | [] => (Ok tt, st4)
          | _ :: _ => (_insertData 0 ;; mret tt) st4
          end
      end
  end.

(** [_onWindowResized]: the height it sets belongs to an element outside
    the widget; what remains is whether it throws. *)
Definition _onWindowResized : M unit := fun st =>
  let bottomOffset := Number object_to_number (prop (_config st) "pinToBottom") in
  if negb (truthy (VNumber bottomOffset)) then (Ok tt, st)
  else
    match _bodyTable st with
    | None => (Throw TypeError, st)
    | Some _ => if pinned_ancestor then (Ok tt, st) else (Throw TypeError, st)
    end.

(** [_mergeConfig]. *)
Definition _mergeConfig (config : Val) (st : St) : St :=
  set__config (extend_deep (heap st) (_config st) (own_props (heap st) config)) st.

(** [Table.prototype.setElement]. *)
Definition setElement (element : Val) : M unit := fun st =>
  let (l, h') := alloc (HCollection (resolve element)) (heap st) in
  let st1 := set__element (VObject l) (set_heap h' st) in
  if negb (truthy (_element st1)) then
    (Throw (Error ("Bad target element: " +:+ ToString number_to_string object_to_string element)), st1)
  else (Ok tt, st1).

(** [delete o.k]. *)
Definition delete_prop (o : Val) (k : string) (st : St) : St :=
  match o with
  | VObject l =>
      match heap st !! l with
      | Some (HObject ps) => set_heap (<[l := HObject (delete k ps)]> (heap st)) st
      | _ => st
      end
  | _ => st
  end.

(** [Table.prototype.setOpts]. *)
Definition setOpts (opts : Val) : M unit :=
  headers ← lift (fun st => get_prop (heap st) opts "headers");
  (if truthy headers then
     modify (_setHeaders headers);;
     modify (delete_prop opts "headers")
   else mret tt);;
  callbacks ← lift (fun st => get_prop (heap st) opts "callbacks");
  (if truthy callbacks then
     modify (_setCallbacks callbacks);;
     modify (delete_prop opts "callbacks")
   else mret tt);;
  data ← lift (fun st => get_prop (heap st) opts "data");
  (if truthy data then
     _setData data;;
     modify (delete_prop opts "data")
   else mret tt);;
  modify (_mergeConfig opts);;
  _updateTable;;
  _onWindowResized.

(** [Table.prototype.setHeaders]. *)
Definition setHeaders (headers : Val) : M unit :=
  modify (_setHeaders headers);;
  _updateTable.

(** [[].concat( data )]: a new array holding the elements of [data] if
    that is an array, and [data] itself otherwise. *)
Definition concat_items (h : gmap N HeapObj) (data : Val) : list Val :=
  match data with
  | VObject l =>
      match h !! l with
      | Some (HArray xs) => xs
      | _ => [data]
      end
  | _ => [data]
  end.

Definition concat_empty (data : Val) : M Val := fun st =>
  let (l, h') := alloc (HArray (concat_items (heap st) data)) (heap st) in
  (Ok (VObject l), set_heap h' st).

(** [Table.prototype.setData]. *)
Definition setData (data : Val) : M unit :=
  copy ← concat_empty data;
  _setData copy;;
  _updateTable;;
  _onWindowResized.

(** [Table.prototype.rebuild]. *)
Definition rebuild : M unit :=
  modify (fun st =>
            match _data st with
            | Some es =>
                set__data (Some (map (fun e => {| row := None; data := data e |}) es)) st
            | None => st
            end);;
  _updateTable.

(** A plain class name: a letter or an underscore, followed by letters,
    digits, underscores and hyphens. *)
Definition is_letter (c : ascii) : bool :=
  let n := nat_of_ascii c in
  ((65 <=? n) && (n <=? 90)) || ((97 <=? n) && (n <=? 122)).

Definition is_name_char (c : ascii) : bool :=
  let n := nat_of_ascii c in
  is_letter c || ((48 <=? n) && (n <=? 57)) || (n =? 95) || (n =? 45).

Fixpoint all_name_chars (s : string) : bool :=
  match s with
  | EmptyString => true
  | String c s' => is_name_char c && all_name_chars s'
  end.

Definition class_name (s : string) : bool :=
  match s with
  | EmptyString => false
  | String c s' => (is_letter c || (nat_of_ascii c =? 95)) && all_name_chars s'
  end.

(** For a column that is a plain class name, [.header.column.<column>]
    selects the elements that carry the three classes [header], [column]
    and the column's.  In the header table these are header cells and,
    where a column is called [header], cells of the cloned rows.  (The
    markup of a title and what a generator returned are not looked into,
    and the page is taken to be in standards mode, where class names match
    by case.) *)
Definition selects (column : string) (cs : list string) : bool :=
  hasClass "header" cs && hasClass "column" cs && hasClass column cs.

Definition selected_by (column : string) (th : Th) : bool :=
  selects column (th_classes th).

Definition with_classes (f : list string -> list string) (th : Th) : Th :=
  {| th_classes := f (th_classes th); th_html := th_html th;
     th_colspan := th_colspan th |}.

Definition td_with_classes (f : list string -> list string) (td : Td) : Td :=
  {| td_classes := f (td_classes td); td_name := td_name td;
     td_inner := td_inner td |}.

Definition mark_cells (column : string) (f : list string -> list string) (tr : Tr)
  : Tr :=
  {| tr_classes := tr_classes tr;
     tr_cells := map (fun td => if selects column (td_classes td)
                                then td_with_classes f td else td) (tr_cells tr);
     tr_data := tr_data tr |}.

(** A change of the classes of the selected elements. *)
Definition update_header (column : string) (f : list string -> list string)
           (st : St) : St :=
  match _headerTable st with
  | Some ht =>
      set_nodes
        (foldr (alter (mark_cells column f)) (nodes st) (header_tbody ht))
        (set__headerTable
           (Some {| thead := map (fun th => if selected_by column th
                                            then with_classes f th else th) (thead ht);
                    header_tbody := header_tbody ht |}) st)
  | None => st
  end.

(** [.hasClass( 'ascending-sort' )] on the selected elements: whether one
    of them carries the class. *)
Definition marked_ascending (column : string) (st : St) : bool :=
  match _headerTable st with
  | Some ht =>
      existsb (fun th => selected_by column th
                         && hasClass "ascending-sort" (th_classes th)) (thead ht)
      || existsb (fun n =>
                    match nodes st !! n with
                    | Some tr =>
                        existsb (fun td => selects column (td_classes td)
                                           && hasClass "ascending-sort" (td_classes td))
                                (tr_cells tr)
                    | None => false
                    end) (header_tbody ht)
  | None => false
  end.

(** [Table.prototype.sortOnColumn].  With a column that is no plain class
    name the text ['.header.column.' + column] is another selector
    expression ([a.b] asks for a further class, [first name] for an
    element [name] inside another) or none at all, which makes the DOM
    library throw; what the call does then is the selector engine's
    business and is left to [sort_by_expression]. *)
Definition sortOnColumn (column : string) (sortMode : Comparator) : M unit := fun st =>
  match _headerTable st with
  | None => (Throw TypeError, st)
  | Some ht =>
      if negb (class_name column) then sort_by_expression column sortMode st
      else
        let descend := marked_ascending column st in
        let sortMode := if descend then reverseSort sortMode else sortMode in
        match _data st with
        | None => (Throw TypeError, st)
        | Some es =>
            let sorted :=
              Array_sort (fun a b => sortMode column (record (heap st) (data a))
                                              (record (heap st) (data b))) es in
            (_updateTable;;
             modify (update_header column
                       (if descend
                        then fun cs => addClass "descending-sort"
                                         (removeClass "ascending-sort" cs)
                        else fun cs => removeClass "descending-sort"
                                         (addClass "ascending-sort" cs)));;
             _onWindowResized) (set__data (Some sorted) st)
        end
  end.

Definition tr_with_classes (f : list string -> list string) (tr : Tr) : Tr :=
  {| tr_classes := f (tr_classes tr); tr_cells := tr_cells tr;
     tr_data := tr_data tr |}.

Definition is_selected (st : St) (n : N) : bool :=
  match nodes st !! n with
  | Some tr => hasClass "selected" (tr_classes tr)
  | None => false
  end.

(** The selection update of a click:
    [this._element.find( 'tr.selected' ).removeClass( 'selected' )] and
    [$row.addClass( 'selected' )]. *)
Definition select_row (r : N) : M unit := fun st =>
  match collection (heap st) (_element st) with
  | None => (Throw TypeError, st)
  | Some _ =>
      let cleared :=
        foldr (alter (tr_with_classes (removeClass "selected")))
              (nodes st) (filter (fun n => is_selected st n) (rows_in_element st)) in
      (Ok tt, set_nodes (alter (tr_with_classes (addClass "selected")) r cleared) st)
  end.

(** The call of the registered handler, with
    [$row.data( 'data' ).data], [$row] and the table. *)
Definition call_handler (eventName : string) (r : N) : M (option Call) := fun st =>
  let callback := prop (_callbacks st) eventName in
  if truthy callback then
    match nodes st !! r ≫= tr_data, callback with
    | Some d, VFunction f =>
        (Ok (Some {| callee := f; arg_record := d; arg_row := r |}), st)
    | _, _ => (Throw TypeError, st)
    end
  else (Ok None, st).

(** [_onRowEvent]: yields the call to the caller's handler that ends
    it, if there is one. *)
Definition _onRowEvent (eventName : string) (target : Target) : M (option Call) :=
  if negb (is_td target) && negb (is_tr target) then mret None
  else
    let r := closest_tr target in
    (if String.eqb eventName "click" then select_row r else mret tt);;
    call_handler eventName r.

(** The host runs the oldest deferred continuation; an error in it is
    reported and does not stop the loop. *)
Definition run_timer (st : St) : St :=
  match timers st with
  | [] => st
  | start :: rest => (_insertData start (set_timers rest st)).2
  end.

Fixpoint run_timers (fuel : nat) (st : St) : St :=
  match fuel with
  | 0 => st
  | S fuel' =>
      match timers st with
      | [] => st
      | _ :: _ => run_timers fuel' (run_timer st)
      end
  end.

(** [new Table( element, opts )] over a heap holding the caller's
    objects. *)
Definition new_table (h : gmap N HeapObj) : St :=
  {| heap := h; nodes := ∅; timers := []; batches := [];
     mount := VUndefined; _element := VUndefined;
     _config := extend_deep h ∅ DEFAULT_TABLE_CONFIG;
     _callbacks := ∅; _headers := VUndefined; _data := None;
     _headerTable := None; _bodyTable := None |}.

Definition Table_ (element opts : Val) : M unit :=
  (if truthy element then setElement element else mret tt);;
  (if truthy opts then setOpts opts else mret tt).

(** What [_columnCallback] hands to the caller's handler: the handler,
    the name kept on the cell and the row record (the third argument is
    the table, the fourth the element the event started on). *)
Record ColumnCall : Type := {
  column_callee : string;
  arg_name : Val;
  arg_data : N
}.

(** [_columnCallback], for an event that started inside cell [c] of the
    row element [r]. *)
Definition _columnCallback (column callback : Val) (r : N) (c : nat)
  : M ColumnCall := fun st =>
  let name :=
    default VUndefined (td_name <$> (nodes st !! r ≫= fun tr => tr_cells tr !! c)) in
  match nodes st !! r ≫= tr_data, callback with
  | Some d, VFunction f =>
      (Ok {| column_callee := f; arg_name := name; arg_data := d |}, st)
  | _, _ => (Throw TypeError, st)
  end.

End Widget.

End Table.

(* ===================================================================== *)
(** * A page and its data *)
(* ===================================================================== *)

(** A concrete host: one container [#grid], the text generator that
    [Table.textCell()] returns, scalar options, and no element matching
    [.lw-table-body-container]. *)
Module Page.
Import Table.

Definition resolve (target : Val) : list N :=
  match target with
  | VString "#grid" => [7%N]
  | _ => []
  end.

Definition object_to_string (l : N) : string := "[object Object]".

(** The page holds no number other than integers below 2^53 in size, so
    the digits of no other number are asked for. *)
Definition number_to_string (k : Z) : string := "?".
Definition object_to_number (l : N) : JsNum := NaN.

(** [filter( data[ name ] )] with the default filter [String]. *)
Definition generate (g : string) (cellName : Val) (rec : gmap string Val) (f : Val)
  : Val :=
  match cellName with
  | VString k => VString (ToString number_to_string object_to_string (prop rec k))
  | _ => VString "undefined"
  end.

(** On options whose values are scalars the deep merge is the plain one. *)
Definition extend_deep (h : gmap N HeapObj) (target source : gmap string Val)
  : gmap string Val :=
  extend target source.

Definition pinned_ancestor : bool := false.

(** The selector engine of the page is not described: a sort on a column
    that is no class name is taken to throw its syntax error. *)
Definition sort_by_expression (column : string) (sortMode : Comparator) : M unit :=
  throw (Error ("Syntax error, unrecognized expression: .header.column." +:+ column)).

(** The caller's objects: an options bundle at 0 with one column and a
    click handler, the array of column definitions at 1, the array of
    records at 3, the callbacks at 4 and the records themselves from 10
    on. *)
Definition refs (recs : list (gmap string Val)) : list Val :=
  imap (fun i _ => VObject (N.of_nat (10 + i))) recs.

(** Two more bundles, at 5 and 6: one with all three special keys, one
    whose [data] is null. *)
Definition full_bundle : gmap string Val :=
  {[ "headers" := VObject 1%N; "callbacks" := VObject 4%N; "data" := VObject 3%N;
     "selectable" := VBool true ]}.

Definition null_bundle : gmap string Val :=
  {[ "data" := VNull; "selectable" := VBool true ]}.

Definition heap_of (column : string) (recs : list (gmap string Val))
  : gmap N HeapObj :=
  <[0%N := HObject {[ "headers" := VObject 1%N; "callbacks" := VObject 4%N;
                      "scrollable" := VBool true ]}]>
    (<[1%N := HArray [VObject 2%N]]>
       (<[2%N := HObject {[ "name" := VString column ]}]>
          (<[3%N := HArray (refs recs)]>
             (<[4%N := HObject {[ "click" := VFunction "onRowClick" ]}]>
                (<[5%N := HObject full_bundle]>
                   (<[6%N := HObject null_bundle]>
                      (list_to_map
                         (imap (fun i r => (N.of_nat (10 + i), HObject r)) recs)))))))).

(** [n] records [{ name : "r<i>" }]. *)
Definition named (n : nat) : list (gmap string Val) :=
  imap (fun i _ => {[ "name" := VString ("r" +:+ pretty i) ]}) (replicate n tt).

Definition data_array (n : nat) : list Val := refs (named n).

Definition page_heap (n : nat) : gmap N HeapObj := heap_of "name" (named n).

(** Records [{ rank : s }]. *)
Definition ranked (ranks : list string) : gmap N HeapObj :=
  heap_of "rank" (map (fun s => {[ "rank" := VString s ]}) ranks).

(** A new table bound to [#grid], before any options. *)
Definition bound (h : gmap N HeapObj) : St :=
  (setElement resolve number_to_string object_to_string (VString "#grid")
              (new_table extend_deep h)).2.

(** [new Table( '#grid', opts )] on such a page: headers set, no data yet. *)
Definition table_of (h : gmap N HeapObj) : St :=
  (Table_ resolve generate extend_deep object_to_number number_to_string object_to_string
          pinned_ancestor (VString "#grid") (VObject 0%N)
          (new_table extend_deep h)).2.

Definition fresh_table (n : nat) : St := table_of (page_heap n).

(** The table after [setData] with the array of records. *)
Definition loaded (h : gmap N HeapObj) : St :=
  (setData generate object_to_number pinned_ancestor (VObject 3%N) (table_of h)).2.

(** That table after a click on a cell of its second row. *)
Definition clicked (h : gmap N HeapObj) : St :=
  (_onRowEvent "click" (OnCell 2%N) (loaded h)).2.

(** Rows with a single column [value]. *)
Definition cell (s : string) : gmap string Val := {[ "value" := VString s ]}.

End Page.

(* ===================================================================== *)
(** * Vocabulary of the statements *)
(* ===================================================================== *)

Module Spec.
Import Table.

(** A column definition whose [generator] is a function. *)
Definition header_ok (h : gmap N HeapObj) (v : Val) : bool :=
  match v with
  | VObject l =>
      match h !! l with
      | Some (HObject ps) =>
          match prop ps "generator" with
          | VFunction _ => true
          | _ => false
          end
      | _ => false
      end
  | _ => false
  end.

(** The headers of the table are such definitions (or there are none). *)
Definition headers_ok (h : gmap N HeapObj) (v : Val) : bool :=
  match v with
  | VObject l =>
      match h !! l with
      | Some (HArray hs) => forallb (header_ok h) hs
      | Some _ => true
      | None => false
      end
  | _ => true
  end.

(** The name a column definition gives. *)
Definition header_name (h : gmap N HeapObj) (v : Val) : Val :=
  match get_prop h v "name" with
  | Ok n => n
  | Throw _ => VUndefined
  end.

(** The rows of the body table, of the header table's body, and the
    records of the entries, in order. *)
Definition body_rows (st : St) : list N :=
  match _bodyTable st with
  | Some bt => body_tbody bt
  | None => []
  end.

Definition header_rows (st : St) : list N :=
  match _headerTable st with
  | Some ht => header_tbody ht
  | None => []
  end.

Definition header_cells (st : St) : list Th :=
  match _headerTable st with
  | Some ht => thead ht
  | None => []
  end.

Definition data_refs (st : St) : list N := map data (entries st).

(** The row id a record carries. *)
Definition row_id (st : St) (l : N) : Val := prop (record (heap st) l) rowIDColumn.

(** [n] rows cut into full batches and a rest. *)
Definition batch_sizes (n : nat) : list nat :=
  replicate (n / INSERT_BATCH_LIMIT) INSERT_BATCH_LIMIT
  ++ (if n mod INSERT_BATCH_LIMIT =? 0 then [] else [n mod INSERT_BATCH_LIMIT]).

(** Everything a render leaves alone. *)
Definition same_setup (st st' : St) : Prop :=
  heap st' = heap st /\ mount st' = mount st /\ _element st' = _element st
  /\ _config st' = _config st /\ _callbacks st' = _callbacks st
  /\ _headers st' = _headers st.

(** No entry from [k] on has a row yet. *)
Definition unbuilt_from (k : nat) (st : St) : Prop :=
  forall j e, k <= j -> entries st !! j = Some e -> row e = None.

(** Every row of the body is an element of the store. *)
Definition body_in_store (st : St) : Prop :=
  Forall (fun m => is_Some (nodes st !! m)) (body_rows st).

(** The comparison [sortOnColumn] makes between two entries, through their
    records. *)
Definition by_records (h : gmap N HeapObj) (column : string) (sortMode : Comparator)
  : N -> N -> JsNum :=
  fun a b => sortMode column (record h a) (record h b).

(** The number [numberSort] takes for a column value: its [Number]
    coercion, and 0 where that is NaN (or a zero). *)
Definition sort_number (object_to_number : N -> JsNum) (v : Val) : JsNum :=
  num_or_zero (Number object_to_number v).

(** [a] may stand before [b]: the comparison of the two is not positive. *)
Definition precedes {A} (compare : A -> A -> JsNum) (a b : A) : Prop :=
  is_positive (compare a b) = false.

(** A comparator that is consistent on the elements of a list: of two
    elements one may stand before the other, and standing before is
    transitive. *)
Definition total_on {A} (compare : A -> A -> JsNum) (l : list A) : bool :=
  forallb (fun a =>
    forallb (fun b =>
      negb (is_positive (compare a b)) || negb (is_positive (compare b a))) l) l.

Definition transitive_on {A} (compare : A -> A -> JsNum) (l : list A) : bool :=
  forallb (fun a =>
    forallb (fun b =>
      forallb (fun d =>
        implb (negb (is_positive (compare a b)) && negb (is_positive (compare b d)))
              (negb (is_positive (compare a d)))) l) l) l.

Definition consistent_on {A} (compare : A -> A -> JsNum) (l : list A) : bool :=
  total_on compare l && transitive_on compare l.



(** The header of the column carries the ascending marker: an element
    that the column's selector reaches does. *)
Definition ascending_marked (column : string) (st : St) : bool :=
  marked_ascending column st.



(** What neither a render nor a window resize touches: the heap, the
    configuration, the callbacks, the headers and the records of the
    entries. *)
Definition untouched (st st' : St) : Prop :=
  heap st' = heap st /\ _config st' = _config st /\ _callbacks st' = _callbacks st
  /\ _headers st' = _headers st /\ data_refs st' = data_refs st
  /\ (is_Some (_data st) -> is_Some (_data st')).

(** A computation that leaves all that as it is, whether it throws or
    not. *)
Definition keeps {A} (m : M A) : Prop := forall st, untouched st (m st).2.

(** Whether a row element of the store carries the selected marker. *)
Definition marked (o : option Tr) : bool :=
  match o with
  | Some tr => hasClass "selected" (tr_classes tr)
  | None => false
  end.








End Spec.

(* ===================================================================== *)
(** * Vocabulary of the rendered rows *)
(* ===================================================================== *)

Module View.
Import Table Spec.

(** The row elements the entries hold, in order. *)
Definition rows (es : list RowEntry) : list N := omap row es.

(** No two entries share a row element, and every row element an entry
    holds is in the store. *)
Definition rows_sound (st : St) : Prop :=
  NoDup (rows (entries st))
  /\ Forall (fun m => is_Some (nodes st !! m)) (rows (entries st)).

(** The entry with its row element. *)
Definition built (e : RowEntry) (n : N) : RowEntry :=
  {| row := Some n; data := data e |}.

(** What a render starting in [st0] makes of an entry, [n] being its row
    element afterwards: the row element the entry had, with its classes
    and cells and with its data slot set; or, for an entry that had none,
    a new element with the cells of the record and no class. *)
Definition placed (generate : string -> Val -> gmap string Val -> Val -> Val)
           (st0 st : St) (e : RowEntry) (n : N) : Prop :=
  match row e with
  | Some m => n = m /\ nodes st !! n = set_tr_data (data e) <$> nodes st0 !! m
  | None =>
      nodes st0 !! n = None
      /\ exists cells,
          build_cells generate (heap st0) (data e) (items (heap st0) (_headers st0))
          = Ok cells
          /\ nodes st !! n
             = Some {| tr_classes := []; tr_cells := cells; tr_data := Some (data e) |}
  end.

(** The render that started in [st0] has handled the first [k] entries. *)
Definition rendered (generate : string -> Val -> gmap string Val -> Val -> Val)
           (st0 : St) (k : nat) (st : St) : Prop :=
  heap st = heap st0 /\ _headers st = _headers st0
  /\ (forall m, is_Some (nodes st0 !! m) -> is_Some (nodes st !! m))
  /\ (forall m, m ∉ rows (take k (entries st0)) -> is_Some (nodes st0 !! m) ->
                nodes st !! m = nodes st0 !! m)
  /\ exists ns,
      body_rows st = ns
      /\ entries st = zip_with built (take k (entries st0)) ns ++ drop k (entries st0)
      /\ Forall2 (placed generate st0 st) (take k (entries st0)) ns
      /\ NoDup ns.

(** The row element [n] is the one built for the entry [e] under the
    column definitions of [st]: no class, the cells of the record, and the
    data slot leading to the record. *)
Definition shows (generate : string -> Val -> gmap string Val -> Val -> Val)
           (st : St) (e : RowEntry) (n : N) : Prop :=
  row e = Some n
  /\ exists cells,
      build_cells generate (heap st) (data e) (items (heap st) (_headers st)) = Ok cells
      /\ nodes st !! n
         = Some {| tr_classes := []; tr_cells := cells; tr_data := Some (data e) |}.

(** A row element whose cells have lost the names kept on them. *)
Definition unnamed (tr : Tr) : Tr :=
  {| tr_classes := tr_classes tr; tr_cells := map without_name (tr_cells tr);
     tr_data := tr_data tr |}.

(** A row element after a render of the table [st] that uses it again:
    as it was, except that the names kept on its cells are gone when the
    table sat in the container, which the render has emptied. *)
Definition reused (st : St) (tr : Tr) : Tr :=
  if attached st then unnamed tr else tr.

(** A table whose render is over: no timer is left, the body holds the
    row elements of the entries in their order, no element twice, and the
    data slot of each leads to the record of its entry. *)
Definition complete (st : St) : Prop :=
  timers st = []
  /\ body_rows st = rows (entries st)
  /\ NoDup (body_rows st)
  /\ Forall (fun e => exists n tr, row e = Some n /\ nodes st !! n = Some tr
                                   /\ tr_data tr = Some (data e))
            (entries st).

(** The table after an operation and the timers it leaves. *)
Definition shown (generate : string -> Val -> gmap string Val -> Val -> Val)
           (object_to_number : N -> JsNum) (pinned_ancestor : bool)
           (data : Val) (fuel : nat) (st : St) : St :=
  run_timers generate fuel
    (setData generate object_to_number pinned_ancestor data st).2.

Definition resorted (generate : string -> Val -> gmap string Val -> Val -> Val)
           (object_to_number : N -> JsNum) (pinned_ancestor : bool)
           (sort_by_expression : string -> Comparator -> M unit)
           (column : string) (sortMode : Comparator) (fuel : nat) (st : St) : St :=
  run_timers generate fuel
    (sortOnColumn generate object_to_number pinned_ancestor sort_by_expression
                  column sortMode st).2.

Definition rebuilt (generate : string -> Val -> gmap string Val -> Val -> Val)
           (fuel : nat) (st : St) : St :=
  run_timers generate fuel (rebuild generate st).2.

Definition reheaded (generate : string -> Val -> gmap string Val -> Val -> Val)
           (headers : Val) (fuel : nat) (st : St) : St :=
  run_timers generate fuel (setHeaders generate headers st).2.

(** A value that is no reference to an object that does not exist. *)
Definition live (h : gmap N HeapObj) (v : Val) : bool :=
  match v with
  | VObject r => bool_decide (is_Some (h !! r))
  | _ => true
  end.

(** A column definition as the caller hands it in: its [generator], if it
    names one, is a function. *)
Definition definition_ok (h : gmap N HeapObj) (v : Val) : bool :=
  live h v
  && match prop (own_props h v) "generator" with
     | VUndefined | VFunction _ => true
     | _ => false
     end.

(** What a column definition holds under a key once the defaults are
    filled in. *)
Definition with_default (ps : gmap string Val) (k : string) : Val :=
  if decide (prop ps k = VUndefined) then prop DEFAULT_COLUMN_CONFIG k else prop ps k.

(** The table after two loads in a row, no timer having run between. *)
Definition reloaded (generate : string -> Val -> gmap string Val -> Val -> Val)
           (object_to_number : N -> JsNum) (pinned_ancestor : bool)
           (first second : Val) (st : St) : St :=
  (setData generate object_to_number pinned_ancestor second
     (setData generate object_to_number pinned_ancestor first st).2).2.

(** The comparison [sortOnColumn] hands to [sort]: of two entries, through
    their records, with the operands swapped when the header of the column
    carries the ascending marker. *)
Definition entry_order (column : string) (sortMode : Comparator) (st : St)
  : RowEntry -> RowEntry -> JsNum :=
  fun a b =>
    (if ascending_marked column st then reverseSort sortMode else sortMode)
      column (record (heap st) (data a)) (record (heap st) (data b)).

End View.

(* ===================================================================== *)
(** * Properties of [inherit] *)
(* ===================================================================== *)

Section InheritFacts.
Import Inherit.
Variable _callsSuper : value -> bool.

Lemma _overriding_undefined name supr derv v :
  _overriding name supr derv = Ok v -> v = undefined.
Proof.
  unfold _overriding.
  destruct (get supr name) as [s|e]; simpl; [|discriminate].
  destruct (get derv name) as [d|e]; simpl; [|discriminate].
  congruence.
Qed.

Lemma set_undefined k x : set undefined k x = Throw TypeError.
Proof. reflexivity. Qed.

Lemma get_throws_TypeError o k e : get o k = Throw e -> e = TypeError.
Proof. destruct o as [[]| |]; simpl; congruence. Qed.

Lemma _overriding_throws_TypeError name supr derv e :
  _overriding name supr derv = Throw e -> e = TypeError.
Proof.
  unfold _overriding.
  destruct (get supr name) as [s|e1] eqn:Hs; simpl.
  - destruct (get derv name) as [d|e2] eqn:Hd; simpl; [discriminate|].
    intros [= <-]. eapply get_throws_TypeError, Hd.
  - intros [= <-]. eapply get_throws_TypeError, Hs.
Qed.

Lemma inherit_member_undefined supr derv name :
  inherit_member _callsSuper supr derv undefined name = Throw TypeError.
Proof.
  unfold inherit_member.
  destruct (get derv name) as [f|e] eqn:Hd; simpl.
  - destruct (_overriding name supr derv) as [ov|e] eqn:Ho; simpl.
    + apply _overriding_undefined in Ho. subst ov. reflexivity.
    + apply _overriding_throws_TypeError in Ho. congruence.
  - apply get_throws_TypeError in Hd. congruence.
Qed.

Lemma loop_stays_thrown supr derv names :
  foldl (fun acc name => p ← acc; inherit_member _callsSuper supr derv p name)
        (Throw TypeError) names = Throw TypeError.
Proof. induction names as [|n ns IH]; simpl; auto. Qed.

Lemma loop_from_undefined supr derv names :
  foldl (fun acc name => p ← acc; inherit_member _callsSuper supr derv p name)
        (Ok undefined) names
  = match names with [] => Ok undefined | _ :: _ => Throw TypeError end.
Proof.
  destruct names as [|n ns]; [reflexivity|].
  simpl. rewrite inherit_member_undefined. apply loop_stays_thrown.
Qed.

Lemma inherit_throws base derived :
  inherit _callsSuper base derived = Throw TypeError.
Proof.
  unfold inherit.
  destruct (get base "prototype") as [supr|e] eqn:Hb; simpl.
  2:{ apply get_throws_TypeError in Hb. congruence. }
  destruct (get derived "prototype") as [derv|e] eqn:Hd; simpl.
  2:{ apply get_throws_TypeError in Hd. congruence. }
  unfold _getPrototype at 1. rewrite loop_from_undefined.
  destruct (keys derv); reflexivity.
Qed.

End InheritFacts.

(** C2.  On a base and a derived class that both define [greet] as
    functions, the derived one calling [this._super], the test
    [_overriding] yields undefined although the conjunction written under
    its [return] holds; [inherit] installs no wrapper and ends in a
    TypeError, whatever the up-call pattern answers and whatever the classes
    are. *)
Theorem inherit_installs_no_wrapper :
  Inherit._overriding "greet" (Inherit.Object [("greet", Inherit.base_greet)])
                      (Inherit.Object [("greet", Inherit.derived_greet)])
  = Ok Inherit.undefined
  /\ Inherit._overriding_conjunction
       "greet" (Inherit.Object [("greet", Inherit.base_greet)])
       (Inherit.Object [("greet", Inherit.derived_greet)]) = Ok true
  /\ Inherit.inherit (fun _ => true) Inherit.Base Inherit.Derived = Throw TypeError
  /\ forall _callsSuper base derived,
       Inherit.inherit _callsSuper base derived = Throw TypeError.
Proof.
  split; [reflexivity|]. split; [reflexivity|]. split; [reflexivity|].
  intros. apply inherit_throws.
Qed.

(* ===================================================================== *)
(** * Properties of the table *)
(* ===================================================================== *)

Section StoreFacts.
Import Table.

Lemma foldr_max_ge (l : list N) (x : N) : x ∈ l -> (x <= foldr N.max 0 l)%N.
Proof.
  induction l as [|y l IH]; intros Hx.
  - inversion Hx.
  - apply elem_of_cons in Hx as [->|Hx]; simpl; [lia|].
    specialize (IH Hx). lia.
Qed.

Lemma next_free_fresh {V} (m : gmap N V) : m !! next_free m = None.
Proof.
  destruct (m !! next_free m) as [v|] eqn:Hm; [|reflexivity].
  exfalso.
  assert (next_free m ∈ elements (dom m)) as Hin.
  { apply elem_of_elements, elem_of_dom. eauto. }
  apply foldr_max_ge in Hin. unfold next_free in Hin. lia.
Qed.

Lemma alloc_fresh o h : h !! (alloc o h).1 = None.
Proof. apply next_free_fresh. Qed.

Lemma alloc_lookup o h : (alloc o h).2 !! (alloc o h).1 = Some o.
Proof. unfold alloc; simpl. apply lookup_insert_eq. Qed.

Lemma alloc_subseteq o h : h ⊆ (alloc o h).2.
Proof. unfold alloc; simpl. apply insert_subseteq, next_free_fresh. Qed.

End StoreFacts.

(** C1.  [setElement] never signals the error: the check tests the
    collection object that the DOM library returns, and an object is truthy
    also when the collection is empty.  The target [#missing], which
    resolves to nothing on the page, is accepted like any other. *)
Theorem setElement_accepts_every_target :
  (forall resolve number_to_string object_to_string element st,
      (Table.setElement resolve number_to_string object_to_string element st).1 = Ok tt
      /\ Table.collection
           (Table.heap (Table.setElement resolve number_to_string object_to_string element st).2)
           (Table._element (Table.setElement resolve number_to_string object_to_string element st).2)
         = Some (resolve element))
  /\ Page.resolve (VString "#missing") = []
  /\ forall st,
      (Table.setElement Page.resolve Page.number_to_string Page.object_to_string (VString "#missing") st).1
      = Ok tt.
Proof.
  assert (forall resolve number_to_string object_to_string element st,
      (Table.setElement resolve number_to_string object_to_string element st).1 = Ok tt
      /\ Table.collection
           (Table.heap (Table.setElement resolve number_to_string object_to_string element st).2)
           (Table._element (Table.setElement resolve number_to_string object_to_string element st).2)
         = Some (resolve element)) as H.
  { intros. unfold Table.setElement, Table.alloc; simpl. split; [reflexivity|].
    by rewrite lookup_insert_eq. }
  split; [exact H|]. split; [reflexivity|].
  intros st. apply H.
Qed.

Section RenderFacts.
Import Table Spec.
Variable generate : string -> Val -> gmap string Val -> Val -> Val.

Lemma limit_pos : 0 < INSERT_BATCH_LIMIT.
Proof. unfold INSERT_BATCH_LIMIT. lia. Qed.

Lemma batch_sizes_small m :
  0 < m <= INSERT_BATCH_LIMIT -> batch_sizes m = [m].
Proof.
  unfold batch_sizes. intros Hm.
  destruct (decide (m = INSERT_BATCH_LIMIT)) as [->|Hne].
  - reflexivity.
  - rewrite Nat.div_small, Nat.mod_small by lia. simpl.
    destruct (Nat.eqb_spec m 0); [lia|reflexivity].
Qed.

Lemma batch_sizes_big m :
  INSERT_BATCH_LIMIT < m ->
  batch_sizes m = INSERT_BATCH_LIMIT :: batch_sizes (m - INSERT_BATCH_LIMIT).
Proof.
  intros Hm. pose proof limit_pos as Hpos.
  assert (m = (m - INSERT_BATCH_LIMIT) + 1 * INSERT_BATCH_LIMIT) as Hsplit by lia.
  assert (m / INSERT_BATCH_LIMIT = S ((m - INSERT_BATCH_LIMIT) / INSERT_BATCH_LIMIT))
    as Hdiv.
  { rewrite Hsplit at 1. rewrite Nat.div_add by lia. lia. }
  assert (m mod INSERT_BATCH_LIMIT = (m - INSERT_BATCH_LIMIT) mod INSERT_BATCH_LIMIT)
    as Hmod.
  { rewrite Hsplit at 1. apply Nat.Div0.mod_add. }
  unfold batch_sizes. rewrite Hdiv, Hmod. reflexivity.
Qed.

Lemma batch_sizes_zero : batch_sizes 0 = [].
Proof. reflexivity. Qed.

Local Opaque INSERT_BATCH_LIMIT.

Lemma same_setup_refl st : same_setup st st.
Proof. repeat split. Qed.

Lemma same_setup_trans st1 st2 st3 :
  same_setup st1 st2 -> same_setup st2 st3 -> same_setup st1 st3.
Proof.
  unfold same_setup. intros (?&?&?&?&?&?) (?&?&?&?&?&?).
  repeat split; congruence.
Qed.

Lemma headers_ok_items h v :
  headers_ok h v = true -> forallb (header_ok h) (items h v) = true.
Proof.
  unfold headers_ok, items. destruct v; try reflexivity.
  destruct (h !! l) as [[| |]|]; try reflexivity; auto.
Qed.

Lemma header_ok_inv h v :
  header_ok h v = true ->
  exists l ps g, v = VObject l /\ h !! l = Some (HObject ps)
                 /\ prop ps "generator" = VFunction g.
Proof.
  unfold header_ok. destruct v; try discriminate.
  destruct (h !! l) as [[ps| |]|] eqn:Hl; try discriminate.
  destruct (prop ps "generator") eqn:Hg; try discriminate.
  intros _. eexists _, _, _. repeat split; eauto.
Qed.

Lemma build_cells_ok h d hs :
  forallb (header_ok h) hs = true ->
  exists cells, build_cells generate h d hs = Ok cells.
Proof.
  induction hs as [|x hs IH]; simpl; [eauto|].
  intros [Hx Hhs]%andb_prop.
  destruct (header_ok_inv _ _ Hx) as (l & ps & g & -> & Hl & Hg).
  destruct (IH Hhs) as [cells Hcells].
  unfold _createCell. simpl. rewrite Hl. simpl. rewrite Hg. simpl.
  rewrite Hcells. simpl. eauto.
Qed.

Lemma insert_row_ok idx st e :
  headers_ok (heap st) (_headers st) = true ->
  entries st !! idx = Some e ->
  is_Some (_bodyTable st) ->
  exists st' n,
    insert_row generate idx st = (Ok tt, st')
    /\ same_setup st st'
    /\ timers st' = timers st /\ batches st' = batches st
    /\ _headerTable st' = _headerTable st
    /\ is_Some (_bodyTable st')
    /\ entries st' = <[idx := {| row := Some n; data := data e |}]> (entries st)
    /\ body_rows st' = appendTo n (body_rows st)
    /\ (row e = None ->
        n = next_free (nodes st) /\ exists tr, nodes st' = <[n := tr]> (nodes st))
    /\ (forall m, is_Some (nodes st !! m) -> is_Some (nodes st' !! m)).
Proof.
  intros Hok He [bt Hbt].
  unfold insert_row. rewrite He.
  destruct (row e) as [n|] eqn:Hrow.
  - eexists _, n. split; [reflexivity|].
    unfold append_body, body_rows, entries; simpl. rewrite Hbt; simpl.
    repeat split; eauto.
    + symmetry. apply list_insert_id. rewrite <- Hrow. by destruct e.
    + discriminate.
    + discriminate.
    + intros m Hm. apply lookup_alter_is_Some. exact Hm.
  - destruct (build_cells_ok (heap st) (data e) _ (headers_ok_items _ _ Hok))
      as [cells ->].
    eexists _, _. split; [reflexivity|].
    unfold append_body, body_rows, entries; simpl. rewrite Hbt; simpl.
    repeat split; eauto.
    intros m Hm. apply lookup_insert_is_Some'. by right.
Qed.

Lemma appendTo_new (n : N) (l : list N) :
  n ∉ l -> appendTo n l = l ++ [n].
Proof.
  intros Hn. unfold appendTo. f_equal.
  induction l as [|m l IH]; [reflexivity|].
  rewrite not_elem_of_cons in Hn. destruct Hn as [Hne Hn].
  rewrite filter_cons_True by congruence. by rewrite IH.
Qed.

Lemma insert_loop_ok n : forall start i st,
  headers_ok (heap st) (_headers st) = true ->
  is_Some (_bodyTable st) ->
  n + i = INSERT_BATCH_LIMIT ->
  exists st',
    insert_loop generate n start i st
    = (Ok (i + min n (length (entries st) - (start + i))), st')
    /\ same_setup st st'
    /\ timers st' = timers st /\ batches st' = batches st
    /\ _headerTable st' = _headerTable st
    /\ is_Some (_bodyTable st')
    /\ data_refs st' = data_refs st
    /\ (forall j e,
          start + i <= j < start + i + min n (length (entries st) - (start + i)) ->
          entries st' !! j = Some e -> is_Some (row e))
    /\ (forall j,
          j < start + i \/ start + i + min n (length (entries st) - (start + i)) <= j ->
          entries st' !! j = entries st !! j)
    /\ (forall m, is_Some (nodes st !! m) -> is_Some (nodes st' !! m))
    /\ (unbuilt_from (start + i) st -> body_in_store st ->
        length (body_rows st')
        = length (body_rows st) + min n (length (entries st) - (start + i))
        /\ body_in_store st').
Proof.
  induction n as [|n IH]; intros start i st Hok Hbody Hfuel.
  - exists st. simpl. rewrite Nat.add_0_r.
    repeat split; auto using same_setup_refl; try lia.
  - simpl insert_loop.
    destruct (Nat.ltb_spec i INSERT_BATCH_LIMIT) as [_|Hi]; [|lia].
    destruct (Nat.ltb_spec (start + i) (length (entries st))) as [Hlt|Hge]; cbn [andb].
    2:{ exists st. replace (length (entries st) - (start + i)) with 0 by lia.
        rewrite ?Nat.min_0_r, ?Nat.add_0_r.
        repeat split; auto using same_setup_refl; try lia. }
    destruct (lookup_lt_is_Some_2 _ _ Hlt) as [e He].
    destruct (insert_row_ok _ _ _ Hok He Hbody)
      as (st1 & n1 & -> & Hsame1 & Ht1 & Hb1 & Hh1 & Hbody1 & He1 & Hrows1 & Hnew1 & Hkeep1).
    assert (length (entries st1) = length (entries st)) as Hlen.
    { rewrite He1. apply length_insert. }
    assert (headers_ok (heap st1) (_headers st1) = true) as Hok1.
    { destruct Hsame1 as (-> & _ & _ & _ & _ & ->). exact Hok. }
    destruct (IH start (S i) st1 Hok1 Hbody1 ltac:(lia))
      as (st' & Hrun & Hsame & Ht & Hb & Hh & Hbody' & Hrefs & Hbuilt & Hout & Hkeep & Hfresh).
    rewrite Hlen in *.
    set (r := min n (length (entries st) - (start + S i))) in *.
    assert (min (S n) (length (entries st) - (start + i)) = S r) as -> by lia.
    exists st'. rewrite Hrun.
    split; [do 2 f_equal; lia|].
    split; [eauto using same_setup_trans|].
    split; [congruence|]. split; [congruence|]. split; [congruence|].
    split; [exact Hbody'|].
    split.
    { rewrite Hrefs. unfold data_refs. rewrite He1, list_fmap_insert. simpl.
      apply list_insert_id. by rewrite list_lookup_fmap, He. }
    split.
    { intros j e' Hj He'.
      destruct (decide (j = start + i)) as [->|Hne].
      - rewrite Hout in He' by lia.
        rewrite He1, list_lookup_insert_eq in He' by lia.
        injection He' as <-. simpl. eauto.
      - apply (Hbuilt j e'); [lia|exact He']. }
    split.
    { intros j Hj. rewrite Hout by lia.
      rewrite He1. apply list_lookup_insert_ne. lia. }
    split; [auto|].
    intros Hun Hstore.
    assert (row e = None) as Hrow by (apply (Hun (start + i) e); [lia|exact He]).
    destruct (Hnew1 Hrow) as [-> [tr Hnodes1]].
    assert (next_free (nodes st) ∉ body_rows st) as Hnotin.
    { intros Hin. unfold body_in_store in Hstore.
      rewrite Forall_forall in Hstore. destruct (Hstore _ Hin) as [x Hx].
      rewrite next_free_fresh in Hx. discriminate. }
    rewrite appendTo_new in Hrows1 by exact Hnotin.
    destruct Hfresh as [Hlen' Hstore'].
    + intros j e' Hj He'. rewrite He1 in He'.
      rewrite list_lookup_insert_ne in He' by lia.
      apply (Hun j e'); [lia|exact He'].
    + unfold body_in_store. rewrite Hrows1, Hnodes1.
      apply Forall_app. split.
      * eapply Forall_impl; [exact Hstore|].
        intros m Hm. apply lookup_insert_is_Some'. by right.
      * apply Forall_singleton. apply lookup_insert_is_Some'. by left.
    + split; [|exact Hstore'].
      rewrite Hlen', Hrows1, length_app. simpl. lia.
Qed.

Lemma entries_nonempty_data st : entries st <> [] -> is_Some (_data st).
Proof. unfold entries. destruct (_data st); simpl; [eauto|congruence]. Qed.

Lemma _insertData_ok start st :
  headers_ok (heap st) (_headers st) = true ->
  is_Some (_bodyTable st) -> is_Some (_headerTable st) ->
  start < length (entries st) ->
  exists st',
    _insertData generate start st
    = (Ok (min INSERT_BATCH_LIMIT (length (entries st) - start)), st')
    /\ same_setup st st'
    /\ batches st'
       = batches st ++ [min INSERT_BATCH_LIMIT (length (entries st) - start)]
    /\ timers st'
       = timers st
         ++ (if start + min INSERT_BATCH_LIMIT (length (entries st) - start)
                <? length (entries st)
             then [start + min INSERT_BATCH_LIMIT (length (entries st) - start)]
             else [])
    /\ header_cells st' = header_cells st
    /\ length (header_rows st') = S (length (header_rows st))
    /\ is_Some (_bodyTable st') /\ is_Some (_headerTable st')
    /\ data_refs st' = data_refs st
    /\ (forall j,
          start + min INSERT_BATCH_LIMIT (length (entries st) - start) <= j ->
          entries st' !! j = entries st !! j)
    /\ (unbuilt_from start st -> body_in_store st ->
        length (body_rows st')
        = length (body_rows st) + min INSERT_BATCH_LIMIT (length (entries st) - start)
        /\ body_in_store st').
Proof.
  intros Hok Hbody Hhead Hlt.
  pose proof limit_pos as Hpos.
  destruct (insert_loop_ok INSERT_BATCH_LIMIT start 0 st Hok Hbody ltac:(lia))
    as (st1 & Hrun & Hsame & Ht & Hb & Hh & Hbody1 & Hrefs & Hbuilt & Hout & Hkeep & Hfresh).
  rewrite Nat.add_0_r in *.
  change (0 + ?x) with x in Hrun.
  set (k := min INSERT_BATCH_LIMIT (length (entries st) - start)) in *.
  assert (length (entries st1) = length (entries st)) as Hlen.
  { apply (f_equal length) in Hrefs. unfold data_refs in Hrefs.
    by rewrite !length_map in Hrefs. }
  destruct (lookup_lt_is_Some_2 (entries st1) start ltac:(lia)) as [e He].
  destruct (Hbuilt start e ltac:(lia) He) as [n Hn].
  destruct Hhead as [ht Hht].
  assert (is_Some (_data st)) as [es Hes].
  { apply entries_nonempty_data. intros Hnil. rewrite Hnil in Hlt. simpl in Hlt. lia. }
  destruct Hbody as [bt Hbt].
  unfold _insertData. rewrite Hbt, Hes.
  unfold mbind, M_bind. rewrite Hrun.
  unfold modify, append_header_clone, read, mret, M_ret.
  unfold header_cells, header_rows, data_refs, body_rows, entries in *. simpl.
  rewrite Hh, Hht, He. simpl. rewrite Hn. simpl. rewrite Hlen.
  destruct (start + k <? length (default [] (_data st))) eqn:Hmore;
    eexists; (split; [reflexivity|]); simpl; rewrite ?Hht, ?Hb, ?Ht; simpl.
  all: split; [destruct Hsame as (?&?&?&?&?&?); repeat split; assumption|].
  all: do 3 (split; [by rewrite ?app_nil_r|]).
  all: split; [rewrite length_app; simpl; lia|].
  all: split; [assumption|]; split; [eauto|]; split; [assumption|].
  all: split; [intros j Hj; apply Hout; lia|].
  all: intros Hun Hst; destruct (Hfresh Hun Hst) as [Hl Hs]; split; [exact Hl|].
  all: unfold body_in_store, body_rows in *; simpl.
  all: eapply Forall_impl; [exact Hs|].
  all: intros m Hm; apply lookup_insert_is_Some'; by right.
Qed.

Lemma get_prop_truthy h v k : truthy v = true -> exists x, get_prop h v k = Ok x.
Proof.
  destruct v; simpl; try discriminate; eauto.
  destruct (h !! l) as [[| |]|]; eauto.
Qed.

Lemma header_cell_ok h v :
  header_ok h v = true -> exists th, header_cell h v = Ok th.
Proof.
  intros Hv. destruct (header_ok_inv _ _ Hv) as (l & ps & g & -> & Hl & Hg).
  unfold header_cell. simpl. rewrite Hl. simpl.
  destruct (truthy (prop ps "colspan")) eqn:Hc; simpl; [|eauto].
  destruct (get_prop_truthy h _ "length" Hc) as [x ->]. simpl. eauto.
Qed.

Lemma build_thead_ok h hs : forall acc,
  forallb (header_ok h) hs = true ->
  exists ths,
    build_thead h hs acc = (Ok tt, acc ++ ths)
    /\ Forall2 (fun v th => header_cell h v = Ok th) hs ths.
Proof.
  induction hs as [|x hs IH]; intros acc; simpl.
  - intros _. exists []. by rewrite app_nil_r.
  - intros [Hx Hhs]%andb_prop.
    destruct (header_cell_ok _ _ Hx) as [th Hth]. rewrite Hth.
    destruct (IH (acc ++ [th]) Hhs) as (ths & -> & Hall).
    exists (th :: ths). rewrite <- app_assoc. split; [reflexivity|].
    by constructor.
Qed.

Lemma _updateTable_ok st cs :
  headers_ok (heap st) (_headers st) = true ->
  collection (heap st) (_element st) = Some cs ->
  exists st',
    _updateTable generate st = (Ok tt, st')
    /\ heap st' = heap st /\ _element st' = _element st
    /\ _config st' = _config st /\ _callbacks st' = _callbacks st
    /\ _headers st' = _headers st
    /\ mount st' = _element st
    /\ batches st'
       = batches st
         ++ (if length (entries st) =? 0 then []
             else [min INSERT_BATCH_LIMIT (length (entries st))])
    /\ timers st'
       = timers st
         ++ (if INSERT_BATCH_LIMIT <? length (entries st)
             then [INSERT_BATCH_LIMIT] else [])
    /\ Forall2 (fun v th => header_cell (heap st) v = Ok th)
               (items (heap st) (_headers st)) (header_cells st')
    /\ length (header_rows st') = (if length (entries st) =? 0 then 0 else 1)
    /\ is_Some (_bodyTable st') /\ is_Some (_headerTable st')
    /\ data_refs st' = data_refs st
    /\ (forall j,
          min INSERT_BATCH_LIMIT (length (entries st)) <= j ->
          entries st' !! j = entries st !! j)
    /\ (unbuilt_from 0 st ->
        length (body_rows st') = min INSERT_BATCH_LIMIT (length (entries st))
        /\ body_in_store st').
Proof.
  intros Hok Hcs.
  pose proof limit_pos as Hpos.
  unfold _updateTable. simpl. rewrite Hcs.
  destruct (build_thead_ok (heap st) _ [] (headers_ok_items _ _ Hok))
    as (ths & Hths & Hall).
  simpl in Hths. rewrite Hths.
  destruct (truthy (prop (_config st) "scrollable")).
  all: match goal with |- context [(Ok (), ?s)] => set (st4 := s) end.
  all: change (entries st4) with (entries st).
  all: destruct (entries st) as [|e es] eqn:Hes.
  1,3: exists st4; split; [reflexivity|]; simpl;
    unfold header_cells, header_rows, data_refs, body_rows,
           body_in_store, entries; simpl;
    rewrite ?app_nil_r; unfold entries in Hes; rewrite ?Hes;
    destruct (Nat.ltb_spec INSERT_BATCH_LIMIT 0); [lia|];
    rewrite ?app_nil_r; repeat split; eauto.
  all: destruct (_insertData_ok 0 st4 Hok ltac:(simpl; eauto) ltac:(simpl; eauto))
    as (st' & Hrun & Hsame & Hb & Ht & Hcells & Hrows & Hbody & Hhead & Hrefs & Hout & Hfresh);
    [change (entries st4) with (entries st); rewrite Hes; simpl; lia|].
  all: change (entries st4) with (entries st) in *.
  all: rewrite Nat.sub_0_r in *; rewrite <- Hes in *.
  all: set (len := length (entries st)) in *.
  all: assert (len <> 0) as Hlen by (subst len; rewrite Hes; simpl; lia).
  all: exists st'; unfold mbind, M_bind; rewrite Hrun.
  all: split; [reflexivity|].
  all: destruct Hsame as (Hs1 & Hs2 & Hs3 & Hs4 & Hs5 & Hs6).
  all: do 6 (split; [assumption|]).
  all: split; [rewrite Hb; simpl; by destruct (Nat.eqb_spec len 0)|].
  all: split;
    [rewrite Ht; simpl; f_equal;
     destruct (Nat.ltb_spec (INSERT_BATCH_LIMIT `min` len) len),
              (Nat.ltb_spec INSERT_BATCH_LIMIT len); try lia; f_equal; lia|].
  all: split; [rewrite Hcells; exact Hall|].
  all: split; [rewrite Hrows; simpl; by destruct (Nat.eqb_spec len 0)|].
  all: do 3 (split; [assumption|]).
  all: split; [intros j Hj; apply Hout; lia|].
  all: intros Hun; destruct Hfresh as [Hl Hstore];
    [exact Hun|by constructor|]; split; [exact Hl|exact Hstore].
Qed.

Lemma unbuilt_from_later start k st st' :
  start <= k ->
  unbuilt_from start st ->
  (forall j, k <= j -> entries st' !! j = entries st !! j) ->
  unbuilt_from k st'.
Proof.
  intros Hk Hun Hout j e Hj He. rewrite Hout in He by lia.
  apply (Hun j e); [lia|exact He].
Qed.

Lemma drain m : forall start st fuel,
  length (entries st) - start = m ->
  start < length (entries st) ->
  timers st = [start] ->
  headers_ok (heap st) (_headers st) = true ->
  is_Some (_bodyTable st) -> is_Some (_headerTable st) ->
  unbuilt_from start st -> body_in_store st ->
  length (batch_sizes m) <= fuel ->
  timers (run_timers generate fuel st) = []
  /\ batches (run_timers generate fuel st) = batches st ++ batch_sizes m
  /\ length (body_rows (run_timers generate fuel st)) = length (body_rows st) + m
  /\ length (header_rows (run_timers generate fuel st))
     = length (header_rows st) + length (batch_sizes m)
  /\ same_setup st (run_timers generate fuel st)
  /\ header_cells (run_timers generate fuel st) = header_cells st
  /\ data_refs (run_timers generate fuel st) = data_refs st.
Proof.
  induction m as [m IH] using lt_wf_ind.
  intros start st fuel Hm Hlt Htimers Hok Hbody Hhead Hun Hstore Hfuel.
  pose proof limit_pos as Hpos.
  destruct (_insertData_ok start (set_timers [] st) Hok Hbody Hhead Hlt)
    as (st1 & Hrun & Hsame & Hb & Ht & Hcells & Hrows & Hbody1 & Hhead1 & Hrefs
        & Hout & Hfresh).
  destruct Hfresh as [Hlen1 Hstore1]; [exact Hun|exact Hstore|].
  change (entries (set_timers [] st)) with (entries st) in *.
  change (batches (set_timers [] st)) with (batches st) in *.
  change (timers (set_timers [] st)) with (@nil nat) in *.
  change (body_rows (set_timers [] st)) with (body_rows st) in *.
  change (header_rows (set_timers [] st)) with (header_rows st) in *.
  change (header_cells (set_timers [] st)) with (header_cells st) in *.
  change (data_refs (set_timers [] st)) with (data_refs st) in *.
  assert (same_setup st st1) as Hsame' by exact Hsame.
  rewrite Hm in *.
  assert (length (entries st1) = length (entries st)) as Hlen.
  { apply (f_equal length) in Hrefs. unfold data_refs in Hrefs.
    by rewrite !length_map in Hrefs. }
  destruct (decide (m <= INSERT_BATCH_LIMIT)) as [Hsmall|Hbig].
  - rewrite Nat.min_r in * by lia.
    rewrite batch_sizes_small in * by lia.
    destruct (Nat.ltb_spec (start + m) (length (entries st))); [lia|].
    simpl in Ht.
    assert (forall f, run_timers generate f st1 = st1) as Hdone.
    { intros [|f]; simpl; [reflexivity|]. by rewrite Ht. }
    destruct fuel as [|fuel]; [simpl in Hfuel; lia|].
    simpl. rewrite Htimers. unfold run_timer. rewrite Htimers, Hrun. simpl.
    rewrite Hdone.
    split; [assumption|]. split; [assumption|]. split; [assumption|].
    split; [simpl; lia|]. split; [exact Hsame'|]. split; assumption.
  - rewrite Nat.min_l in * by lia.
    rewrite batch_sizes_big in * by lia.
    destruct (Nat.ltb_spec (start + INSERT_BATCH_LIMIT) (length (entries st))); [|lia].
    simpl in Ht, Hfuel.
    destruct fuel as [|fuel]; [lia|].
    simpl. rewrite Htimers. unfold run_timer. rewrite Htimers, Hrun. simpl.
    assert (headers_ok (heap st1) (_headers st1) = true) as Hok1.
    { destruct Hsame' as (-> & _ & _ & _ & _ & ->). exact Hok. }
    destruct (IH (m - INSERT_BATCH_LIMIT) ltac:(lia) (start + INSERT_BATCH_LIMIT) st1 fuel)
      as (R1 & R2 & R3 & R4 & R5 & R6 & R7); try assumption; try lia.
    { apply (unbuilt_from_later start _ st st1); [lia|exact Hun|exact Hout]. }
    split; [exact R1|].
    split; [rewrite R2, Hb; by rewrite <- app_assoc|].
    split; [rewrite R3, Hlen1; lia|].
    split; [rewrite R4, Hrows; simpl; lia|].
    split; [apply (same_setup_trans _ _ _ Hsame' R5)|].
    split; [by rewrite R6|by rewrite R7].
Qed.

End RenderFacts.
Section FrameFacts.
Import Table Spec.
Variable generate : string -> Val -> gmap string Val -> Val -> Val.
Variable object_to_number : N -> JsNum.
Variable pinned_ancestor : bool.

Lemma untouched_refl st : untouched st st.
Proof. by repeat split. Qed.

Lemma untouched_trans st1 st2 st3 :
  untouched st1 st2 -> untouched st2 st3 -> untouched st1 st3.
Proof.
  unfold untouched. intros (?&?&?&?&?&?) (?&?&?&?&?&?).
  repeat split; try congruence. auto.
Qed.

Lemma keeps_bind {A B} (m : M A) (k : A -> M B) :
  keeps m -> (forall a, keeps (k a)) -> keeps (m ≫= k).
Proof.
  intros Hm Hk st. unfold mbind, M_bind.
  pose proof (Hm st) as H1.
  destruct (m st) as [[a|e] st1]; simpl in *; [|exact H1].
  eapply untouched_trans; [exact H1|apply Hk].
Qed.

Lemma keeps_ret {A} (a : A) : keeps (mret a).
Proof. intros st. apply untouched_refl. Qed.

Lemma keeps_modify f : (forall st, untouched st (f st)) -> keeps (modify f).
Proof. intros Hf st. apply Hf. Qed.

Lemma keeps_read {A} (f : St -> A) : keeps (read f).
Proof. intros st. apply untouched_refl. Qed.

Lemma keeps_insert_row idx : keeps (insert_row generate idx).
Proof.
  intros st. unfold insert_row.
  destruct (entries st !! idx) as [e|] eqn:He; [|apply untouched_refl].
  destruct (row e) as [n|] eqn:Hrow.
  - unfold append_body; simpl. destruct (_bodyTable st); by repeat split.
  - destruct (build_cells generate (heap st) (data e) _); [|apply untouched_refl].
    unfold append_body; simpl. destruct (_bodyTable st); simpl.
    all: do 4 (split; [reflexivity|]).
    all: split; [|eauto].
    all: unfold data_refs, entries at 1; simpl.
    all: rewrite list_fmap_insert; apply list_insert_id.
    all: by rewrite list_lookup_fmap, He.
Qed.

Lemma keeps_insert_loop n : forall start i, keeps (insert_loop generate n start i).
Proof.
  induction n as [|n IH]; intros start i st; simpl; [apply untouched_refl|].
  destruct ((i <? INSERT_BATCH_LIMIT) && (start + i <? length (entries st)));
    [|apply untouched_refl].
  pose proof (keeps_insert_row (start + i) st) as H1.
  destruct (insert_row generate (start + i) st) as [[[]|e] st1]; simpl in *;
    [|exact H1].
  eapply untouched_trans; [exact H1|apply IH].
Qed.

Lemma keeps_append_header_clone start : keeps (append_header_clone start).
Proof.
  intros st. unfold append_header_clone.
  destruct (_headerTable st); [|apply untouched_refl].
  destruct (entries st !! start ≫= row); by repeat split.
Qed.

Lemma keeps__insertData start : keeps (_insertData generate start).
Proof.
  intros st. unfold _insertData.
  destruct (_bodyTable st); [|apply untouched_refl].
  destruct (_data st) eqn:Hd; [|apply untouched_refl].
  clear Hd. revert st.
  match goal with
  | |- forall st, untouched st (?m st).2 => assert (keeps m) as Hk
  end.
  { apply keeps_bind; [apply keeps_insert_loop|]. intros i.
    apply keeps_bind; [apply keeps_modify; intros s; by repeat split|]. intros _.
    apply keeps_bind; [apply keeps_append_header_clone|]. intros _.
    apply keeps_bind; [apply keeps_read|]. intros len.
    apply keeps_bind; [|intros; apply keeps_ret].
    destruct (start + i <? len);
      [apply keeps_modify; intros s; by repeat split|apply keeps_ret]. }
  intros st. apply Hk.
Qed.

Lemma keeps__updateTable : keeps (_updateTable generate).
Proof.
  intros st. unfold _updateTable. simpl.
  destruct (collection (heap st) (_element st)); [|by repeat split].
  destruct (build_thead _ _ _) as [[[]|e] ths]; [|by repeat split].
  destruct (truthy (prop (_config st) "scrollable")).
  all: match goal with |- context [(Ok (), ?s)] => set (st4 := s) end.
  all: change (entries st4) with (entries st).
  all: destruct (entries st) as [|x xs] eqn:Hes; [by repeat split|].
  all: assert (keeps (_insertData generate 0 ≫= fun _ => mret tt)) as Hk
    by (apply keeps_bind; [apply keeps__insertData|intros; apply keeps_ret]).
  all: apply (untouched_trans st st4); [by repeat split|apply Hk].
Qed.

Lemma _onWindowResized_state st :
  (_onWindowResized object_to_number pinned_ancestor st).2 = st.
Proof.
  unfold _onWindowResized.
  destruct (negb _); [reflexivity|].
  destruct (_bodyTable st); [|reflexivity].
  by destruct pinned_ancestor.
Qed.


End FrameFacts.
Section LoadFacts.
Import Table Spec.
Variable generate : string -> Val -> gmap string Val -> Val -> Val.
Variable object_to_number : N -> JsNum.
Variable pinned_ancestor : bool.

Lemma own_props_weaken (h h' : gmap N HeapObj) v :
  h ⊆ h' ->
  match v with VObject r => is_Some (h !! r) | _ => True end ->
  own_props h' v = own_props h v.
Proof.
  intros Hsub Hv. destruct v; try reflexivity. simpl.
  destruct Hv as [o Ho]. rewrite Ho.
  by rewrite (lookup_weaken _ _ _ _ Ho Hsub).
Qed.

Lemma load_spec xs : forall h i es h',
  load h i xs = (es, h') ->
  h ⊆ h'
  /\ length es = length xs
  /\ Forall (fun e => row e = None) es
  /\ forall j e,
      es !! j = Some e ->
      h !! data e = None
      /\ exists ps x,
          h' !! data e = Some (HObject ps)
          /\ ps !! rowIDColumn = Some (VNumber (Num (Z.of_nat (i + j + 1))))
          /\ xs !! j = Some x
          /\ (match x with VObject r => is_Some (h !! r) | _ => True end ->
              ps = <[rowIDColumn := VNumber (Num (Z.of_nat (i + j + 1)))]>
                     (extend ∅ (own_props h x))).
Proof.
  induction xs as [|x xs IH]; intros h i es h' Hload; simpl in Hload.
  - injection Hload as <- <-.
    split; [done|]. split; [done|]. split; [constructor|].
    intros j e Hj. by rewrite lookup_nil in Hj.
  - unfold alloc in Hload.
    set (datum := <[rowIDColumn := VNumber (Num (Z.of_nat (i + 1)))]>
                    (extend ∅ (own_props h x))) in *.
    set (l := next_free h) in *.
    destruct (load (<[l := HObject datum]> h) (S i) xs) as [es1 h2] eqn:Hrec.
    injection Hload as <- <-.
    destruct (IH _ _ _ _ Hrec) as (Hsub & Hlen & Hrows & Hentries).
    assert (h !! l = None) as Hfresh by apply next_free_fresh.
    assert (h ⊆ <[l := HObject datum]> h) as Hsub0 by by apply insert_subseteq.
    split; [by etransitivity|].
    split; [simpl; by rewrite Hlen|].
    split; [by constructor|].
    intros [|j] e Hj; simpl in Hj.
    + injection Hj as <-. simpl. split; [exact Hfresh|].
      exists datum, x. rewrite Nat.add_0_r.
      split; [eapply lookup_weaken; [apply lookup_insert_eq|exact Hsub]|].
      split; [subst datum; apply lookup_insert_eq|].
      split; [reflexivity|]. intros _. reflexivity.
    + destruct (Hentries j e Hj) as (Hnone & ps & y & Hps & Hid & Hy & Hcopy).
      split.
      { destruct (h !! data e) as [o|] eqn:Ho; [|reflexivity].
        rewrite (lookup_weaken _ _ _ _ Ho Hsub0) in Hnone. discriminate. }
      exists ps, y.
      replace (i + S j + 1) with (S i + j + 1) by lia.
      split; [exact Hps|]. split; [exact Hid|]. split; [exact Hy|].
      intros Hin. rewrite Hcopy.
      * by rewrite (own_props_weaken h _ y Hsub0 Hin).
      * destruct y; auto. destruct Hin as [o Ho].
        exists o. by apply (lookup_weaken _ _ _ _ Ho Hsub0).
Qed.

(** The state [setData] reaches, whatever its outcome: that of
    [_updateTable] on the freshly loaded entries. *)
Lemma setData_state data st :
  exists es h2,
    load (<[next_free (heap st) := HArray (concat_items (heap st) data)]> (heap st)) 0
         (concat_items (heap st) data) = (es, h2)
    /\ (setData generate object_to_number pinned_ancestor data st).2
       = (_updateTable generate (set__data (Some es) (set_heap h2 st))).2.
Proof.
  destruct (load (<[next_free (heap st) := HArray (concat_items (heap st) data)]> (heap st))
                 0 (concat_items (heap st) data)) as [es h2] eqn:Hload.
  exists es, h2. split; [reflexivity|].
  unfold setData, concat_empty, mbind, M_bind, _setData, alloc. simpl.
  rewrite lookup_insert_eq, Hload. simpl.
  destruct (_updateTable generate _) as [[[]|e] st1]; simpl; [|reflexivity].
  apply _onWindowResized_state.
Qed.

(** What [setData] leaves behind. *)
Lemma setData_loaded data st :
  let st' := (setData generate object_to_number pinned_ancestor data st).2 in
  heap st ⊆ heap st'
  /\ length (entries st') = length (concat_items (heap st) data)
  /\ forall i e,
      entries st' !! i = Some e ->
      heap st !! Table.data e = None
      /\ exists ps x,
          heap st' !! Table.data e = Some (HObject ps)
          /\ ps !! rowIDColumn = Some (VNumber (Num (Z.of_nat (i + 1))))
          /\ concat_items (heap st) data !! i = Some x
          /\ (match x with VObject r => is_Some (heap st !! r) | _ => True end ->
              ps = <[rowIDColumn := VNumber (Num (Z.of_nat (i + 1)))]>
                     (extend ∅ (own_props (heap st) x))).
Proof.
  intros st'. subst st'.
  destruct (setData_state data st) as (es & h2 & Hload & ->).
  destruct (keeps__updateTable generate (set__data (Some es) (set_heap h2 st)))
    as (Hheap & _ & _ & _ & Hrefs & _).
  simpl in Hheap. rewrite Hheap.
  unfold data_refs in Hrefs. change (entries (set__data _ _)) with es in Hrefs.
  set (h1 := <[next_free (heap st) := HArray (concat_items (heap st) data)]> (heap st)) in *.
  assert (heap st ⊆ h1) as Hsub0 by apply insert_subseteq, next_free_fresh.
  destruct (load_spec _ _ _ _ _ Hload) as (Hsub & Hlen & _ & Hentries).
  split; [by etransitivity|].
  split.
  { rewrite <- Hlen. apply (f_equal length) in Hrefs. by rewrite !length_map in Hrefs. }
  intros i e He.
  assert (exists e0, es !! i = Some e0 /\ Table.data e0 = Table.data e) as (e0 & He0 & Hd).
  { apply (f_equal (fun l => l !! i)) in Hrefs.
    rewrite !list_lookup_fmap, He in Hrefs. simpl in Hrefs.
    destruct (es !! i) as [e0|]; [|discriminate].
    injection Hrefs as Hrefs. eauto. }
  destruct (Hentries i e0 He0) as (Hnone & ps & x & Hps & Hid & Hx & Hcopy).
  rewrite Hd in *. simpl in Hid, Hcopy.
  split.
  { destruct (heap st !! Table.data e) as [o|] eqn:Ho; [|reflexivity].
    rewrite (lookup_weaken _ _ _ _ Ho Hsub0) in Hnone. discriminate. }
  exists ps, x. split; [exact Hps|]. split; [exact Hid|]. split; [exact Hx|].
  intros Hin. rewrite Hcopy.
  - by rewrite (own_props_weaken (heap st) h1 x Hsub0 Hin).
  - destruct x; auto. destruct Hin as [o Ho].
    exists o. by apply (lookup_weaken _ _ _ _ Ho Hsub0).
Qed.

End LoadFacts.

(** C6.  After [setData] on an array, there is one entry per element of
    the array and the record of the entry at position [i] (counted from 0)
    carries the row id [i + 1], whatever entries and ids the table held
    before. *)
Theorem setData_numbers_rows generate object_to_number pinned_ancestor l xs st :
  Table.heap st !! l = Some (Table.HArray xs) ->
  length (Table.entries
            (Table.setData generate object_to_number pinned_ancestor (VObject l) st).2)
  = length xs
  /\ forall i e,
      Table.entries
        (Table.setData generate object_to_number pinned_ancestor (VObject l) st).2 !! i
      = Some e ->
      Spec.row_id (Table.setData generate object_to_number pinned_ancestor (VObject l) st).2
                  (Table.data e)
      = VNumber (Num (Z.of_nat (i + 1))).
Proof.
  intros Hl.
  pose proof (setData_loaded generate object_to_number pinned_ancestor (VObject l) st)
    as H.
  cbv zeta in H. destruct H as (_ & Hlen & Hentries).
  assert (Table.concat_items (Table.heap st) (VObject l) = xs) as Hc
    by (unfold Table.concat_items; by rewrite Hl).
  rewrite Hc in Hlen.
  split; [exact Hlen|].
  intros i e He.
  destruct (Hentries i e He) as (_ & ps & x & Hps & Hid & _).
  unfold Spec.row_id, Table.record, Table.own_props, Table.prop.
  by rewrite Hps, Hid.
Qed.

(** C10.  [setData] changes no object that existed before the call (so
    the caller's records keep their fields and gain no row id); the record
    of every entry is a new object; and where the supplied element is a
    record of the caller, the new object holds its defined fields with the
    row id written over them. *)
Theorem setData_copies_records generate object_to_number pinned_ancestor data st :
  Table.heap st
  ⊆ Table.heap (Table.setData generate object_to_number pinned_ancestor data st).2
  /\ Forall (fun e => Table.heap st !! Table.data e = None)
            (Table.entries
               (Table.setData generate object_to_number pinned_ancestor data st).2)
  /\ forall i e r ps,
      Table.entries
        (Table.setData generate object_to_number pinned_ancestor data st).2 !! i
      = Some e ->
      Table.concat_items (Table.heap st) data !! i = Some (VObject r) ->
      Table.heap st !! r = Some (Table.HObject ps) ->
      Table.heap (Table.setData generate object_to_number pinned_ancestor data st).2 !! r
      = Some (Table.HObject ps)
      /\ Table.record
           (Table.heap (Table.setData generate object_to_number pinned_ancestor data st).2)
           (Table.data e)
         = <[Table.rowIDColumn := VNumber (Num (Z.of_nat (i + 1)))]>
             (Table.extend ∅ ps).
Proof.
  pose proof (setData_loaded generate object_to_number pinned_ancestor data st) as H.
  cbv zeta in H. destruct H as (Hsub & Hlen & Hentries).
  split; [exact Hsub|].
  split.
  { apply Forall_forall. intros e [i He]%list_elem_of_lookup.
    by destruct (Hentries i e He) as [Hnone _]. }
  intros i e r ps He Hx Hr.
  split; [by apply (lookup_weaken _ _ _ _ Hr Hsub)|].
  destruct (Hentries i e He) as (_ & ps' & x & Hps & _ & Hx' & Hcopy).
  rewrite Hx in Hx'. injection Hx' as <-.
  unfold Table.record, Table.own_props at 1. rewrite Hps, Hcopy by eauto.
  simpl. by rewrite Hr.
Qed.
Section CompleteRender.
Import Table Spec.
Variable generate : string -> Val -> gmap string Val -> Val -> Val.
Variable object_to_number : N -> JsNum.
Variable pinned_ancestor : bool.

Lemma length_batch_sizes n :
  length (batch_sizes n)
  = n / INSERT_BATCH_LIMIT + (if n mod INSERT_BATCH_LIMIT =? 0 then 0 else 1).
Proof.
  unfold batch_sizes. rewrite length_app, length_replicate.
  by destruct (n mod INSERT_BATCH_LIMIT =? 0).
Qed.

Lemma batch_count_ceiling n :
  length (batch_sizes n) = (n + (INSERT_BATCH_LIMIT - 1)) / INSERT_BATCH_LIMIT.
Proof.
  rewrite length_batch_sizes.
  pose proof limit_pos as Hpos.
  pose proof (Nat.div_mod_eq n INSERT_BATCH_LIMIT) as Hn.
  pose proof (Nat.mod_upper_bound n INSERT_BATCH_LIMIT ltac:(lia)) as Hr.
  set (q := n / INSERT_BATCH_LIMIT) in *. set (r := n mod INSERT_BATCH_LIMIT) in *.
  destruct (Nat.eqb_spec r 0) as [Hz|Hnz].
  - apply (Nat.div_unique _ _ _ (INSERT_BATCH_LIMIT - 1)); lia.
  - apply (Nat.div_unique _ _ _ (r - 1)); lia.
Qed.

Lemma batch_sizes_bounded n : Forall (fun b => b <= INSERT_BATCH_LIMIT) (batch_sizes n).
Proof.
  unfold batch_sizes. apply Forall_app. split.
  - apply Forall_replicate. lia.
  - destruct (n mod INSERT_BATCH_LIMIT =? 0); [constructor|].
    apply Forall_singleton.
    pose proof limit_pos.
    pose proof (Nat.mod_upper_bound n INSERT_BATCH_LIMIT ltac:(lia)). lia.
Qed.

Local Opaque INSERT_BATCH_LIMIT.

Lemma batch_sizes_sum n : sum_list (batch_sizes n) = n.
Proof.
  unfold batch_sizes. rewrite sum_list_with_app, sum_list_replicate.
  pose proof (Nat.div_mod_eq n INSERT_BATCH_LIMIT) as Hn.
  destruct (Nat.eqb_spec (n mod INSERT_BATCH_LIMIT) 0); simpl; unfold id; lia.
Qed.

Lemma header_ok_mono (h h' : gmap N HeapObj) v :
  h ⊆ h' -> header_ok h v = true -> header_ok h' v = true.
Proof.
  intros Hsub Hv. destruct (header_ok_inv _ _ Hv) as (l & ps & g & -> & Hl & Hg).
  unfold header_ok. by rewrite (lookup_weaken _ _ _ _ Hl Hsub), Hg.
Qed.

Lemma headers_ok_mono (h h' : gmap N HeapObj) v :
  h ⊆ h' -> headers_ok h v = true -> headers_ok h' v = true.
Proof.
  intros Hsub. unfold headers_ok. destruct v; try done.
  destruct (h !! l) as [o|] eqn:Hl; [|discriminate].
  rewrite (lookup_weaken _ _ _ _ Hl Hsub).
  destruct o; try done.
  rewrite !forallb_forall. intros Hall x Hx.
  eapply header_ok_mono; eauto.
Qed.

Lemma collection_mono (h h' : gmap N HeapObj) v cs :
  h ⊆ h' -> collection h v = Some cs -> collection h' v = Some cs.
Proof.
  intros Hsub. unfold collection. destruct v; try done.
  destruct (h !! l) as [o|] eqn:Hl; [|discriminate].
  by rewrite (lookup_weaken _ _ _ _ Hl Hsub).
Qed.

(** A full render after [setData]: the synchronous part and the deferred
    batches. *)
Lemma render_complete l xs cs st fuel :
  heap st !! l = Some (HArray xs) ->
  collection (heap st) (_element st) = Some cs ->
  headers_ok (heap st) (_headers st) = true ->
  timers st = [] ->
  length xs / INSERT_BATCH_LIMIT <= fuel ->
  let st1 := (setData generate object_to_number pinned_ancestor (VObject l) st).2 in
  let st2 := run_timers generate fuel st1 in
  batches st1 = batches st ++ take 1 (batch_sizes (length xs))
  /\ timers st1 = (if INSERT_BATCH_LIMIT <? length xs then [INSERT_BATCH_LIMIT] else [])
  /\ timers st2 = []
  /\ batches st2 = batches st ++ batch_sizes (length xs)
  /\ length (body_rows st2) = length xs
  /\ length (header_rows st2) = length (batch_sizes (length xs)).
Proof.
  intros Hl Hcs Hok Htimers Hfuel st1 st2. subst st2 st1.
  pose proof limit_pos as Hpos.
  destruct (setData_state generate object_to_number pinned_ancestor (VObject l) st)
    as (es & h2 & Hload & ->).
  assert (concat_items (heap st) (VObject l) = xs) as Hc
    by (unfold concat_items; by rewrite Hl).
  rewrite Hc in Hload.
  set (h1 := <[next_free (heap st) := HArray xs]> (heap st)) in *.
  assert (heap st ⊆ h1) as Hsub0 by apply insert_subseteq, next_free_fresh.
  destruct (load_spec _ _ _ _ _ Hload) as (Hsub & Hlen & Hrows & _).
  assert (heap st ⊆ h2) as Hsub2 by by etransitivity.
  set (s2 := set__data (Some es) (set_heap h2 st)) in *.
  destruct (_updateTable_ok generate s2 cs)
    as (st1 & Hrun & Hheap & Helem & _ & _ & Hheaders & _ & Hb & Ht & _ & Hhrows
        & Hbody & Hhead & Hrefs & Hout & Hfresh).
  { by apply (headers_ok_mono (heap st)). }
  { by apply (collection_mono (heap st)). }
  change (entries s2) with es in *. change (batches s2) with (batches st) in *.
  change (timers s2) with (timers st) in *. rewrite Hlen, Htimers in *.
  set (len := length xs) in *.
  assert (unbuilt_from 0 s2) as Hun.
  { intros j e _ He. change (entries s2) with es in He.
    rewrite Forall_forall in Hrows. apply Hrows.
    apply list_elem_of_lookup. eauto. }
  destruct (Hfresh Hun) as [Hblen Hstore].
  rewrite Hrun. simpl in Ht. simpl.
  destruct (Nat.ltb_spec INSERT_BATCH_LIMIT len) as [Hbig|Hsmall].
  - rewrite batch_sizes_big in * by lia. simpl take.
    destruct (Nat.eqb_spec len 0); [lia|].
    rewrite Nat.min_l in * by lia.
    assert (length (entries st1) = len) as Hlen1.
    { apply (f_equal length) in Hrefs. unfold data_refs in Hrefs.
      rewrite !length_map in Hrefs. change (entries s2) with es in Hrefs. lia. }
    destruct (drain generate (len - INSERT_BATCH_LIMIT) INSERT_BATCH_LIMIT st1 fuel)
      as (R1 & R2 & R3 & R4 & _); try assumption; try lia.
    { rewrite Hheap, Hheaders. by apply (headers_ok_mono (heap st)). }
    { apply (unbuilt_from_later 0 _ s2 st1); [lia|exact Hun|exact Hout]. }
    { rewrite length_batch_sizes.
      assert (len / INSERT_BATCH_LIMIT
              = S ((len - INSERT_BATCH_LIMIT) / INSERT_BATCH_LIMIT)) as Hdiv.
      { replace len with ((len - INSERT_BATCH_LIMIT) + 1 * INSERT_BATCH_LIMIT) at 1 by lia.
        rewrite Nat.div_add by lia. lia. }
      destruct (_ =? 0); lia. }
    split; [exact Hb|]. split; [exact Ht|]. split; [exact R1|].
    split; [rewrite R2, Hb; by rewrite <- app_assoc|].
    split; [rewrite R3, Hblen; lia|].
    rewrite R4, Hhrows. simpl. lia.
  - assert (forall f, run_timers generate f st1 = st1) as Hdone.
    { intros [|f]; simpl; [reflexivity|]. by rewrite Ht. }
    rewrite Hdone.
    rewrite Nat.min_r in * by lia.
    destruct (Nat.eqb_spec len 0) as [Hz|Hnz].
    + rewrite Hz in *. rewrite batch_sizes_zero. simpl.
      repeat split; assumption.
    + rewrite batch_sizes_small by lia. simpl.
      repeat split; assumption.
Qed.

End CompleteRender.

(** C5.  A render of [N] rows after [setData], on a table that is bound to
    a container and whose column definitions have generators: the batch
    passes handle [batch_sizes N] rows, that is [N / 500] passes of 500 rows
    and one pass for the rest, [ceil (N / 500)] in all, none above 500 and
    [N] rows together; the first pass runs inside [setData] and leaves the
    next one as a deferred task when more than 500 rows are loaded; once
    the deferred tasks have run, none is left and the body holds [N] rows.
    For 1200 rows the passes are 500, 500 and 200. *)
Theorem render_in_batches generate object_to_number pinned_ancestor l xs cs st fuel :
  Table.heap st !! l = Some (Table.HArray xs) ->
  Table.collection (Table.heap st) (Table._element st) = Some cs ->
  Spec.headers_ok (Table.heap st) (Table._headers st) = true ->
  Table.timers st = [] ->
  length xs / Table.INSERT_BATCH_LIMIT <= fuel ->
  (Table.batches (Table.setData generate object_to_number pinned_ancestor (VObject l) st).2
   = Table.batches st ++ take 1 (Spec.batch_sizes (length xs))
   /\ Table.timers (Table.setData generate object_to_number pinned_ancestor (VObject l) st).2
      = (if Table.INSERT_BATCH_LIMIT <? length xs then [Table.INSERT_BATCH_LIMIT] else []))
  /\ (Table.timers
        (Table.run_timers generate fuel
           (Table.setData generate object_to_number pinned_ancestor (VObject l) st).2) = []
      /\ Table.batches
           (Table.run_timers generate fuel
              (Table.setData generate object_to_number pinned_ancestor (VObject l) st).2)
         = Table.batches st ++ Spec.batch_sizes (length xs)
      /\ length (Spec.body_rows
                   (Table.run_timers generate fuel
                      (Table.setData generate object_to_number pinned_ancestor
                                     (VObject l) st).2))
         = length xs)
  /\ (length (Spec.batch_sizes (length xs))
      = (length xs + (Table.INSERT_BATCH_LIMIT - 1)) / Table.INSERT_BATCH_LIMIT
      /\ Forall (fun b => b <= Table.INSERT_BATCH_LIMIT) (Spec.batch_sizes (length xs))
      /\ sum_list (Spec.batch_sizes (length xs)) = length xs)
  /\ Table.INSERT_BATCH_LIMIT = 500
  /\ Spec.batch_sizes 1200 = [500; 500; 200].
Proof.
  intros Hl Hcs Hok Htimers Hfuel.
  pose proof (render_complete generate object_to_number pinned_ancestor
                l xs cs st fuel Hl Hcs Hok Htimers Hfuel) as H.
  cbv zeta in H. destruct H as (H1 & H2 & H3 & H4 & H5 & _).
  split; [by split|]. split; [by repeat split|].
  split.
  { split; [apply batch_count_ceiling|].
    split; [apply batch_sizes_bounded|apply batch_sizes_sum]. }
  split; reflexivity.
Qed.

(** C4.  The header table gets one cloned row in every batch pass, not one
    per render: after the full render of 501 rows its body holds 2 clones,
    and after that of 1200 rows 3. *)
Theorem header_clone_per_batch :
  length (Spec.header_rows
            (Table.run_timers Page.generate 1
               (Table.setData Page.generate Page.object_to_number Page.pinned_ancestor
                              (VObject 3%N) (Page.fresh_table 501)).2)) = 2
  /\ length (Spec.header_rows
               (Table.run_timers Page.generate 2
                  (Table.setData Page.generate Page.object_to_number Page.pinned_ancestor
                                 (VObject 3%N) (Page.fresh_table 1200)).2)) = 3.
Proof.
  split.
  - pose proof (render_complete Page.generate Page.object_to_number Page.pinned_ancestor
                  3%N (Page.data_array 501) [7%N] (Page.fresh_table 501) 1) as H.
    cbv zeta in H.
    destruct H as (_ & _ & _ & _ & _ & ->); [by vm_compute ..|]. by vm_compute.
  - pose proof (render_complete Page.generate Page.object_to_number Page.pinned_ancestor
                  3%N (Page.data_array 1200) [7%N] (Page.fresh_table 1200) 2) as H.
    cbv zeta in H.
    destruct H as (_ & _ & _ & _ & _ & ->); [by vm_compute ..|]. by vm_compute.
Qed.
Section SortFacts.
Import Table Spec.
Context {A : Type} (compare : A -> A -> JsNum).

Lemma sort_insert_perm x l : sort_insert compare x l ≡ₚ x :: l.
Proof.
  induction l as [|y l IH]; simpl; [reflexivity|].
  destruct (is_positive (compare x y)); [|reflexivity].
  rewrite IH. apply Permutation_swap.
Qed.

Lemma Array_sort_perm l : Array_sort compare l ≡ₚ l.
Proof.
  induction l as [|x l IH]; simpl; [reflexivity|].
  by rewrite sort_insert_perm, IH.
Qed.

Lemma total_on_spec l a b :
  total_on compare l = true -> a ∈ l -> b ∈ l ->
  precedes compare a b \/ precedes compare b a.
Proof.
  unfold total_on, precedes. rewrite forallb_forall. intros H Ha Hb.
  apply list_elem_of_In in Ha, Hb.
  specialize (H a Ha). rewrite forallb_forall in H. specialize (H b Hb).
  destruct (is_positive (compare a b)), (is_positive (compare b a)); auto.
Qed.

Lemma transitive_on_spec l a b d :
  transitive_on compare l = true -> a ∈ l -> b ∈ l -> d ∈ l ->
  precedes compare a b -> precedes compare b d -> precedes compare a d.
Proof.
  unfold transitive_on, precedes. rewrite forallb_forall. intros H Ha Hb Hd.
  apply list_elem_of_In in Ha, Hb, Hd.
  specialize (H a Ha). rewrite forallb_forall in H. specialize (H b Hb).
  rewrite forallb_forall in H. specialize (H d Hd).
  intros Hab Hbd. rewrite Hab, Hbd in H. simpl in H.
  by destruct (is_positive (compare a d)).
Qed.

Lemma sort_insert_sorted all x l :
  total_on compare all = true -> transitive_on compare all = true ->
  x ∈ all -> (forall y, y ∈ l -> y ∈ all) ->
  StronglySorted (precedes compare) l ->
  StronglySorted (precedes compare) (sort_insert compare x l).
Proof.
  intros Htot Htrans Hx Hl Hsorted.
  induction Hsorted as [|y l Hs IH Hy]; simpl.
  - repeat constructor.
  - assert (y ∈ all) as Hyall by (apply Hl; left).
    assert (forall z, z ∈ l -> z ∈ all) as Hlall by (intros z Hz; apply Hl; by right).
    destruct (is_positive (compare x y)) eqn:Hxy.
    + constructor; [by apply IH|].
      rewrite Forall_forall. intros z Hz.
      rewrite sort_insert_perm in Hz. apply elem_of_cons in Hz as [->|Hz].
      * destruct (total_on_spec all x y Htot Hx Hyall) as [H|H]; [|exact H].
        unfold precedes in H. congruence.
      * rewrite Forall_forall in Hy. by apply Hy.
    + constructor; [by constructor|].
      constructor; [exact Hxy|].
      rewrite Forall_forall in *. intros z Hz.
      apply (transitive_on_spec all x y z); auto.
Qed.

Lemma Array_sort_sorted l :
  consistent_on compare l = true ->
  StronglySorted (precedes compare) (Array_sort compare l).
Proof.
  unfold consistent_on. intros [Htot Htrans]%andb_prop.
  assert (forall k, (forall y, y ∈ k -> y ∈ l) ->
                    StronglySorted (precedes compare) (Array_sort compare k)) as H.
  { induction k as [|x k IH]; intros Hk; simpl; [constructor|].
    apply (sort_insert_sorted l); auto.
    - apply Hk. by left.
    - intros y Hy. rewrite Array_sort_perm in Hy. apply Hk. by right.
    - apply IH. intros y Hy. apply Hk. by right. }
  by apply H.
Qed.







End SortFacts.

Section ReverseFacts.
Import Table Spec.
Variable compare : N -> N -> JsNum.




End ReverseFacts.
Section SortOnColumnFacts.
Import Table Spec.
Variable generate : string -> Val -> gmap string Val -> Val -> Val.
Variable object_to_number : N -> JsNum.
Variable pinned_ancestor : bool.
Variable sort_by_expression : string -> Comparator -> M unit.

Lemma hasClass_addClass_same c cs : hasClass c (addClass c cs) = true.
Proof.
  unfold addClass. destruct (hasClass c cs) eqn:H; [exact H|].
  unfold hasClass. apply bool_decide_eq_true. apply elem_of_app. right. by left.
Qed.











End SortOnColumnFacts.

Section RowEventFacts.
Import Table Spec.

Lemma removeClass_gone c cs : hasClass c (removeClass c cs) = false.
Proof.
  unfold hasClass, removeClass. apply bool_decide_eq_false.
  rewrite list_elem_of_filter. tauto.
Qed.

Lemma removeClass_absent c cs :
  hasClass c cs = false -> removeClass c cs = cs.
Proof.
  unfold hasClass, removeClass. rewrite bool_decide_eq_false. intros Hc.
  induction cs as [|x cs IH]; [reflexivity|].
  rewrite not_elem_of_cons in Hc. destruct Hc as [Hne Hc].
  rewrite filter_cons_True by congruence. by rewrite IH.
Qed.

Lemma cleared_lookup (l : list N) (m : gmap N Tr) n :
  marked (foldr (alter (tr_with_classes (removeClass "selected"))) m l !! n)
  = if decide (n ∈ l) then false else marked (m !! n).
Proof.
  induction l as [|x l IH]; cbn [foldr].
  - by rewrite decide_False by apply not_elem_of_nil.
  - destruct (decide (x = n)) as [->|Hne].
    + rewrite lookup_alter_eq, decide_True by left.
      destruct (foldr _ m l !! n) as [tr|]; simpl; [|reflexivity].
      apply removeClass_gone.
    + rewrite lookup_alter_ne by exact Hne. rewrite IH.
      destruct (decide (n ∈ l)) as [Hin|Hnin].
      * rewrite decide_True; [reflexivity|by right].
      * rewrite decide_False; [reflexivity|].
        rewrite not_elem_of_cons. split; [congruence|exact Hnin].
Qed.

Lemma cleared_is_Some (l : list N) (m : gmap N Tr) n :
  is_Some (m !! n) ->
  is_Some (foldr (alter (tr_with_classes (removeClass "selected"))) m l !! n).
Proof.
  intros Hn. induction l as [|x l IH]; simpl; [exact Hn|].
  by apply lookup_alter_is_Some.
Qed.

Lemma cleared_data (l : list N) (m : gmap N Tr) n :
  foldr (alter (tr_with_classes (removeClass "selected"))) m l !! n ≫= tr_data
  = m !! n ≫= tr_data.
Proof.
  induction l as [|x l IH]; simpl; [reflexivity|].
  destruct (decide (x = n)) as [->|Hne].
  - rewrite lookup_alter_eq, <- IH. by destruct (foldr _ m l !! n).
  - by rewrite lookup_alter_ne.
Qed.

(** The selection after [select_row] in a table that sits in its
    container. *)
Lemma select_row_ok r st :
  attached st = true ->
  is_Some (nodes st !! r) ->
  exists st',
    select_row r st = (Ok tt, st')
    /\ rows_in_element st' = rows_in_element st
    /\ _callbacks st' = _callbacks st
    /\ nodes st' !! r ≫= tr_data = nodes st !! r ≫= tr_data
    /\ (forall n, n ∈ rows_in_element st' ->
                  (is_selected st' n = true <-> n = r))
    /\ _data st' = _data st
    /\ forall n, n ∉ rows_in_element st -> n <> r ->
                 is_selected st' n = is_selected st n.
Proof.
  intros Hatt Hr. unfold select_row.
  assert (exists cs, collection (heap st) (_element st) = Some cs) as [cs Hcs].
  { unfold attached in Hatt.
    destruct (collection (heap st) (mount st) ≫= last); [|discriminate].
    destruct (collection (heap st) (_element st)); [eauto|discriminate]. }
  rewrite Hcs.
  set (cleared := foldr (alter (tr_with_classes (removeClass "selected"))) (nodes st)
                        (filter (fun n => is_selected st n) (rows_in_element st))).
  eexists. split; [reflexivity|].
  split; [reflexivity|]. split; [reflexivity|].
  cbn [nodes set_nodes].
  split.
  { rewrite lookup_alter_eq. unfold cleared.
    rewrite <- (cleared_data (filter (fun n => is_selected st n) (rows_in_element st))
                             (nodes st) r).
    by destruct (foldr _ _ _ !! r). }
  split; [|split; [reflexivity|]].
  2:{ intros n Hn Hne. unfold is_selected. cbn [nodes set_nodes].
      rewrite lookup_alter_ne by congruence.
      change (marked (cleared !! n) = marked (nodes st !! n)).
      unfold cleared. rewrite cleared_lookup.
      rewrite decide_False; [reflexivity|].
      intros [_ Hin]%list_elem_of_filter. by apply Hn. }
  intros n Hn.
  change (rows_in_element (set_nodes _ st)) with (rows_in_element st) in Hn.
  unfold is_selected. cbn [nodes set_nodes].
  destruct (decide (n = r)) as [->|Hne].
  - rewrite lookup_alter_eq.
    destruct (cleared_is_Some (filter (fun n => is_selected st n) (rows_in_element st))
                              (nodes st) r Hr) as [tr Htr].
    fold cleared in Htr. rewrite Htr.
    simpl. split; [reflexivity|]. intros _. apply hasClass_addClass_same.
  - rewrite lookup_alter_ne by congruence.
    split; [|congruence]. intros Hsel. exfalso.
    change (marked (cleared !! n) = true) in Hsel.
    unfold cleared in Hsel. rewrite cleared_lookup in Hsel.
    destruct (decide (n ∈ filter (fun n => is_selected st n) (rows_in_element st)))
      as [Hin|Hnin]; [discriminate|].
    apply Hnin. apply list_elem_of_filter. split; [|exact Hn].
    unfold is_selected. apply Is_true_true. exact Hsel.
Qed.

End RowEventFacts.

(** C8 (as amended).  A click that starts on a body row or on one of its
    cells, the row carrying its record, in a table that sits in its
    container: the handler ends in the state where, of the rows inside the
    container, exactly the clicked one carries the selected marker, also
    when it or another row carried it before; a row element outside the
    container, such as a cached row held back for a deferred batch, is not
    reached and keeps the marker it has; so in a complete table exactly
    one of the rows of the entries carries the marker, the clicked one.
    In that state the handler calls the registered click handler, if there
    is one, with the record of the row and the row element (and the
    table), and makes no call if none is registered.  A click that starts
    on an element inside a cell is ignored in every state: nothing changes
    and no call is made. *)
Theorem click_selects_row target st d :
  Table.is_td target || Table.is_tr target = true ->
  Table.attached st = true ->
  Table.closest_tr target ∈ Spec.body_rows st ->
  Table.nodes st !! Table.closest_tr target ≫= Table.tr_data = Some d ->
  (forall n,
      n ∈ Table.rows_in_element (Table._onRowEvent "click" target st).2 ->
      (Table.is_selected (Table._onRowEvent "click" target st).2 n = true
       <-> n = Table.closest_tr target))
  /\ Table.closest_tr target
     ∈ Table.rows_in_element (Table._onRowEvent "click" target st).2
  /\ (forall n,
        n ∉ Table.rows_in_element st -> n <> Table.closest_tr target ->
        Table.is_selected (Table._onRowEvent "click" target st).2 n
        = Table.is_selected st n)
  /\ (View.complete st ->
      Table.entries (Table._onRowEvent "click" target st).2 = Table.entries st
      /\ forall e n,
          e ∈ Table.entries st -> Table.row e = Some n ->
          (Table.is_selected (Table._onRowEvent "click" target st).2 n = true
           <-> n = Table.closest_tr target))
  /\ (forall f,
        Table.prop (Table._callbacks st) "click" = VFunction f ->
        (Table._onRowEvent "click" target st).1
        = Ok (Some {| Table.callee := f; Table.arg_record := d;
                      Table.arg_row := Table.closest_tr target |}))
  /\ (truthy (Table.prop (Table._callbacks st) "click") = false ->
      (Table._onRowEvent "click" target st).1 = Ok None)
  /\ (forall r st0,
        Table._onRowEvent "click" (Table.InsideCell r) st0 = (Ok None, st0)).
Proof.
  intros Htarget Hatt Hrow Hd.
  assert (is_Some (Table.nodes st !! Table.closest_tr target)) as Hnode.
  { destruct (Table.nodes st !! Table.closest_tr target); [eauto|discriminate]. }
  destruct (select_row_ok _ st Hatt Hnode)
    as (st' & Hrun & Hrows & Hcb & Hdata & Hsel & Hentries & Hout).
  assert (Table._onRowEvent "click" target st
          = Table.call_handler "click" (Table.closest_tr target) st') as Heq.
  { unfold Table._onRowEvent.
    assert (negb (Table.is_td target) && negb (Table.is_tr target) = false) as ->
      by (destruct target; simpl in *; congruence).
    simpl. unfold mbind, Table.M_bind. by rewrite Hrun. }
  assert ((Table.call_handler "click" (Table.closest_tr target) st').2 = st') as Hst.
  { unfold Table.call_handler. destruct (truthy _); [|reflexivity].
    destruct (Table.nodes st' !! _ ≫= Table.tr_data); [|reflexivity].
    by destruct (Table.prop _ _). }
  rewrite Heq, Hst.
  split; [exact Hsel|].
  split.
  { rewrite Hrows. unfold Table.rows_in_element. rewrite Hatt.
    apply elem_of_app. right. exact Hrow. }
  split; [exact Hout|].
  split.
  { intros (_ & Hbody & _).
    split; [unfold Table.entries; by rewrite Hentries|].
    intros e n He Hn.
    assert (n ∈ Spec.body_rows st) as Hb
      by (rewrite Hbody; apply list_elem_of_omap; eauto).
    apply Hsel. rewrite Hrows.
    unfold Table.rows_in_element. rewrite Hatt. apply elem_of_app. by right. }
  unfold Table.call_handler. rewrite Hcb, Hdata, Hd.
  split; [|split].
  - intros f ->. reflexivity.
  - intros ->. reflexivity.
  - intros r st0. reflexivity.
Qed.
Section ConsumedFacts.
Import Table Spec.

Lemma prop_delete_ne k k' (ps : gmap string Val) :
  k <> k' -> prop (delete k ps) k' = prop ps k'.
Proof. intros Hne. unfold prop. by rewrite lookup_delete_ne. Qed.





End ConsumedFacts.

Section SetOptsFacts.
Import Table Spec.
Variable generate : string -> Val -> gmap string Val -> Val -> Val.
Variable extend_deep :
  gmap N HeapObj -> gmap string Val -> gmap string Val -> gmap string Val.
Variable object_to_number : N -> JsNum.
Variable pinned_ancestor : bool.






(** The loop makes plain objects only, so no collection appears or
    changes. *)
Lemma with_defaults_new xs : forall h ys h' r,
  with_defaults h xs = (ys, h') ->
  h' !! r = h !! r \/ (h !! r = None /\ exists ps, h' !! r = Some (HObject ps)).
Proof.
  induction xs as [|x xs IH]; intros h ys h' r Hwd; simpl in Hwd.
  - injection Hwd as <- <-. by left.
  - unfold alloc in Hwd.
    set (o := extend (extend ∅ DEFAULT_COLUMN_CONFIG) (own_props h x)) in *.
    set (l := next_free h) in *.
    destruct (with_defaults (<[l := HObject o]> h) xs) as [ys1 h2] eqn:Hrec.
    injection Hwd as <- <-.
    assert (h !! l = None) as Hfresh by apply next_free_fresh.
    destruct (decide (r = l)) as [->|Hne].
    + right. split; [exact Hfresh|].
      destruct (IH _ _ _ l Hrec) as [E|[E _]].
      * rewrite E, lookup_insert_eq. eauto.
      * rewrite lookup_insert_eq in E. discriminate.
    + destruct (IH _ _ _ r Hrec) as [E|[E1 E2]].
      * left. by rewrite E, lookup_insert_ne.
      * right. rewrite lookup_insert_ne in E1 by done. by split.
Qed.

(** [_setHeaders] touches the heap and the field [_headers] only. *)
Lemma _setHeaders_frame v st :
  nodes (_setHeaders v st) = nodes st /\ timers (_setHeaders v st) = timers st
  /\ _data (_setHeaders v st) = _data st /\ _element (_setHeaders v st) = _element st
  /\ _config (_setHeaders v st) = _config st
  /\ _callbacks (_setHeaders v st) = _callbacks st
  /\ _bodyTable (_setHeaders v st) = _bodyTable st
  /\ _headerTable (_setHeaders v st) = _headerTable st
  /\ _headers (_setHeaders v st) = v.
Proof.
  unfold _setHeaders. destruct v; simpl; auto 10.
  destruct (heap st !! l) as [[| xs |]|]; simpl; auto 10.
  destruct (with_defaults (heap st) xs). simpl. auto 10.
Qed.






End SetOptsFacts.


Lemma setData_numbers_rows_witness :
  length (Table.entries
            (Table.setData Page.generate Page.object_to_number Page.pinned_ancestor
                           (VObject 3%N) (Page.fresh_table 3)).2)
  = length (Page.data_array 3)
  /\ forall i e,
      Table.entries
        (Table.setData Page.generate Page.object_to_number Page.pinned_ancestor
                       (VObject 3%N) (Page.fresh_table 3)).2 !! i
      = Some e ->
      Spec.row_id (Table.setData Page.generate Page.object_to_number Page.pinned_ancestor
                                 (VObject 3%N) (Page.fresh_table 3)).2
                  (Table.data e)
      = VNumber (Num (Z.of_nat (i + 1))).
Proof.
  apply (setData_numbers_rows Page.generate Page.object_to_number Page.pinned_ancestor
           3%N (Page.data_array 3) (Page.fresh_table 3)).
  vm_compute. reflexivity.
Defined.

Lemma render_in_batches_witness :
  Table.batches
    (Table.run_timers Page.generate 2
       (Table.setData Page.generate Page.object_to_number Page.pinned_ancestor
                      (VObject 3%N) (Page.fresh_table 1200)).2)
  = Table.batches (Page.fresh_table 1200)
    ++ Spec.batch_sizes (length (Page.data_array 1200))
  /\ length (Spec.body_rows
               (Table.run_timers Page.generate 2
                  (Table.setData Page.generate Page.object_to_number
                                 Page.pinned_ancestor (VObject 3%N)
                                 (Page.fresh_table 1200)).2))
     = length (Page.data_array 1200).
Proof.
  destruct (render_in_batches Page.generate Page.object_to_number Page.pinned_ancestor
              3%N (Page.data_array 1200) [7%N] (Page.fresh_table 1200) 2)
    as (_ & (_ & Hb & Hn) & _).
  - vm_compute. reflexivity.
  - vm_compute. reflexivity.
  - vm_compute. reflexivity.
  - vm_compute. reflexivity.
  - vm_compute. lia.
  - split; [exact Hb|exact Hn].
Defined.





Lemma click_selects_row_witness :
  Table.is_selected
    (Table._onRowEvent "click" (Table.OnCell 2%N)
                       (Page.loaded (Page.ranked ["2"; "1"; "1"]))).2 2%N = true
  /\ (Table._onRowEvent "click" (Table.OnCell 2%N)
                        (Page.loaded (Page.ranked ["2"; "1"; "1"]))).1
     = Ok (Some {| Table.callee := "onRowClick"; Table.arg_record := 17%N;
                   Table.arg_row := 2%N |}).
Proof.
  destruct (click_selects_row (Table.OnCell 2%N)
              (Page.loaded (Page.ranked ["2"; "1"; "1"])) 17%N)
    as (Hsel & Hin & _ & _ & Hcall & _).
  - reflexivity.
  - by vm_compute.
  - assert (Spec.body_rows (Page.loaded (Page.ranked ["2"; "1"; "1"]))
            = [1%N; 2%N; 3%N]) as -> by (by vm_compute).
    rewrite !elem_of_cons. tauto.
  - by vm_compute.
  - split; [by apply Hsel|]. apply Hcall. by vm_compute.
Defined.

(** C8 as stated fails on a click that starts on an element inside a cell:
    with the second row selected, such a click in the third row changes
    nothing and calls no handler, though one is registered. *)
Lemma click_inside_cell_is_ignored :
  3%N ∈ Spec.body_rows (Page.clicked (Page.ranked ["2"; "1"; "1"]))
  /\ Table.prop (Table._callbacks (Page.clicked (Page.ranked ["2"; "1"; "1"]))) "click"
     = VFunction "onRowClick"
  /\ Table._onRowEvent "click" (Table.InsideCell 3%N)
                       (Page.clicked (Page.ranked ["2"; "1"; "1"]))
     = (Ok None, Page.clicked (Page.ranked ["2"; "1"; "1"]))
  /\ Table.is_selected (Page.clicked (Page.ranked ["2"; "1"; "1"])) 3%N = false
  /\ Table.is_selected (Page.clicked (Page.ranked ["2"; "1"; "1"])) 2%N = true.
Proof.
  split.
  { assert (Spec.body_rows (Page.clicked (Page.ranked ["2"; "1"; "1"]))
            = [1%N; 2%N; 3%N]) as -> by (by vm_compute).
    rewrite !elem_of_cons. tauto. }
  repeat split; by vm_compute.
Qed.

Lemma setData_copies_records_witness :
  Table.heap (Page.fresh_table 3)
  ⊆ Table.heap (Table.setData Page.generate Page.object_to_number Page.pinned_ancestor
                              (VObject 3%N) (Page.fresh_table 3)).2
  /\ Forall (fun e => Table.heap (Page.fresh_table 3) !! Table.data e = None)
            (Table.entries
               (Table.setData Page.generate Page.object_to_number Page.pinned_ancestor
                              (VObject 3%N) (Page.fresh_table 3)).2).
Proof.
  destruct (setData_copies_records Page.generate Page.object_to_number
              Page.pinned_ancestor (VObject 3%N) (Page.fresh_table 3))
    as (Hsub & Hnew & _).
  by split.
Defined.

(* ===================================================================== *)
(** * The rows a render shows *)
(* ===================================================================== *)

Section RowFacts.
Import Table Spec View.
Variable generate : string -> Val -> gmap string Val -> Val -> Val.

Lemma rows_app es1 es2 : rows (es1 ++ es2) = rows es1 ++ rows es2.
Proof. apply omap_app. Qed.

Lemma rows_take_drop k es : rows es = rows (take k es) ++ rows (drop k es).
Proof. by rewrite <- rows_app, take_drop. Qed.

Lemma rows_elem e m es : e ∈ es -> row e = Some m -> m ∈ rows es.
Proof. intros He Hm. apply list_elem_of_omap. eauto. Qed.

(** A row element that a later entry holds is none of those placed so
    far. *)
Lemma placed_other st0 st k e m ns :
  rows_sound st0 ->
  entries st0 !! k = Some e -> row e = Some m ->
  Forall2 (placed generate st0 st) (take k (entries st0)) ns ->
  (m ∉ ns) /\ (m ∉ rows (take k (entries st0))) /\ is_Some (nodes st0 !! m).
Proof.
  intros [Hnd Hin] He Hm Hall.
  rewrite (rows_take_drop k) in Hnd. apply NoDup_app in Hnd as (_ & Hdisj & _).
  assert (m ∈ rows (drop k (entries st0))) as Hdrop.
  { eapply rows_elem; [|exact Hm]. apply list_elem_of_lookup. exists 0.
    by rewrite lookup_drop, Nat.add_0_r. }
  assert (m ∉ rows (take k (entries st0))) as Hnot.
  { intros Hx. by apply (Hdisj m). }
  assert (is_Some (nodes st0 !! m)) as Hstore.
  { rewrite Forall_forall in Hin. apply Hin.
    eapply rows_elem; [|exact Hm]. apply list_elem_of_lookup. eauto. }
  split; [|by split].
  intros Hx. apply list_elem_of_lookup in Hx as [j Hj].
  destruct (Forall2_lookup_r _ _ _ _ _ Hall Hj) as (ej & Hej & Hp).
  unfold placed in Hp. destruct (row ej) as [mj|] eqn:Hrow.
  - destruct Hp as [-> _]. apply Hnot. eapply rows_elem; [|exact Hrow].
    apply list_elem_of_lookup. eauto.
  - destruct Hp as [Hnone _]. rewrite Hnone in Hstore. by destruct Hstore.
Qed.

(** The row elements placed so far are in the store. *)
Lemma placed_in_store st0 st k ns :
  rows_sound st0 ->
  Forall2 (placed generate st0 st) (take k (entries st0)) ns ->
  Forall (fun n => is_Some (nodes st !! n)) ns.
Proof.
  intros [_ Hin] Hall. apply Forall_forall. intros n [j Hj]%list_elem_of_lookup.
  destruct (Forall2_lookup_r _ _ _ _ _ Hall Hj) as (ej & Hej & Hp).
  unfold placed in Hp. destruct (row ej) as [mj|] eqn:Hrow.
  - destruct Hp as [-> ->]. apply fmap_is_Some.
    rewrite Forall_forall in Hin. apply Hin.
    eapply rows_elem; [|exact Hrow].
    apply list_elem_of_lookup. exists j. by apply lookup_take_Some in Hej as [? ?].
  - destruct Hp as (_ & cells & _ & ->). eauto.
Qed.

(** A change of the store away from the rows placed keeps them placed. *)
Lemma placed_frame st0 st st' es ns :
  (forall n, n ∈ ns -> nodes st' !! n = nodes st !! n) ->
  Forall2 (placed generate st0 st) es ns ->
  Forall2 (placed generate st0 st') es ns.
Proof.
  intros Hsame Hall. induction Hall as [|e n es ns Hp Hall IH]; constructor.
  - unfold placed in *. rewrite Hsame by apply list_elem_of_here. exact Hp.
  - apply IH. intros m Hm. apply Hsame. by apply list_elem_of_further.
Qed.

Lemma rendered_length st0 k st :
  k <= length (entries st0) ->
  rendered generate st0 k st ->
  length (entries st) = length (entries st0) /\ length (body_rows st) = k.
Proof.
  intros Hk (_ & _ & _ & _ & ns & Hbody & Hes & Hall & _).
  assert (length ns = k) as Hlen.
  { apply Forall2_length in Hall. rewrite length_take in Hall. lia. }
  rewrite Hes, Hbody. split; [|exact Hlen].
  rewrite length_app, length_zip_with, length_take, length_drop. lia.
Qed.

Lemma rendered_entry st0 k st e :
  entries st0 !! k = Some e ->
  rendered generate st0 k st ->
  entries st !! k = Some e.
Proof.
  intros He (_ & _ & _ & _ & ns & Hbody & Hes & Hall & _).
  assert (k < length (entries st0)) as Hk by (by eapply lookup_lt_Some).
  assert (length ns = k) as Hlen.
  { apply Forall2_length in Hall. rewrite length_take in Hall. lia. }
  assert (length (zip_with built (take k (entries st0)) ns) = k) as Hzip.
  { rewrite length_zip_with, length_take. lia. }
  rewrite Hes, lookup_app_r by lia. rewrite lookup_drop, Hzip.
  by replace (k + (k - k)) with k by lia.
Qed.

(** What the render has made of an entry it has handled. *)
Lemma rendered_built st0 k st j e :
  rendered generate st0 k st ->
  j < k -> entries st0 !! j = Some e ->
  exists n, body_rows st !! j = Some n
            /\ entries st !! j = Some (built e n)
            /\ placed generate st0 st e n.
Proof.
  intros (_ & _ & _ & _ & ns & Hbody & Hes & Hall & _) Hj He.
  assert (take k (entries st0) !! j = Some e) as Hej
    by (rewrite lookup_take_lt by lia; done).
  destruct (Forall2_lookup_l _ _ _ _ _ Hall Hej) as (n & Hn & Hp).
  exists n. rewrite Hbody, Hes. split; [exact Hn|]. split; [|exact Hp].
  apply lookup_app_l_Some. rewrite lookup_zip_with, Hej. simpl. by rewrite Hn.
Qed.

(** The render does not depend on the fields it does not name. *)
Lemma rendered_ext st0 k st st' :
  heap st' = heap st -> _headers st' = _headers st -> nodes st' = nodes st ->
  _data st' = _data st -> _bodyTable st' = _bodyTable st ->
  rendered generate st0 k st -> rendered generate st0 k st'.
Proof.
  intros H1 H2 H3 H4 H5 (Hheap & Hheaders & Hmono & Hframe & ns & Hbody & Hes & Hall & Hnd).
  unfold rendered, body_rows, entries in *. rewrite H1, H2, H3, H4, H5.
  repeat (split; [assumption|]).
  exists ns. repeat (split; [assumption|]).
  split; [|exact Hnd].
  eapply placed_frame; [|exact Hall]. intros n _. by rewrite H3.
Qed.

(** A new element of the store leaves the render as it is. *)
Lemma rendered_new_node st0 k st st' c tr :
  rows_sound st0 ->
  nodes st !! c = None ->
  heap st' = heap st -> _headers st' = _headers st ->
  nodes st' = <[c := tr]> (nodes st) ->
  _data st' = _data st -> _bodyTable st' = _bodyTable st ->
  rendered generate st0 k st -> rendered generate st0 k st'.
Proof.
  intros Hsound Hc H1 H2 H3 H4 H5
         (Hheap & Hheaders & Hmono & Hframe & ns & Hbody & Hes & Hall & Hnd).
  pose proof (placed_in_store _ _ _ _ Hsound Hall) as Hstore.
  unfold rendered, body_rows, entries in *. rewrite H1, H2, H3, H4, H5.
  split; [assumption|]. split; [assumption|].
  assert (forall m, is_Some (nodes st !! m) -> <[c := tr]> (nodes st) !! m = nodes st !! m)
    as Hne.
  { intros m Hm. rewrite lookup_insert_ne; [done|]. intros <-. rewrite Hc in Hm.
    by destruct Hm. }
  split.
  { intros m Hm. rewrite Hne; auto. }
  split.
  { intros m Hm Hs. rewrite Hne; auto. }
  exists ns. repeat (split; [assumption|]).
  split; [|exact Hnd].
  eapply placed_frame; [|exact Hall]. intros n Hn. rewrite H3. apply Hne.
  rewrite Forall_forall in Hstore. auto.
Qed.

(** One turn of the loop of [_insertData] extends the render by an
    entry. *)
Lemma insert_row_rendered st0 k st e :
  rows_sound st0 ->
  headers_ok (heap st0) (_headers st0) = true ->
  entries st0 !! k = Some e ->
  rendered generate st0 k st ->
  is_Some (_bodyTable st) ->
  exists st',
    insert_row generate k st = (Ok tt, st')
    /\ rendered generate st0 (S k) st'
    /\ timers st' = timers st /\ batches st' = batches st
    /\ _headerTable st' = _headerTable st /\ is_Some (_bodyTable st').
Proof.
  intros Hsound Hok He Hr [bt Hbt].
  pose proof (rendered_entry _ _ _ _ He Hr) as Hek.
  destruct Hr as (Hheap & Hheaders & Hmono & Hframe & ns & Hbody & Hes & Hall & Hnd).
  assert (k < length (entries st0)) as Hk by (by eapply lookup_lt_Some).
  assert (length ns = k) as Hlen.
  { apply Forall2_length in Hall. rewrite length_take in Hall. lia. }
  pose proof (placed_in_store _ _ _ _ Hsound Hall) as Hstore.
  assert (take (S k) (entries st0) = take k (entries st0) ++ [e]) as Htake
    by (by apply take_S_r).
  assert (drop k (entries st0) = e :: drop (S k) (entries st0)) as Hdrop
    by (by apply drop_S).
  assert (forall n,
            <[k := built e n]> (entries st)
            = zip_with built (take (S k) (entries st0)) (ns ++ [n])
              ++ drop (S k) (entries st0)) as Hinsert.
  { intros n. rewrite Hes, Htake, Hdrop.
    rewrite zip_with_app by (rewrite length_take; lia).
    rewrite insert_app_r_alt by (rewrite length_zip_with, length_take; lia).
    rewrite length_zip_with, length_take.
    replace (k - (k `min` length (entries st0)) `min` length ns) with 0 by lia.
    simpl. by rewrite <- app_assoc. }
  unfold insert_row. rewrite Hek.
  destruct (row e) as [m|] eqn:Hrow.
  - (* the entry has its row element already *)
    destruct (placed_other _ _ _ _ _ _ Hsound He Hrow Hall) as (Hm & Hmrows & Hmstore).
    eexists. split; [reflexivity|].
    unfold append_body. simpl. rewrite Hbt. unfold rendered. simpl.
    split; [|by eauto].
    split; [exact Hheap|]. split; [exact Hheaders|].
    split.
    { intros x Hx. destruct (decide (x = m)) as [->|Hne].
      - rewrite lookup_alter_eq. apply fmap_is_Some. auto.
      - rewrite lookup_alter_ne by congruence. auto. }
    split.
    { intros x Hx Hxs. rewrite Htake, rows_app in Hx. simpl in Hx.
      rewrite Hrow in Hx.
      apply not_elem_of_app in Hx as [Hx1 Hx2].
      rewrite lookup_alter_ne by (intros ->; apply Hx2, list_elem_of_here).
      auto. }
    exists (ns ++ [m]). simpl.
    split.
    { unfold body_rows. simpl. unfold body_rows in Hbody. rewrite Hbt in Hbody.
      rewrite Hbody. by apply appendTo_new. }
    split.
    { change (entries (set__bodyTable _ (set_nodes _ st))) with (entries st).
      rewrite <- Hinsert.
      assert (built e m = e) as -> by (destruct e; unfold built; simpl in *; congruence).
      symmetry. by apply list_insert_id. }
    split.
    { rewrite Htake. apply Forall2_app.
      - eapply placed_frame; [|exact Hall].
        intros n Hn. simpl. rewrite lookup_alter_ne; [done|]. by intros ->.
      - constructor; [|constructor].
        unfold placed. rewrite Hrow. split; [done|]. simpl.
        rewrite lookup_alter_eq. f_equal. auto. }
    apply NoDup_app. split; [exact Hnd|]. split; [|apply NoDup_singleton].
    intros x Hx ->%list_elem_of_singleton. contradiction.
  - (* a new row element is built *)
    destruct (build_cells_ok generate (heap st0) (data e) _ (headers_ok_items _ _ Hok))
      as [cells Hcells].
    rewrite Hheap, Hheaders, Hcells.
    set (n := next_free (nodes st)).
    assert (nodes st !! n = None) as Hfresh by apply next_free_fresh.
    assert (n ∉ ns) as Hn.
    { intros Hx. rewrite Forall_forall in Hstore. apply Hstore in Hx.
      rewrite Hfresh in Hx. by destruct Hx. }
    assert (nodes st0 !! n = None) as Hfresh0.
    { destruct (nodes st0 !! n) eqn:Hx; [|done].
      assert (is_Some (nodes st !! n)) as Hy by (apply Hmono; eauto).
      rewrite Hfresh in Hy. by destruct Hy. }
    eexists. split; [reflexivity|].
    unfold append_body. simpl. rewrite Hbt. unfold rendered. simpl.
    split; [|by eauto].
    split; [exact Hheap|]. split; [exact Hheaders|].
    split.
    { intros x Hx. destruct (decide (x = n)) as [->|Hne].
      - rewrite lookup_insert_eq. eauto.
      - rewrite lookup_insert_ne by congruence. auto. }
    split.
    { intros x Hx Hxs. rewrite Htake, rows_app in Hx. simpl in Hx.
      apply not_elem_of_app in Hx as [Hx1 _].
      rewrite lookup_insert_ne; [auto|]. intros <-. rewrite Hfresh0 in Hxs.
      by destruct Hxs. }
    exists (ns ++ [n]).
    split.
    { unfold body_rows. simpl. unfold body_rows in Hbody. rewrite Hbt in Hbody.
      rewrite Hbody. by apply appendTo_new. }
    split.
    { unfold entries at 1. simpl. rewrite <- Hinsert. reflexivity. }
    split.
    { rewrite Htake. apply Forall2_app.
      - eapply placed_frame; [|exact Hall].
        intros x Hx. simpl. rewrite lookup_insert_ne; [done|]. by intros <-.
      - constructor; [|constructor].
        unfold placed. rewrite Hrow. split; [exact Hfresh0|].
        exists cells. split; [exact Hcells|]. simpl. apply lookup_insert_eq. }
    apply NoDup_app. split; [exact Hnd|]. split; [|apply NoDup_singleton].
    intros x Hx ->%list_elem_of_singleton. contradiction.
Qed.

Local Opaque INSERT_BATCH_LIMIT.

(** The loop of [_insertData]. *)
Lemma insert_loop_rendered st0 start n : forall i st,
  rows_sound st0 ->
  headers_ok (heap st0) (_headers st0) = true ->
  start + i <= length (entries st0) ->
  rendered generate st0 (start + i) st ->
  is_Some (_bodyTable st) ->
  n + i = INSERT_BATCH_LIMIT ->
  exists st',
    insert_loop generate n start i st
    = (Ok (i + min n (length (entries st0) - (start + i))), st')
    /\ rendered generate st0
         (start + i + min n (length (entries st0) - (start + i))) st'
    /\ timers st' = timers st /\ batches st' = batches st
    /\ _headerTable st' = _headerTable st /\ is_Some (_bodyTable st').
Proof.
  induction n as [|n IH]; intros i st Hsound Hok Hle Hr Hbody Hfuel.
  - exists st. simpl. rewrite !Nat.add_0_r.
    split; [reflexivity|]. split; [exact Hr|]. auto.
  - simpl insert_loop.
    destruct (rendered_length st0 _ st Hle Hr) as [Hlen _].
    assert ((i <? INSERT_BATCH_LIMIT) = true) as -> by (apply Nat.ltb_lt; lia).
    rewrite Hlen. cbn [andb].
    destruct (start + i <? length (entries st0)) eqn:Hlt.
    + apply Nat.ltb_lt in Hlt.
      destruct (lookup_lt_is_Some_2 (entries st0) (start + i) Hlt) as [e He].
      destruct (insert_row_rendered _ _ _ _ Hsound Hok He Hr Hbody)
        as (st1 & -> & Hr1 & Ht1 & Hb1 & Hh1 & Hbody1).
      replace (S (start + i)) with (start + S i) in Hr1 by lia.
      destruct (IH (S i) st1 Hsound Hok ltac:(lia) Hr1 Hbody1 ltac:(lia))
        as (st2 & -> & Hr2 & Ht2 & Hb2 & Hh2 & Hbody2).
      exists st2.
      replace (i + (S n `min` (length (entries st0) - (start + i))))
        with (S i + (n `min` (length (entries st0) - (start + S i)))) by lia.
      replace (start + i + (S n `min` (length (entries st0) - (start + i))))
        with (start + S i + (n `min` (length (entries st0) - (start + S i)))) by lia.
      split; [reflexivity|]. split; [exact Hr2|].
      repeat split; try congruence; auto.
    + apply Nat.ltb_ge in Hlt. exists st.
      replace (S n `min` (length (entries st0) - (start + i))) with 0 by lia.
      rewrite !Nat.add_0_r.
      split; [reflexivity|]. split; [exact Hr|]. auto.
Qed.

(** One pass of [_insertData]: the render moves on by a batch, a clone of
    the first row of the batch goes to the header table, and the rest is
    left to a timer. *)
Lemma _insertData_rendered st0 start st :
  rows_sound st0 ->
  headers_ok (heap st0) (_headers st0) = true ->
  start < length (entries st0) ->
  rendered generate st0 start st ->
  is_Some (_bodyTable st) -> is_Some (_headerTable st) ->
  exists st',
    _insertData generate start st
    = (Ok (min INSERT_BATCH_LIMIT (length (entries st0) - start)), st')
    /\ rendered generate st0
         (start + min INSERT_BATCH_LIMIT (length (entries st0) - start)) st'
    /\ timers st'
       = timers st
         ++ (if start + min INSERT_BATCH_LIMIT (length (entries st0) - start)
                <? length (entries st0)
             then [start + min INSERT_BATCH_LIMIT (length (entries st0) - start)]
             else [])
    /\ header_cells st' = header_cells st
    /\ (exists c n, header_rows st' = header_rows st ++ [c]
                    /\ nodes st0 !! c = None
                    /\ body_rows st' !! start = Some n
                    /\ nodes st' !! c = clone <$> nodes st' !! n
                    /\ c ∉ body_rows st')
    /\ is_Some (_bodyTable st') /\ is_Some (_headerTable st').
Proof.
  intros Hsound Hok Hlt Hr Hbody [ht Hht].
  pose proof limit_pos as Hpos.
  destruct (rendered_length st0 start st ltac:(lia) Hr) as [Hlen _].
  assert (is_Some (_data st)) as [es Hdata].
  { apply entries_nonempty_data. intros Hnil. rewrite Hnil in Hlen. simpl in Hlen. lia. }
  replace start with (start + 0) in Hr by lia.
  destruct (insert_loop_rendered st0 start INSERT_BATCH_LIMIT 0 st Hsound Hok
              ltac:(lia) Hr Hbody ltac:(lia))
    as (st1 & Hloop & Hr1 & Ht1 & Hb1 & Hh1 & Hbody1).
  rewrite !Nat.add_0_r in *. simpl in Hloop.
  set (i := min INSERT_BATCH_LIMIT (length (entries st0) - start)) in *.
  assert (0 < i /\ start + i <= length (entries st0)) as [Hi Hle1] by (subst i; lia).
  destruct (lookup_lt_is_Some_2 (entries st0) start Hlt) as [e He].
  destruct (rendered_built _ _ _ start e Hr1 ltac:(lia) He) as (n & Hn & Hen & Hp).
  destruct (rendered_length st0 _ st1 Hle1 Hr1) as [Hlen1 _].
  set (c := next_free (nodes st1)).
  assert (nodes st1 !! c = None) as Hc by apply next_free_fresh.
  assert (is_Some (nodes st1 !! n)) as Hnstore.
  { destruct Hr1 as (_ & _ & _ & _ & ns & Hb & _ & Hall & _).
    pose proof (placed_in_store _ _ _ _ Hsound Hall) as Hstore.
    rewrite Forall_forall in Hstore. apply Hstore.
    rewrite <- Hb. apply list_elem_of_lookup. eauto. }
  assert (c <> n) as Hcn by (intros Heq; rewrite <- Heq, Hc in Hnstore; by destruct Hnstore).
  assert (c ∉ body_rows st1) as Hcbody.
  { destruct Hr1 as (_ & _ & _ & _ & ns & Hb & _ & Hall & _).
    pose proof (placed_in_store _ _ _ _ Hsound Hall) as Hstore.
    rewrite Forall_forall in Hstore. rewrite Hb. intros Hin.
    apply Hstore in Hin. rewrite Hc in Hin. by destruct Hin. }
  assert (nodes st0 !! c = None) as Hc0.
  { destruct (nodes st0 !! c) eqn:Hx; [|done].
    destruct Hr1 as (_ & _ & Hmono & _).
    assert (is_Some (nodes st1 !! c)) as Hy by (apply Hmono; eauto).
    rewrite Hc in Hy. by destruct Hy. }
  unfold _insertData. destruct Hbody as [bt Hbt]. rewrite Hbt, Hdata.
  unfold mbind, M_bind. rewrite Hloop.
  unfold modify, append_header_clone, read, mret, M_ret.
  change (entries (set_batches _ st1)) with (entries st1).
  rewrite Hen. cbn [mbind option_bind built row _headerTable set_batches].
  rewrite Hh1, Hht. cbn [fst snd].
  match goal with
  | |- context [length (entries ?s)] => change (entries s) with (entries st1)
  end.
  rewrite Hlen1. fold c.
  destruct Hbody1 as [bt1 Hbt1].
  destruct (start + i <? length (entries st0)) eqn:Hmore;
    eexists; (split; [reflexivity|]).
  all: split;
    [eapply (rendered_new_node st0 _ st1 _ c _ Hsound Hc); try reflexivity; exact Hr1|].
  all: split; [simpl; by rewrite ?Ht1, ?app_nil_r|].
  all: split; [unfold header_cells; simpl; by rewrite Hht|].
  all: split; [|split; simpl; eauto].
  all: exists c, n; unfold header_rows, body_rows in *; simpl; rewrite Hht, Hbt1 in *.
  all: split; [reflexivity|]; split; [exact Hc0|]; split; [exact Hn|].
  all: split; [|exact Hcbody].
  all: rewrite lookup_insert_eq, lookup_insert_ne by done.
  all: destruct Hnstore as [tr ->]; reflexivity.
Qed.

(** What [.empty()] leaves of the store. *)
Lemma without_data_idem tr : without_data (without_data tr) = without_data tr.
Proof.
  unfold without_data. simpl. f_equal. rewrite <- list_fmap_compose.
  apply list_fmap_ext. intros i td _. reflexivity.
Qed.

Lemma foldr_alter_lookup (f : Tr -> Tr) (l : list N) (m : gmap N Tr) n :
  (forall tr, f (f tr) = f tr) ->
  foldr (alter f) m l !! n = if decide (n ∈ l) then f <$> m !! n else m !! n.
Proof.
  intros Hf. induction l as [|x l IH]; cbn [foldr].
  - by rewrite decide_False by apply not_elem_of_nil.
  - destruct (decide (x = n)) as [->|Hne].
    + rewrite lookup_alter_eq, decide_True by left. rewrite IH.
      destruct (decide (n ∈ l)); [|reflexivity].
      destruct (m !! n); simpl; [|reflexivity]. by rewrite Hf.
    + rewrite lookup_alter_ne by exact Hne. rewrite IH.
      destruct (decide (n ∈ l)) as [Hin|Hnin].
      * rewrite decide_True; [reflexivity|by right].
      * rewrite decide_False; [reflexivity|].
        rewrite not_elem_of_cons. split; [congruence|exact Hnin].
Qed.

Lemma empty_element_lookup st n :
  nodes (empty_element st) !! n
  = if decide (n ∈ rows_in_element st) then without_data <$> nodes st !! n
    else nodes st !! n.
Proof. apply foldr_alter_lookup, without_data_idem. Qed.

Lemma empty_element_is_Some st n :
  is_Some (nodes (empty_element st) !! n) <-> is_Some (nodes st !! n).
Proof.
  rewrite empty_element_lookup. destruct (decide _); [|reflexivity].
  apply fmap_is_Some.
Qed.

Lemma empty_element_None st n :
  nodes (empty_element st) !! n = None <-> nodes st !! n = None.
Proof.
  rewrite !eq_None_not_Some. by rewrite empty_element_is_Some.
Qed.

Lemma empty_element_sound st : rows_sound st -> rows_sound (empty_element st).
Proof.
  intros [Hnd Hin]. split; [exact Hnd|].
  eapply Forall_impl; [exact Hin|]. intros m Hm. by apply empty_element_is_Some.
Qed.

Lemma foldr_alter_notin (f : Tr -> Tr) (l : list N) (m : gmap N Tr) n :
  n ∉ l -> foldr (alter f) m l !! n = m !! n.
Proof.
  induction l as [|x l IH]; cbn [foldr]; [done|].
  rewrite not_elem_of_cons. intros [Hne Hn].
  rewrite lookup_alter_ne by congruence. by apply IH.
Qed.

Lemma foldr_alter_is_Some (f : Tr -> Tr) (l : list N) (m : gmap N Tr) n :
  is_Some (foldr (alter f) m l !! n) <-> is_Some (m !! n).
Proof.
  induction l as [|x l IH]; cbn [foldr]; [done|].
  destruct (decide (x = n)) as [->|Hne].
  - rewrite lookup_alter_eq, fmap_is_Some. exact IH.
  - by rewrite lookup_alter_ne.
Qed.

(** A change of elements that are neither in the body nor from before
    the render leaves the render as it is. *)
Lemma rendered_marked st0 k st st' cs f :
  rows_sound st0 ->
  Forall (fun c => nodes st0 !! c = None /\ c ∉ body_rows st) cs ->
  heap st' = heap st -> _headers st' = _headers st ->
  nodes st' = foldr (alter f) (nodes st) cs ->
  _data st' = _data st -> _bodyTable st' = _bodyTable st ->
  rendered generate st0 k st -> rendered generate st0 k st'.
Proof.
  intros Hsound Hcs H1 H2 H3 H4 H5
         (Hheap & Hheaders & Hmono & Hframe & ns & Hbody & Hes & Hall & Hnd).
  rewrite Forall_forall in Hcs.
  assert (forall m, is_Some (nodes st0 !! m) ->
                    foldr (alter f) (nodes st) cs !! m = nodes st !! m) as Hold.
  { intros m Hm. apply foldr_alter_notin. intros Hin.
    destruct (Hcs m Hin) as [Hnone _]. rewrite Hnone in Hm. by destruct Hm. }
  unfold rendered, body_rows, entries in *. rewrite H1, H2, H3, H4, H5.
  split; [assumption|]. split; [assumption|].
  split.
  { intros m Hm. apply foldr_alter_is_Some. auto. }
  split.
  { intros m Hm Hs. rewrite Hold; auto. }
  exists ns. repeat (split; [assumption|]).
  split; [|exact Hnd].
  eapply placed_frame; [|exact Hall]. intros n Hn. rewrite H3.
  apply foldr_alter_notin. intros Hin.
  destruct (Hcs n Hin) as [_ Hout]. apply Hout. by rewrite Hbody.
Qed.

(** The render at its start: new tables, nothing handled. *)
Lemma rendered_start st st' :
  heap st' = heap st -> _headers st' = _headers st -> nodes st' = nodes st ->
  _data st' = _data st -> body_rows st' = [] ->
  rendered generate st 0 st'.
Proof.
  intros H1 H2 H3 H4 H5. unfold rendered, entries. rewrite H1, H2, H3, H4, H5.
  repeat (split; [auto|]).
  exists []. rewrite take_0, drop_0. repeat split; constructor.
Qed.

(** [_updateTable] handles the first batch. *)
Lemma _updateTable_rendered st cs :
  rows_sound st ->
  headers_ok (heap st) (_headers st) = true ->
  collection (heap st) (_element st) = Some cs ->
  exists st',
    _updateTable generate st = (Ok tt, st')
    /\ rendered generate (empty_element st)
         (min INSERT_BATCH_LIMIT (length (entries st))) st'
    /\ timers st'
       = timers st
         ++ (if INSERT_BATCH_LIMIT <? length (entries st) then [INSERT_BATCH_LIMIT] else [])
    /\ Forall2 (fun v th => header_cell (heap st) v = Ok th)
               (items (heap st) (_headers st)) (header_cells st')
    /\ length (header_rows st') = (if length (entries st) =? 0 then 0 else 1)
    /\ is_Some (_bodyTable st') /\ is_Some (_headerTable st')
    /\ Forall (fun c => nodes (empty_element st) !! c = None /\ c ∉ body_rows st')
              (header_rows st').
Proof.
  intros Hsound0 Hok Hcs.
  pose proof (empty_element_sound _ Hsound0) as Hsound.
  pose proof limit_pos as Hpos.
  unfold _updateTable. simpl. rewrite Hcs.
  destruct (build_thead_ok (heap st) _ [] (headers_ok_items _ _ Hok))
    as (ths & -> & Hths).
  simpl in Hths |- *.
  match goal with
  | |- context [match entries ?s with _ => _ end] => set (st4 := s)
  end.
  assert (rendered generate (empty_element st) 0 st4) as Hr0.
  { apply rendered_start; try reflexivity.
    all: subst st4; by destruct (truthy _). }
  assert (entries st4 = entries st /\ timers st4 = timers st
          /\ header_cells st4 = ths /\ header_rows st4 = []
          /\ is_Some (_bodyTable st4) /\ is_Some (_headerTable st4))
    as (Hes & Ht & Hcells & Hrows & Hbody & Hhead).
  { subst st4. destruct (truthy _); simpl; repeat split; eauto. }
  rewrite Hes.
  destruct (entries st) as [|e es] eqn:Hentries.
  - exists st4. simpl. rewrite Nat.min_0_r, app_nil_r, Hcells, Hrows.
    split; [reflexivity|]. split; [exact Hr0|]. auto 10.
  - assert (0 < length (entries st)) as Hlen by (rewrite Hentries; simpl; lia).
    destruct (_insertData_rendered (empty_element st) 0 st4 Hsound Hok Hlen Hr0
                Hbody Hhead)
      as (st5 & Hrun & Hr5 & Ht5 & Hc5 & (c & n & Hh5 & Hc0 & _ & _ & Hcb) & Hbody5
          & Hhead5).
    change (entries (empty_element st)) with (entries st) in *.
    rewrite Nat.sub_0_r in *. simpl in Hr5, Ht5.
    unfold mbind, M_bind. rewrite Hrun. exists st5.
    rewrite <- Hentries.
    split; [reflexivity|]. split; [exact Hr5|].
    split.
    { rewrite Ht5, Ht. f_equal.
      destruct (Nat.ltb_spec INSERT_BATCH_LIMIT (length (entries st))).
      - rewrite Nat.min_l by lia.
        destruct (Nat.ltb_spec INSERT_BATCH_LIMIT (length (entries st))); [done|lia].
      - rewrite Nat.min_r by lia.
        destruct (Nat.ltb_spec (length (entries st)) (length (entries st))); [lia|done]. }
    split; [by rewrite Hc5, Hcells|].
    split; [rewrite Hh5, Hrows;
            destruct (Nat.eqb_spec (length (entries st)) 0); [lia|done]|].
    split; [exact Hbody5|]. split; [exact Hhead5|].
    rewrite Hh5, Hrows. simpl. by repeat constructor.
Qed.

(** The timers carry the render to its end. *)
Lemma drain_rendered st0 : forall fuel start st,
  rows_sound st0 ->
  headers_ok (heap st0) (_headers st0) = true ->
  start < length (entries st0) ->
  timers st = [start] ->
  rendered generate st0 start st ->
  is_Some (_bodyTable st) -> is_Some (_headerTable st) ->
  length (entries st0) - start <= fuel * INSERT_BATCH_LIMIT ->
  timers (run_timers generate fuel st) = []
  /\ rendered generate st0 (length (entries st0)) (run_timers generate fuel st)
  /\ header_cells (run_timers generate fuel st) = header_cells st
  /\ is_Some (_bodyTable (run_timers generate fuel st))
  /\ is_Some (_headerTable (run_timers generate fuel st)).
Proof.
  pose proof limit_pos as Hpos.
  induction fuel as [|fuel IH]; intros start st Hsound Hok Hlt Ht Hr Hbody Hhead Hfuel.
  { simpl in Hfuel. lia. }
  simpl. rewrite Ht. unfold run_timer. rewrite Ht.
  assert (rendered generate st0 start (set_timers [] st)) as Hr'
    by (by apply (rendered_ext st0 start st)).
  destruct (_insertData_rendered st0 start (set_timers [] st) Hsound Hok Hlt Hr' Hbody Hhead)
    as (st1 & Hrun & Hr1 & Ht1 & Hc1 & _ & Hbody1 & Hhead1).
  rewrite Hrun. simpl in Ht1 |- *.
  change (header_cells (set_timers [] st)) with (header_cells st) in Hc1.
  destruct (Nat.ltb_spec (start + INSERT_BATCH_LIMIT `min` (length (entries st0) - start))
                         (length (entries st0))) as [Hmore|Hdone].
  - assert (INSERT_BATCH_LIMIT `min` (length (entries st0) - start) = INSERT_BATCH_LIMIT)
      as Hmin by lia.
    rewrite Hmin in *.
    destruct (IH (start + INSERT_BATCH_LIMIT) st1 Hsound Hok Hmore Ht1 Hr1 Hbody1 Hhead1
                 ltac:(lia)) as (R1 & R2 & R3 & R4 & R5).
    rewrite R3. auto.
  - assert (start + INSERT_BATCH_LIMIT `min` (length (entries st0) - start)
            = length (entries st0)) as Hall by lia.
    rewrite Hall in Hr1.
    assert (forall f, run_timers generate f st1 = st1) as ->.
    { intros [|f]; simpl; [reflexivity|]. by rewrite Ht1. }
    auto.
Qed.

(** After the first batch the timers finish the render. *)
Lemma finish_render st0 st1 fuel :
  rows_sound st0 ->
  headers_ok (heap st0) (_headers st0) = true ->
  rendered generate st0 (min INSERT_BATCH_LIMIT (length (entries st0))) st1 ->
  timers st1
  = (if INSERT_BATCH_LIMIT <? length (entries st0) then [INSERT_BATCH_LIMIT] else []) ->
  is_Some (_bodyTable st1) -> is_Some (_headerTable st1) ->
  length (entries st0) / INSERT_BATCH_LIMIT <= fuel ->
  timers (run_timers generate fuel st1) = []
  /\ rendered generate st0 (length (entries st0)) (run_timers generate fuel st1)
  /\ header_cells (run_timers generate fuel st1) = header_cells st1
  /\ is_Some (_bodyTable (run_timers generate fuel st1))
  /\ is_Some (_headerTable (run_timers generate fuel st1)).
Proof.
  intros Hsound Hok Hr1 Ht1 Hbody1 Hhead1 Hfuel.
  pose proof limit_pos as Hpos.
  destruct (Nat.ltb_spec INSERT_BATCH_LIMIT (length (entries st0))) as [Hbig|Hsmall].
  - rewrite Nat.min_l in Hr1 by lia.
    assert (length (entries st0) < S fuel * INSERT_BATCH_LIMIT) as Hbound.
    { pose proof (Nat.div_mod_eq (length (entries st0)) INSERT_BATCH_LIMIT) as Hdm.
      pose proof (Nat.mod_upper_bound (length (entries st0)) INSERT_BATCH_LIMIT
                    ltac:(lia)) as Hmod.
      nia. }
    apply (drain_rendered st0 fuel INSERT_BATCH_LIMIT st1); auto. lia.
  - rewrite Nat.min_r in Hr1 by lia.
    assert (forall f, run_timers generate f st1 = st1) as ->.
    { intros [|f]; simpl; [reflexivity|]. by rewrite Ht1. }
    auto.
Qed.

(** A whole render: [_updateTable] and the timers it leaves. *)
Lemma render_all st cs fuel :
  rows_sound st ->
  headers_ok (heap st) (_headers st) = true ->
  collection (heap st) (_element st) = Some cs ->
  timers st = [] ->
  length (entries st) / INSERT_BATCH_LIMIT <= fuel ->
  exists st1,
    _updateTable generate st = (Ok tt, st1)
    /\ timers (run_timers generate fuel st1) = []
    /\ rendered generate (empty_element st) (length (entries st))
         (run_timers generate fuel st1)
    /\ Forall2 (fun v th => header_cell (heap st) v = Ok th)
               (items (heap st) (_headers st))
               (header_cells (run_timers generate fuel st1))
    /\ is_Some (_bodyTable (run_timers generate fuel st1))
    /\ is_Some (_headerTable (run_timers generate fuel st1)).
Proof.
  intros Hsound Hok Hcs Ht Hfuel.
  destruct (_updateTable_rendered st cs Hsound Hok Hcs)
    as (st1 & Hrun & Hr1 & Ht1 & Hths & _ & Hbody1 & Hhead1 & _).
  exists st1. split; [exact Hrun|].
  rewrite Ht in Ht1. simpl in Ht1.
  destruct (finish_render (empty_element st) st1 fuel (empty_element_sound _ Hsound)
              Hok Hr1 Ht1 Hbody1 Hhead1 Hfuel)
    as (R1 & R2 & R3 & R4 & R5).
  rewrite R3. auto.
Qed.

(** The render at its end, entry by entry. *)
Lemma rendered_all_spec st0 st :
  rendered generate st0 (length (entries st0)) st ->
  heap st = heap st0 /\ _headers st = _headers st0
  /\ entries st = zip_with built (entries st0) (body_rows st)
  /\ Forall2 (placed generate st0 st) (entries st0) (body_rows st)
  /\ NoDup (body_rows st)
  /\ (forall m, m ∉ rows (entries st0) -> is_Some (nodes st0 !! m) ->
                nodes st !! m = nodes st0 !! m).
Proof.
  intros (Hheap & Hheaders & _ & Hframe & ns & -> & Hes & Hall & Hnd).
  rewrite firstn_all, drop_all, app_nil_r in *. auto 10.
Qed.

Lemma rows_built es ns :
  length es = length ns -> rows (zip_with built es ns) = ns.
Proof.
  revert ns. induction es as [|e es IH]; intros [|n ns] Hlen; simpl in *;
    try discriminate; [reflexivity|].
  unfold rows in *. simpl. f_equal. apply IH. lia.
Qed.

Lemma rows_unbuilt es : Forall (fun e => row e = None) es -> rows es = [].
Proof.
  induction 1 as [|e es He _ IH]; [reflexivity|].
  unfold rows in *. simpl. by rewrite He.
Qed.

(** A render that has reached its end leaves a complete table. *)
Lemma rendered_complete st0 st :
  rows_sound st0 ->
  rendered generate st0 (length (entries st0)) st ->
  timers st = [] ->
  complete st.
Proof.
  intros Hsound Hr Ht.
  destruct (rendered_all_spec _ _ Hr) as (_ & _ & Hes & Hall & Hnd & _).
  pose proof (Forall2_length _ _ _ Hall) as Hlen.
  split; [exact Ht|].
  split; [rewrite Hes at 1; by rewrite rows_built|].
  split; [exact Hnd|].
  rewrite Hes. apply Forall_forall. intros x [j Hj]%list_elem_of_lookup.
  apply lookup_zip_with_Some in Hj as (e & n & -> & He & Hn).
  pose proof (Forall2_lookup_lr _ _ _ _ _ _ Hall He Hn) as Hp.
  exists n. unfold placed in Hp. simpl.
  destruct (row e) as [m|] eqn:Hrow.
  - destruct Hp as [-> Hp]. destruct Hsound as [_ Hin].
    rewrite Forall_forall in Hin.
    destruct (Hin m) as [tr Htr].
    { eapply rows_elem; [|exact Hrow]. apply list_elem_of_lookup. eauto. }
    rewrite Htr in Hp. simpl in Hp. eauto.
  - destruct Hp as (_ & cells & _ & Hp). eauto.
Qed.

Lemma complete_sound st : complete st -> rows_sound st.
Proof.
  intros (_ & Hbody & Hnd & Hall). split; [by rewrite <- Hbody|].
  apply Forall_forall. intros m Hm.
  apply list_elem_of_omap in Hm as (e & He & Hrow).
  rewrite Forall_forall in Hall.
  destruct (Hall e He) as (n & tr & Hn & Htr & _). rewrite Hrow in Hn.
  injection Hn as <-. eauto.
Qed.

(** Entries without row elements get new ones. *)
Lemma rendered_fresh st0 st :
  Forall (fun e => row e = None) (entries st0) ->
  rendered generate st0 (length (entries st0)) st ->
  Forall2 (shows generate st) (entries st) (body_rows st)
  /\ Forall (fun n => nodes st0 !! n = None) (body_rows st)
  /\ map data (entries st) = map data (entries st0).
Proof.
  intros Hnone Hr.
  destruct (rendered_all_spec _ _ Hr) as (Hheap & Hheaders & Hes & Hall & _ & _).
  rewrite Forall_forall in Hnone.
  assert (forall j e n, entries st0 !! j = Some e -> body_rows st !! j = Some n ->
            nodes st0 !! n = None /\ shows generate st (built e n) n) as Hone.
  { intros j e n He Hn.
    pose proof (Forall2_lookup_lr _ _ _ _ _ _ Hall He Hn) as Hp.
    unfold placed in Hp. rewrite (Hnone e) in Hp
      by (apply list_elem_of_lookup; eauto).
    destruct Hp as (Hfresh & cells & Hcells & Hnode).
    split; [exact Hfresh|]. split; [reflexivity|].
    exists cells. rewrite Hheap, Hheaders. by split. }
  pose proof (Forall2_length _ _ _ Hall) as Hlen.
  split.
  { rewrite Hes at 1. apply Forall2_same_length_lookup_2.
    - rewrite length_zip_with. lia.
    - intros j x n Hx Hn.
      apply lookup_zip_with_Some in Hx as (e & n' & -> & He & Hn').
      rewrite Hn in Hn'. injection Hn' as <-. by apply (Hone j). }
  split.
  { apply Forall_forall. intros n [j Hn]%list_elem_of_lookup.
    destruct (Forall2_lookup_r _ _ _ _ _ Hall Hn) as (e & He & _).
    by apply (Hone j e). }
  rewrite Hes. clear -Hlen. revert Hlen. generalize (body_rows st).
  induction (entries st0) as [|e es IH]; intros [|n ns] Hlen; simpl in *;
    try discriminate; [reflexivity|].
  f_equal. apply IH. lia.
Qed.

(** Entries that have their row elements keep them: the body holds
    these elements, each with its data slot set again. *)
Lemma rendered_reused st0 st :
  rows_sound st0 ->
  Forall (fun e => is_Some (row e)) (entries st0) ->
  rendered generate st0 (length (entries st0)) st ->
  entries st = entries st0
  /\ body_rows st = rows (entries st0)
  /\ Forall2 (fun e n => row e = Some n
                         /\ nodes st !! n = set_tr_data (data e) <$> nodes st0 !! n)
       (entries st0) (body_rows st)
  /\ (forall m, m ∉ rows (entries st0) -> is_Some (nodes st0 !! m) ->
                nodes st !! m = nodes st0 !! m).
Proof.
  intros Hsound Hbuilt Hr.
  destruct (rendered_all_spec _ _ Hr) as (_ & _ & Hes & Hall & _ & Hframe).
  rewrite Forall_forall in Hbuilt.
  assert (forall j e n, entries st0 !! j = Some e -> body_rows st !! j = Some n ->
            row e = Some n
            /\ nodes st !! n = set_tr_data (data e) <$> nodes st0 !! n) as Hone.
  { intros j e n He Hn.
    pose proof (Forall2_lookup_lr _ _ _ _ _ _ Hall He Hn) as Hp.
    destruct (Hbuilt e) as (m & Hrow); [apply list_elem_of_lookup; eauto|].
    unfold placed in Hp. rewrite Hrow in Hp. destruct Hp as [-> Hp].
    by split. }
  pose proof (Forall2_length _ _ _ Hall) as Hlen.
  assert (entries st = entries st0) as Hsame.
  { rewrite Hes. apply list_eq. intros j.
    destruct (entries st0 !! j) as [e|] eqn:He.
    - destruct (lookup_lt_is_Some_2 (body_rows st) j) as [n Hn];
        [rewrite <- Hlen; by eapply lookup_lt_Some|].
      rewrite lookup_zip_with, He. simpl. rewrite Hn. simpl.
      destruct (Hone j e n He Hn) as [Hrow _].
      destruct e; unfold built; simpl in *; congruence.
    - rewrite lookup_zip_with, He. reflexivity. }
  split; [exact Hsame|].
  assert (body_rows st = rows (entries st0)) as Hrows.
  { rewrite <- Hsame, Hes at 1. by rewrite rows_built. }
  split; [exact Hrows|].
  split; [|exact Hframe].
  apply Forall2_same_length_lookup_2; [exact Hlen|].
  intros j e n He Hn. by apply (Hone j e n).
Qed.

End RowFacts.

Section HeaderFacts.
Import Table Spec View.

Lemma extend_prop (t s : gmap string Val) k :
  prop (extend t s) k
  = if decide (prop s k = VUndefined) then prop t k else prop s k.
Proof.
  unfold extend, prop.
  destruct (s !! k) as [v|] eqn:Hs; simpl.
  - destruct (decide (v = VUndefined)) as [->|Hv].
    + rewrite lookup_union_r; [done|].
      apply map_lookup_filter_None. right. intros x Hx. simpl.
      rewrite Hs in Hx. injection Hx as <-. auto.
    + erewrite lookup_union_Some_l; [done|].
      apply map_lookup_filter_Some. by split.
  - rewrite lookup_union_r; [done|].
    apply map_lookup_filter_None. by left.
Qed.

Lemma prop_empty k : prop (∅ : gmap string Val) k = VUndefined.
Proof. unfold prop. by rewrite lookup_empty. Qed.

(** The defaults under the caller's definition. *)
Lemma defaults_prop (ps : gmap string Val) k :
  prop (extend (extend ∅ DEFAULT_COLUMN_CONFIG) ps) k = with_default ps k.
Proof.
  unfold with_default. rewrite !extend_prop, prop_empty.
  destruct (decide (prop ps k = VUndefined)); [|reflexivity].
  destruct (decide (prop DEFAULT_COLUMN_CONFIG k = VUndefined)) as [->|]; reflexivity.
Qed.

Lemma live_mono (h h' : gmap N HeapObj) v : h ⊆ h' -> live h v = true -> live h' v = true.
Proof.
  intros Hsub. destruct v; simpl; try done.
  rewrite !bool_decide_eq_true. intros [o Ho].
  exists o. by apply (lookup_weaken _ _ _ _ Ho Hsub).
Qed.

Lemma live_own_props (h h' : gmap N HeapObj) v :
  h ⊆ h' -> live h v = true -> own_props h' v = own_props h v.
Proof.
  intros Hsub Hv. apply own_props_weaken; [exact Hsub|].
  destruct v; simpl in *; try done. by apply bool_decide_eq_true in Hv.
Qed.

(** The loop of [_setHeaders]: one new object for each definition. *)
Lemma with_defaults_spec xs : forall h ys h',
  with_defaults h xs = (ys, h') ->
  forallb (live h) xs = true ->
  h ⊆ h'
  /\ Forall2 (fun x y =>
                exists l', y = VObject l' /\ h !! l' = None
                           /\ h' !! l'
                              = Some (HObject (extend (extend ∅ DEFAULT_COLUMN_CONFIG)
                                                      (own_props h x))))
             xs ys.
Proof.
  induction xs as [|x xs IH]; intros h ys h' Hwd Hlive; simpl in Hwd.
  - injection Hwd as <- <-. split; [done|constructor].
  - unfold alloc in Hwd.
    set (o := HObject (extend (extend ∅ DEFAULT_COLUMN_CONFIG) (own_props h x))) in *.
    set (l := next_free h) in *.
    destruct (with_defaults (<[l := o]> h) xs) as [ys1 h2] eqn:Hrec.
    injection Hwd as <- <-.
    simpl in Hlive. apply andb_prop in Hlive as [Hx Hxs].
    assert (h !! l = None) as Hfresh by apply next_free_fresh.
    assert (h ⊆ <[l := o]> h) as Hsub0 by by apply insert_subseteq.
    destruct (IH _ _ _ Hrec) as (Hsub & Hall).
    { rewrite forallb_forall in *. intros y Hy. eapply live_mono; eauto. }
    split; [by etransitivity|].
    constructor.
    + exists l. split; [reflexivity|]. split; [exact Hfresh|].
      eapply lookup_weaken; [apply lookup_insert_eq|exact Hsub].
    + rewrite forallb_forall in Hxs.
      apply Forall2_same_length_lookup.
      split; [by eapply Forall2_length|].
      intros i y z Hy Hz.
      destruct (Forall2_lookup_lr _ _ _ _ _ _ Hall Hy Hz) as (l' & -> & Hnone & Hl').
      apply list_elem_of_lookup_2, list_elem_of_In, Hxs in Hy.
      exists l'. split; [reflexivity|].
      split.
      { destruct (h !! l') as [o'|] eqn:Ho; [|reflexivity].
        rewrite (lookup_weaken _ _ _ _ Ho Hsub0) in Hnone. discriminate. }
      by rewrite (live_own_props h _ y Hsub0 Hy) in Hl'.
Qed.

Lemma _setHeaders_spec l xs st :
  heap st !! l = Some (HArray xs) ->
  forallb (live (heap st)) xs = true ->
  exists ys,
    heap (_setHeaders (VObject l) st) !! l = Some (HArray ys)
    /\ Forall2 (fun x y =>
                  exists l', y = VObject l' /\ heap st !! l' = None
                             /\ heap (_setHeaders (VObject l) st) !! l'
                                = Some (HObject (extend (extend ∅ DEFAULT_COLUMN_CONFIG)
                                                        (own_props (heap st) x))))
               xs ys
    /\ (forall r o, heap st !! r = Some o -> r <> l ->
                    heap (_setHeaders (VObject l) st) !! r = Some o).
Proof.
  intros Hl Hlive. unfold _setHeaders. rewrite Hl.
  destruct (with_defaults (heap st) xs) as [ys h'] eqn:Hwd. simpl.
  destruct (with_defaults_spec _ _ _ _ Hwd Hlive) as (Hsub & Hall).
  exists ys. split; [apply lookup_insert_eq|].
  split.
  - eapply Forall2_impl; [exact Hall|].
    intros x y (l' & -> & Hnone & Hl'). exists l'.
    split; [reflexivity|]. split; [exact Hnone|].
    rewrite lookup_insert_ne; [exact Hl'|]. intros <-. congruence.
  - intros r o Hr Hne. rewrite lookup_insert_ne by congruence.
    by apply (lookup_weaken _ _ _ _ Hr Hsub).
Qed.

Lemma _setHeaders_collection l xs st v :
  heap st !! l = Some (HArray xs) ->
  collection (heap (_setHeaders (VObject l) st)) v = collection (heap st) v.
Proof.
  intros Hl. unfold _setHeaders. rewrite Hl.
  destruct (with_defaults (heap st) xs) as [ys h'] eqn:Hwd. simpl.
  unfold collection. destruct v as [| | | | |r|]; try reflexivity.
  destruct (decide (r = l)) as [->|Hne].
  - by rewrite lookup_insert_eq, Hl.
  - rewrite lookup_insert_ne by done.
    destruct (with_defaults_new _ _ _ _ r Hwd) as [->|[-> [ps ->]]]; reflexivity.
Qed.

Lemma _setHeaders_attached l xs st :
  heap st !! l = Some (HArray xs) ->
  rows_in_element (_setHeaders (VObject l) st) = rows_in_element st.
Proof.
  intros Hl.
  destruct (_setHeaders_frame (VObject l) st)
    as (_ & _ & _ & F4 & _ & _ & F7 & F8 & _).
  unfold rows_in_element, attached. rewrite F7, F8, F4.
  rewrite !(_setHeaders_collection l xs st _ Hl).
  assert (mount (_setHeaders (VObject l) st) = mount st) as ->; [|reflexivity].
  unfold _setHeaders. rewrite Hl. by destruct (with_defaults (heap st) xs).
Qed.

(** Definitions whose generators are functions give headers that can be
    rendered. *)
Lemma _setHeaders_ok l xs st :
  heap st !! l = Some (HArray xs) ->
  forallb (definition_ok (heap st)) xs = true ->
  headers_ok (heap (_setHeaders (VObject l) st)) (VObject l) = true.
Proof.
  intros Hl Hdefs.
  assert (forallb (live (heap st)) xs = true) as Hlive.
  { rewrite forallb_forall in *. intros x Hx.
    by destruct (andb_prop _ _ (Hdefs x Hx)). }
  destruct (_setHeaders_spec l xs st Hl Hlive) as (ys & Hys & Hall & _).
  unfold headers_ok. rewrite Hys. apply forallb_forall. intros y Hy.
  apply list_elem_of_In, list_elem_of_lookup in Hy as [i Hi].
  destruct (Forall2_lookup_r _ _ _ _ _ Hall Hi) as (x & Hx & l' & -> & _ & Hl').
  unfold header_ok. rewrite Hl', defaults_prop. unfold with_default.
  rewrite forallb_forall in Hdefs.
  assert (definition_ok (heap st) x = true) as Hdef.
  { apply Hdefs, list_elem_of_In. by eapply list_elem_of_lookup_2. }
  unfold definition_ok in Hdef. apply andb_prop in Hdef as [_ Hgen].
  destruct (decide _) as [Hu|Hu]; [reflexivity|].
  destruct (prop (own_props (heap st) x) "generator"); try done.
Qed.

End HeaderFacts.

Section ViewFacts.
Import Table Spec View.
Variable generate : string -> Val -> gmap string Val -> Val -> Val.
Variable object_to_number : N -> JsNum.
Variable pinned_ancestor : bool.
Variable sort_by_expression : string -> Comparator -> M unit.

(** [setData] and its timers: a complete table of new row elements. *)
Lemma shown_spec l xs cs st fuel :
  heap st !! l = Some (HArray xs) ->
  collection (heap st) (_element st) = Some cs ->
  headers_ok (heap st) (_headers st) = true ->
  timers st = [] ->
  length xs / INSERT_BATCH_LIMIT <= fuel ->
  complete (shown generate object_to_number pinned_ancestor (VObject l) fuel st)
  /\ Forall2 (shows generate
                (shown generate object_to_number pinned_ancestor (VObject l) fuel st))
       (entries (shown generate object_to_number pinned_ancestor (VObject l) fuel st))
       (body_rows (shown generate object_to_number pinned_ancestor (VObject l) fuel st))
  /\ Forall (fun n => nodes st !! n = None)
       (body_rows (shown generate object_to_number pinned_ancestor (VObject l) fuel st)).
Proof.
  intros Hl Hcs Hok Ht Hfuel. unfold shown.
  destruct (setData_state generate object_to_number pinned_ancestor (VObject l) st)
    as (es & h2 & Hload & ->).
  assert (concat_items (heap st) (VObject l) = xs) as Hc
    by (unfold concat_items; by rewrite Hl).
  rewrite Hc in Hload.
  set (h1 := <[next_free (heap st) := HArray xs]> (heap st)) in *.
  assert (heap st ⊆ h1) as Hsub0 by apply insert_subseteq, next_free_fresh.
  destruct (load_spec _ _ _ _ _ Hload) as (Hsub & Hlen & Hrows & _).
  assert (heap st ⊆ h2) as Hsub2 by by etransitivity.
  set (s2 := set__data (Some es) (set_heap h2 st)) in *.
  assert (rows_sound s2) as Hsound.
  { unfold rows_sound. change (entries s2) with es.
    rewrite (rows_unbuilt es Hrows). split; constructor. }
  destruct (render_all generate s2 cs fuel Hsound) as (st1 & Hrun & Ht1 & Hr & _).
  { by apply (headers_ok_mono (heap st)). }
  { by apply (collection_mono (heap st)). }
  { exact Ht. }
  { change (entries s2) with es. by rewrite Hlen. }
  rewrite Hrun. simpl.
  split; [apply (rendered_complete generate (empty_element s2));
          [by apply empty_element_sound|exact Hr|exact Ht1]|].
  destruct (rendered_fresh generate (empty_element s2) _ Hrows Hr)
    as (Hshows & Hfresh & _).
  split; [exact Hshows|].
  eapply Forall_impl; [exact Hfresh|]. intros n Hn.
  by apply (proj1 (empty_element_None s2 n)).
Qed.

Lemma run_timers_idle fuel st : timers st = [] -> run_timers generate fuel st = st.
Proof. intros Ht. destruct fuel; simpl; [reflexivity|]. by rewrite Ht. Qed.

Lemma complete_built st :
  complete st ->
  Forall (fun e => exists n tr, row e = Some n /\ nodes st !! n = Some tr
                                /\ tr_data tr = Some (data e)) (entries st).
Proof. by intros (_ & _ & _ & H). Qed.

(** The render of a complete table whose entries keep their row
    elements: the body holds these, each as it was but for the names on
    its cells, which are gone if the table sat in the container. *)
Lemma rerendered pre s1 st2 :
  complete pre ->
  nodes s1 = nodes pre -> rows_in_element s1 = rows_in_element pre ->
  entries s1 ≡ₚ entries pre ->
  rendered generate (empty_element s1) (length (entries s1)) st2 ->
  timers st2 = [] ->
  complete st2 /\ entries st2 = entries s1
  /\ Forall (fun n => nodes st2 !! n = reused pre <$> nodes pre !! n) (body_rows st2).
Proof.
  intros Hc Hnodes Hrows Hperm Hr Ht.
  pose proof (complete_sound _ Hc) as [Hnd Hin].
  pose proof (complete_built _ Hc) as Hbuilt.
  assert (rows (entries s1) ≡ₚ rows (entries pre)) as Hprows
    by (by apply omap_Permutation).
  assert (rows_sound (empty_element s1)) as Hsound.
  { apply empty_element_sound. split; rewrite Hprows, ?Hnodes; assumption. }
  assert (Forall (fun e => is_Some (row e)) (entries s1)) as Hsome.
  { rewrite Hperm. eapply Forall_impl; [exact Hbuilt|].
    intros e (n & _ & -> & _). eauto. }
  destruct (rendered_reused generate (empty_element s1) st2 Hsound Hsome Hr)
    as (K1 & K2 & K3 & _).
  split; [by apply (rendered_complete generate (empty_element s1))|].
  split; [exact K1|].
  apply Forall_forall. intros n [j Hn]%list_elem_of_lookup.
  destruct (Forall2_lookup_r _ _ _ _ _ K3 Hn) as (e & He & Hrow & Hnode).
  change (entries (empty_element s1)) with (entries s1) in He.
  assert (e ∈ entries pre) as Hepre.
  { rewrite <- Hperm. by eapply list_elem_of_lookup_2. }
  rewrite Forall_forall in Hbuilt.
  destruct (Hbuilt e Hepre) as (n' & tr & Hrow' & Htr & Hdata).
  rewrite Hrow in Hrow'. injection Hrow' as <-.
  rewrite Hnode, empty_element_lookup, Hnodes, Hrows, Htr.
  assert (n ∈ body_rows pre) as Hbody.
  { destruct Hc as (_ & -> & _). by apply (rows_elem e). }
  unfold reused, rows_in_element.
  destruct (attached pre).
  - rewrite decide_True.
    + simpl. f_equal. unfold set_tr_data, unnamed, without_data. simpl.
      by rewrite Hdata.
    + apply elem_of_app. right. exact Hbody.
  - rewrite decide_False by apply not_elem_of_nil.
    simpl. f_equal. destruct tr. unfold set_tr_data. simpl in *. by rewrite Hdata.
Qed.

(** [sortOnColumn] and its timers: the entries are sorted, and the body
    holds the row elements they had. *)
Lemma resorted_spec column sortMode cs st fuel :
  complete st ->
  collection (heap st) (_element st) = Some cs ->
  headers_ok (heap st) (_headers st) = true ->
  is_Some (_headerTable st) ->
  class_name column = true ->
  length (entries st) / INSERT_BATCH_LIMIT <= fuel ->
  complete (resorted generate object_to_number pinned_ancestor sort_by_expression
                     column sortMode fuel st)
  /\ entries (resorted generate object_to_number pinned_ancestor sort_by_expression
                       column sortMode fuel st)
     = Array_sort (entry_order column sortMode st) (entries st)
  /\ Forall (fun n =>
               nodes (resorted generate object_to_number pinned_ancestor
                               sort_by_expression column sortMode fuel st) !! n
               = reused st <$> nodes st !! n)
       (body_rows (resorted generate object_to_number pinned_ancestor
                            sort_by_expression column sortMode fuel st)).
Proof.
  intros Hc Hcs Hok [ht Hht] Hcn Hfuel. unfold resorted, sortOnColumn.
  rewrite Hht, Hcn. cbn [negb].
  pose proof (complete_sound _ Hc) as Hsound.
  assert (timers st = []) as Ht by (by destruct Hc).
  destruct (_data st) as [es|] eqn:Hdata.
  2:{ simpl. rewrite run_timers_idle by exact Ht.
      assert (entries st = []) as Hes by (unfold entries; by rewrite Hdata).
      split; [exact Hc|]. rewrite Hes. split; [reflexivity|].
      destruct Hc as (_ & -> & _). rewrite Hes. constructor. }
  assert (entries st = es) as Hes by (unfold entries; by rewrite Hdata).
  fold (ascending_marked column st).
  match goal with
  | |- context [Array_sort ?c es] =>
      change (Array_sort c es) with (Array_sort (entry_order column sortMode st) es)
  end.
  set (sorted := Array_sort (entry_order column sortMode st) es).
  set (s1 := set__data (Some sorted) st).
  assert (sorted ≡ₚ es) as Hperm by apply Array_sort_perm.
  assert (rows_sound s1) as Hsound1.
  { destruct Hsound as [Hnd Hin]. rewrite Hes in Hnd, Hin.
    assert (rows sorted ≡ₚ rows es) as Hrows by (by apply omap_Permutation).
    split; change (entries s1) with sorted; change (nodes s1) with (nodes st);
      by rewrite Hrows. }
  destruct (_updateTable_rendered generate s1 cs Hsound1 Hok Hcs)
    as (st1 & Hrun & Hr1 & Ht1 & _ & _ & Hbody1 & [ht1 Hht1] & Hclones).
  change (timers s1) with (timers st) in Ht1. rewrite Ht in Ht1. simpl in Ht1.
  unfold mbind, M_bind. rewrite Hrun. unfold modify.
  match goal with
  | |- context [_onWindowResized _ _ ?s] => set (st2 := s)
  end.
  pose proof (_onWindowResized_state object_to_number pinned_ancestor st2) as Hres.
  destruct (_onWindowResized object_to_number pinned_ancestor st2) as [[[]|e] st3];
    simpl in Hres; subst st3; simpl.
  all: assert (rendered generate (empty_element s1)
                 (INSERT_BATCH_LIMIT `min` length (entries s1)) st2
               /\ timers st2 = timers st1 /\ is_Some (_bodyTable st2)
               /\ is_Some (_headerTable st2)) as (Hr2 & Ht2 & Hbody2 & Hhead2)
    by (subst st2; unfold update_header; rewrite Hht1;
        split;
        [eapply (rendered_marked generate _ _ st1 _ (header_tbody ht1));
         [by apply empty_element_sound
         |unfold header_rows in Hclones; rewrite Hht1 in Hclones; exact Hclones
         |reflexivity..|exact Hr1]|];
        simpl; eauto).
  all: rewrite Ht1 in Ht2.
  all: destruct (finish_render generate (empty_element s1) st2 fuel
                   (empty_element_sound _ Hsound1) Hok Hr2 Ht2 Hbody2 Hhead2)
    as (R1 & R2 & _); [change (entries (empty_element s1)) with sorted;
                       by rewrite Hperm, <- Hes|].
  all: destruct (rerendered st s1 (run_timers generate fuel st2) Hc eq_refl eq_refl)
    as (K1 & K2 & K3);
    [change (entries s1) with sorted; by rewrite Hperm, Hes|exact R2|exact R1|].
  all: split; [exact K1|]; split; [rewrite K2, Hes; reflexivity|exact K3].
Qed.

(** [rebuild] and its timers: a complete table of new row elements; the
    old ones stay in the store, those that sat in the container without
    what was stored on them. *)
Lemma rebuilt_spec cs st fuel :
  collection (heap st) (_element st) = Some cs ->
  headers_ok (heap st) (_headers st) = true ->
  timers st = [] ->
  length (entries st) / INSERT_BATCH_LIMIT <= fuel ->
  complete (rebuilt generate fuel st)
  /\ Forall2 (shows generate (rebuilt generate fuel st))
       (entries (rebuilt generate fuel st)) (body_rows (rebuilt generate fuel st))
  /\ Forall (fun n => nodes st !! n = None) (body_rows (rebuilt generate fuel st))
  /\ data_refs (rebuilt generate fuel st) = data_refs st
  /\ (forall m, is_Some (nodes st !! m) ->
                nodes (rebuilt generate fuel st) !! m
                = (if decide (m ∈ rows_in_element st) then without_data else id)
                    <$> nodes st !! m).
Proof.
  intros Hcs Hok Ht Hfuel. unfold rebuilt, rebuild, mbind, M_bind, modify.
  match goal with
  | |- context [_updateTable generate ?s] => set (s1 := s)
  end.
  assert (heap s1 = heap st /\ _headers s1 = _headers st /\ _element s1 = _element st
          /\ timers s1 = timers st /\ nodes s1 = nodes st
          /\ rows_in_element s1 = rows_in_element st
          /\ entries s1 = map (fun e => {| row := None; data := data e |}) (entries st))
    as (E1 & E2 & E3 & E4 & E5 & E7 & E6).
  { subst s1. unfold entries. destruct (_data st) eqn:Hd; simpl; rewrite ?Hd;
      repeat split; reflexivity. }
  assert (Forall (fun e => row e = None) (entries s1)) as Hnone.
  { rewrite E6. apply Forall_forall. intros e (e0 & -> & _)%list_elem_of_fmap.
    reflexivity. }
  assert (rows_sound s1) as Hsound.
  { unfold rows_sound. rewrite (rows_unbuilt _ Hnone). split; constructor. }
  destruct (render_all generate s1 cs fuel Hsound) as (st1 & Hrun & Ht1 & Hr & _).
  { by rewrite E1, E2. }
  { by rewrite E1, E3. }
  { by rewrite E4. }
  { by rewrite E6, length_map. }
  rewrite Hrun. simpl.
  split; [apply (rendered_complete generate (empty_element s1));
          [by apply empty_element_sound|exact Hr|exact Ht1]|].
  destruct (rendered_fresh generate (empty_element s1) _ Hnone Hr)
    as (Hshows & Hfresh & Hrefs).
  destruct (rendered_all_spec generate _ _ Hr) as (_ & _ & _ & _ & _ & Hframe).
  split; [exact Hshows|].
  split.
  { eapply Forall_impl; [exact Hfresh|]. intros n Hn.
    apply (proj1 (empty_element_None s1 n)) in Hn. by rewrite E5 in Hn. }
  split.
  { unfold data_refs. rewrite Hrefs.
    change (entries (empty_element s1)) with (entries s1).
    rewrite E6, <- list_fmap_compose. reflexivity. }
  intros m Hm. rewrite Hframe.
  - rewrite empty_element_lookup, E5, E7.
    destruct (decide _); [reflexivity|by destruct (nodes st !! m)].
  - change (entries (empty_element s1)) with (entries s1).
    rewrite (rows_unbuilt _ Hnone). apply not_elem_of_nil.
  - apply empty_element_is_Some. by rewrite E5.
Qed.

(** [setHeaders] and its timers: the header row is made from the new
    definitions, the body holds the row elements it held. *)
Lemma reheaded_spec l xs cs st fuel :
  complete st ->
  heap st !! l = Some (HArray xs) ->
  forallb (definition_ok (heap st)) xs = true ->
  collection (heap st) (_element st) = Some cs ->
  length (entries st) / INSERT_BATCH_LIMIT <= fuel ->
  complete (reheaded generate (VObject l) fuel st)
  /\ entries (reheaded generate (VObject l) fuel st) = entries st
  /\ Forall (fun n => nodes (reheaded generate (VObject l) fuel st) !! n
                      = reused st <$> nodes st !! n)
       (body_rows (reheaded generate (VObject l) fuel st))
  /\ _headers (reheaded generate (VObject l) fuel st) = VObject l
  /\ Forall2 (fun v th => header_cell (heap (reheaded generate (VObject l) fuel st)) v
                          = Ok th)
       (items (heap (reheaded generate (VObject l) fuel st)) (VObject l))
       (header_cells (reheaded generate (VObject l) fuel st)).
Proof.
  intros Hc Hl Hdefs Hcs Hfuel. unfold reheaded, setHeaders, mbind, M_bind, modify.
  set (s1 := _setHeaders (VObject l) st).
  destruct (_setHeaders_frame (VObject l) st)
    as (F1 & F2 & F3 & F4 & _ & _ & _ & _ & F9).
  fold s1 in F1, F2, F3, F4, F9.
  assert (entries s1 = entries st) as Hes by (unfold entries; by rewrite F3).
  pose proof (_setHeaders_ok l xs st Hl Hdefs) as Hok. fold s1 in Hok.
  rewrite <- F9 in Hok.
  assert (collection (heap s1) (_element s1) = Some cs) as Hcs1.
  { rewrite F4. subst s1. by rewrite (_setHeaders_collection l xs st _ Hl). }
  pose proof (_setHeaders_attached l xs st Hl) as Hatt. fold s1 in Hatt.
  pose proof (complete_sound _ Hc) as Hsound.
  assert (rows_sound s1) as Hsound1.
  { unfold rows_sound. by rewrite Hes, F1. }
  destruct (render_all generate s1 cs fuel Hsound1 Hok Hcs1)
    as (st1 & Hrun & Ht1 & Hr & Hths & _).
  { rewrite F2. by destruct Hc. }
  { by rewrite Hes. }
  rewrite Hrun. simpl.
  destruct (rerendered st s1 (run_timers generate fuel st1) Hc F1 Hatt)
    as (K1 & K2 & K3);
    [by rewrite Hes|exact Hr|exact Ht1|].
  destruct (rendered_all_spec generate _ _ Hr) as (Hheap & Hheaders & _).
  change (heap (empty_element s1)) with (heap s1) in Hheap.
  change (_headers (empty_element s1)) with (_headers s1) in Hheaders.
  split; [exact K1|].
  split; [by rewrite K2|].
  split; [exact K3|].
  split; [by rewrite Hheaders|].
  rewrite Hheap. by rewrite F9 in Hths.
Qed.

End ViewFacts.

(** X1.  After [setData] on an array and the deferred batches, on a table
    bound to a container whose column definitions have generators: the
    table is complete, that is no timer is left and the body holds the row
    elements of the entries in their order, each once; every one is a new
    element, without a class, whose cells are those [_createCell] makes for
    the record of its entry under each column definition in turn, and
    whose data slot leads to that record. *)
Theorem setData_shows_records generate object_to_number pinned_ancestor l xs cs st fuel :
  Table.heap st !! l = Some (Table.HArray xs) ->
  Table.collection (Table.heap st) (Table._element st) = Some cs ->
  Spec.headers_ok (Table.heap st) (Table._headers st) = true ->
  Table.timers st = [] ->
  length xs / Table.INSERT_BATCH_LIMIT <= fuel ->
  View.complete (View.shown generate object_to_number pinned_ancestor (VObject l) fuel st)
  /\ Forall2 (View.shows generate
                (View.shown generate object_to_number pinned_ancestor (VObject l) fuel st))
       (Table.entries
          (View.shown generate object_to_number pinned_ancestor (VObject l) fuel st))
       (Spec.body_rows
          (View.shown generate object_to_number pinned_ancestor (VObject l) fuel st))
  /\ Forall (fun n => Table.nodes st !! n = None)
       (Spec.body_rows
          (View.shown generate object_to_number pinned_ancestor (VObject l) fuel st)).
Proof. apply shown_spec. Qed.


(** X3.  [setHeaders] on a complete table, with an array of column
    definitions whose generators are functions: the header row is made
    from the new definitions, but the entries keep their row elements and
    the body holds them with the cells that were built for the columns of
    before; if the table sat in its container, these cells have lost the
    column names kept on them. *)
Theorem setHeaders_keeps_old_cells generate l xs cs st fuel :
  View.complete st ->
  Table.heap st !! l = Some (Table.HArray xs) ->
  forallb (View.definition_ok (Table.heap st)) xs = true ->
  Table.collection (Table.heap st) (Table._element st) = Some cs ->
  length (Table.entries st) / Table.INSERT_BATCH_LIMIT <= fuel ->
  View.complete (View.reheaded generate (VObject l) fuel st)
  /\ Table.entries (View.reheaded generate (VObject l) fuel st) = Table.entries st
  /\ Forall (fun n =>
               Table.nodes (View.reheaded generate (VObject l) fuel st) !! n
               = View.reused st <$> Table.nodes st !! n)
       (Spec.body_rows (View.reheaded generate (VObject l) fuel st))
  /\ Table._headers (View.reheaded generate (VObject l) fuel st) = VObject l
  /\ Forall2 (fun v th =>
                Table.header_cell
                  (Table.heap (View.reheaded generate (VObject l) fuel st)) v = Ok th)
       (Table.items (Table.heap (View.reheaded generate (VObject l) fuel st)) (VObject l))
       (Spec.header_cells (View.reheaded generate (VObject l) fuel st)).
Proof. apply reheaded_spec. Qed.

(** X4.  [rebuild], with the deferred batches, on a table bound to a
    container whose column definitions have generators: every entry gets a
    new row element, without a class, built from its record under the
    current column definitions; the records and their order stay; the row
    elements of before stay in the store, out of the table, and those that
    sat in the container have lost their data slot and the names kept on
    their cells. *)
Theorem rebuild_makes_new_rows generate cs st fuel :
  Table.collection (Table.heap st) (Table._element st) = Some cs ->
  Spec.headers_ok (Table.heap st) (Table._headers st) = true ->
  Table.timers st = [] ->
  length (Table.entries st) / Table.INSERT_BATCH_LIMIT <= fuel ->
  View.complete (View.rebuilt generate fuel st)
  /\ Forall2 (View.shows generate (View.rebuilt generate fuel st))
       (Table.entries (View.rebuilt generate fuel st))
       (Spec.body_rows (View.rebuilt generate fuel st))
  /\ Forall (fun n => Table.nodes st !! n = None)
       (Spec.body_rows (View.rebuilt generate fuel st))
  /\ Spec.data_refs (View.rebuilt generate fuel st) = Spec.data_refs st
  /\ (forall m, is_Some (Table.nodes st !! m) ->
                Table.nodes (View.rebuilt generate fuel st) !! m
                = (if decide (m ∈ Table.rows_in_element st)
                   then Table.without_data else id) <$> Table.nodes st !! m).
Proof. apply rebuilt_spec. Qed.

(** X5.  [setHeaders] with an array of column definitions works on the
    caller's array: each definition is replaced, in that array, by a new
    object that holds under every key the caller's value where the caller
    defines one and the default ([generator], [filter], [sort]) where not;
    the definition objects themselves, like every other object, stay as
    they were; and the table keeps the caller's array as its headers.
    This holds whether the render that follows succeeds or not. *)
Theorem setHeaders_fills_defaults generate l xs st :
  Table.heap st !! l = Some (Table.HArray xs) ->
  forallb (View.live (Table.heap st)) xs = true ->
  Table._headers (Table.setHeaders generate (VObject l) st).2 = VObject l
  /\ (exists ys,
         Table.heap (Table.setHeaders generate (VObject l) st).2 !! l
         = Some (Table.HArray ys)
         /\ Forall2 (fun x y =>
                       exists l' ps,
                         y = VObject l' /\ Table.heap st !! l' = None
                         /\ Table.heap (Table.setHeaders generate (VObject l) st).2 !! l'
                            = Some (Table.HObject ps)
                         /\ forall k,
                             Table.prop ps k
                             = View.with_default (Table.own_props (Table.heap st) x) k)
                    xs ys)
  /\ (forall r o, Table.heap st !! r = Some o -> r <> l ->
                  Table.heap (Table.setHeaders generate (VObject l) st).2 !! r = Some o).
Proof.
  intros Hl Hlive.
  change (Table.setHeaders generate (VObject l) st)
    with (Table._updateTable generate (Table._setHeaders (VObject l) st)).
  destruct (keeps__updateTable generate (Table._setHeaders (VObject l) st))
    as (-> & _ & _ & -> & _).
  destruct (_setHeaders_frame (VObject l) st) as (_ & _ & _ & _ & _ & _ & _ & _ & ->).
  destruct (_setHeaders_spec l xs st Hl Hlive) as (ys & Hys & Hall & Hkeep).
  split; [reflexivity|]. split; [|exact Hkeep].
  exists ys. split; [exact Hys|].
  eapply Forall2_impl; [exact Hall|].
  intros x y (l' & -> & Hnone & Hl'). eexists l', _.
  split; [reflexivity|]. split; [exact Hnone|]. split; [exact Hl'|].
  intros k. apply defaults_prop.
Qed.

Section EdgeFacts.
Import Table Spec View.
Variable generate : string -> Val -> gmap string Val -> Val -> Val.
Variable extend_deep :
  gmap N HeapObj -> gmap string Val -> gmap string Val -> gmap string Val.
Variable object_to_number : N -> JsNum.
Variable pinned_ancestor : bool.

(** Without a collection in [_element] the render stops at
    [this._element.empty()], after the new tables are stored. *)
Lemma _updateTable_no_element st :
  collection (heap st) (_element st) = None ->
  (_updateTable generate st).1 = Throw TypeError
  /\ heap (_updateTable generate st).2 = heap st
  /\ _headers (_updateTable generate st).2 = _headers st
  /\ _data (_updateTable generate st).2 = _data st
  /\ _element (_updateTable generate st).2 = _element st.
Proof. intros Hc. unfold _updateTable. simpl. rewrite Hc. simpl. auto. Qed.

(** The blocks of [setOpts] before the render leave [_element] alone
    and do not throw when the options are not undefined or null. *)
Lemma setOpts_reaches_render opts st :
  truthy opts = true ->
  exists st1,
    _element st1 = _element st
    /\ setOpts generate extend_deep object_to_number pinned_ancestor opts st
       = (_updateTable generate ;; _onWindowResized object_to_number pinned_ancestor) st1.
Proof.
  intros Hopts. unfold setOpts.
  assert (forall k s, exists x, get_prop (heap s) opts k = Ok x) as Hget
    by (intros; by apply get_prop_truthy).
  unfold mbind at 1, M_bind at 1, lift at 1.
  destruct (Hget "headers" st) as [headers ->].
  unfold mbind at 1, M_bind at 1.
  assert (exists sa, (if truthy headers
                      then modify (_setHeaders headers);; modify (delete_prop opts "headers")
                      else mret ()) st = (Ok tt, sa) /\ _element sa = _element st)
    as (sa & -> & Ea).
  { destruct (truthy headers); [|by eexists].
    eexists. split; [reflexivity|]. unfold delete_prop.
    destruct (_setHeaders_frame headers st) as (_ & _ & _ & E & _).
    destruct opts; simpl; try exact E.
    by destruct (heap _ !! l) as [[| |]|]. }
  unfold mbind at 1, M_bind at 1, lift at 1.
  destruct (Hget "callbacks" sa) as [callbacks ->].
  unfold mbind at 1, M_bind at 1.
  assert (exists sb, (if truthy callbacks
                      then modify (_setCallbacks callbacks);;
                           modify (delete_prop opts "callbacks")
                      else mret ()) sa = (Ok tt, sb) /\ _element sb = _element sa)
    as (sb & -> & Eb).
  { destruct (truthy callbacks); [|by eexists].
    eexists. split; [reflexivity|]. unfold delete_prop.
    destruct opts; simpl; try reflexivity.
    by destruct (heap _ !! l) as [[| |]|]. }
  unfold mbind at 1, M_bind at 1, lift at 1.
  destruct (Hget "data" sb) as [data ->].
  unfold mbind at 1, M_bind at 1.
  assert (exists sc, (if truthy data
                      then _setData data;; modify (delete_prop opts "data")
                      else mret ()) sb = (Ok tt, sc) /\ _element sc = _element sb)
    as (sc & -> & Ec).
  { destruct (truthy data) eqn:Hd; [|by eexists].
    unfold mbind, M_bind, _setData.
    destruct (load _ _ _) as [es h'].
    assert (forall s', (match data with
                        | VUndefined | VNull => (Throw TypeError, set__data (Some []) sb)
                        | _ => (Ok tt, s')
                        end : Result unit * St) = (Ok tt, s')) as ->
      by (intros; by destruct data).
    eexists. split; [reflexivity|]. unfold modify, delete_prop.
    destruct opts; simpl; try reflexivity.
    by destruct (_ !! l) as [[| |]|]. }
  unfold mbind at 1, M_bind at 1, modify at 1.
  eexists. split; [|reflexivity]. simpl. congruence.
Qed.

End EdgeFacts.

(** X6.  A table that has no element yet (as after [new Table()] without
    a target) cannot render: [setHeaders], [setData], [rebuild] and
    [setOpts] all end in a TypeError at [this._element.empty()], after the
    headers or the data have been stored; and so does
    [new Table( element, opts )] for a falsy [element] and any options. *)
Theorem render_needs_an_element resolve generate extend_deep object_to_number
        number_to_string object_to_string pinned_ancestor :
  (forall st,
      Table._element st = VUndefined ->
      (forall headers,
          (Table.setHeaders generate headers st).1 = Throw TypeError
          /\ Table._headers (Table.setHeaders generate headers st).2 = headers)
      /\ (forall data,
             (Table.setData generate object_to_number pinned_ancestor data st).1
             = Throw TypeError
             /\ length (Table.entries
                          (Table.setData generate object_to_number pinned_ancestor
                                         data st).2)
                = length (Table.concat_items (Table.heap st) data))
      /\ (Table.rebuild generate st).1 = Throw TypeError
      /\ (forall opts,
             truthy opts = true ->
             (Table.setOpts generate extend_deep object_to_number pinned_ancestor
                            opts st).1 = Throw TypeError))
  /\ (forall h element opts,
         truthy element = false -> truthy opts = true ->
         (Table.Table_ resolve generate extend_deep object_to_number number_to_string object_to_string
                       pinned_ancestor element opts
                       (Table.new_table extend_deep h)).1 = Throw TypeError).
Proof.
  assert (forall st opts,
             Table._element st = VUndefined -> truthy opts = true ->
             (Table.setOpts generate extend_deep object_to_number pinned_ancestor
                            opts st).1 = Throw TypeError) as Hopts.
  { intros st opts He Ho.
    destruct (setOpts_reaches_render generate extend_deep object_to_number
                pinned_ancestor opts st Ho) as (st1 & E1 & ->).
    unfold mbind, Table.M_bind.
    destruct (_updateTable_no_element generate st1) as (Hthrow & _).
    { by rewrite E1, He. }
    destruct (Table._updateTable generate st1) as [[[]|e] s]; simpl in *; congruence. }
  split.
  - intros st He. split; [|split; [|split]].
    + intros headers.
      change (Table.setHeaders generate headers st)
        with (Table._updateTable generate (Table._setHeaders headers st)).
      destruct (_setHeaders_frame headers st) as (_ & _ & _ & E & _ & _ & _ & _ & F).
      destruct (_updateTable_no_element generate (Table._setHeaders headers st))
        as (Hthrow & _ & Hh & _).
      { by rewrite E, He. }
      by rewrite Hthrow, Hh.
    + intros data.
      pose proof (setData_loaded generate object_to_number pinned_ancestor data st) as H.
      cbv zeta in H. destruct H as (_ & Hlen & _). split; [|exact Hlen].
      unfold Table.setData, Table.concat_empty, mbind, Table.M_bind, Table._setData,
        Table.alloc.
      simpl. destruct (Table.load _ _ _) as [es h']. simpl.
      match goal with
      | |- context [Table._updateTable generate ?s] =>
          destruct (_updateTable_no_element generate s) as (Hthrow & _);
            [simpl; by rewrite He|];
            destruct (Table._updateTable generate s) as [[[]|e] s']
      end; simpl in *; congruence.
    + unfold Table.rebuild, mbind, Table.M_bind, Table.modify.
      match goal with
      | |- context [Table._updateTable generate ?s] =>
          destruct (_updateTable_no_element generate s) as (Hthrow & _);
            [destruct (Table._data st); simpl; by rewrite He|];
            destruct (Table._updateTable generate s) as [[[]|e] s']
      end; simpl in *; congruence.
    + intros opts. by apply Hopts.
  - intros h element opts Hel Ho. unfold Table.Table_. rewrite Hel, Ho.
    unfold mbind, Table.M_bind. simpl. by apply Hopts.
Qed.


Section ResizeFacts.
Import Table Spec View.
Variable generate : string -> Val -> gmap string Val -> Val -> Val.
Variable object_to_number : N -> JsNum.

(** [setData] is the load, then the render, then the resize handler. *)
Lemma setData_steps pinned_ancestor data st :
  exists es h2,
    load (<[next_free (heap st) := HArray (concat_items (heap st) data)]> (heap st)) 0
         (concat_items (heap st) data) = (es, h2)
    /\ setData generate object_to_number pinned_ancestor data st
       = (_updateTable generate ;; _onWindowResized object_to_number pinned_ancestor)
           (set__data (Some es) (set_heap h2 st)).
Proof.
  destruct (load (<[next_free (heap st) := HArray (concat_items (heap st) data)]> (heap st))
                 0 (concat_items (heap st) data)) as [es h2] eqn:Hload.
  exists es, h2. split; [reflexivity|].
  unfold setData, concat_empty, mbind at 1, M_bind at 1, alloc.
  unfold mbind at 1, M_bind at 1, _setData. simpl.
  rewrite lookup_insert_eq, Hload. reflexivity.
Qed.

(** The outcome of [setData] on a table that can render is that of the
    resize handler. *)
Lemma setData_outcome pinned_ancestor l xs cs st :
  heap st !! l = Some (HArray xs) ->
  collection (heap st) (_element st) = Some cs ->
  headers_ok (heap st) (_headers st) = true ->
  (setData generate object_to_number pinned_ancestor (VObject l) st).1
  = (if negb (truthy (VNumber (Number object_to_number
                                      (prop (_config st) "pinToBottom"))))
     then Ok tt
     else if pinned_ancestor then Ok tt else Throw TypeError).
Proof.
  intros Hl Hcs Hok.
  destruct (setData_steps pinned_ancestor (VObject l) st) as (es & h2 & Hload & ->).
  destruct (load_spec _ _ _ _ _ Hload) as (Hsub & _).
  assert (heap st ⊆ h2) as Hsub2.
  { etransitivity; [|exact Hsub]. apply insert_subseteq, next_free_fresh. }
  destruct (_updateTable_ok generate (set__data (Some es) (set_heap h2 st)) cs)
    as (st1 & Hrun & _ & _ & Hconfig & _ & _ & _ & _ & _ & _ & _ & [bt Hbt] & _).
  { by apply (headers_ok_mono (heap st)). }
  { by apply (collection_mono (heap st)). }
  unfold mbind, M_bind. rewrite Hrun. unfold _onWindowResized.
  rewrite Hconfig, Hbt. simpl.
  destruct (negb _); [reflexivity|]. by destruct pinned_ancestor.
Qed.

(** A timer whose start lies behind the last entry does nothing but
    throw. *)
Lemma insert_loop_past_end n start i st :
  length (entries st) <= start + i ->
  insert_loop generate n start i st = (Ok i, st).
Proof.
  intros Hle. destruct n; simpl; [reflexivity|].
  destruct (Nat.ltb_spec (start + i) (length (entries st))); [lia|].
  by rewrite andb_false_r.
Qed.

Lemma _insertData_past_end start st :
  length (entries st) <= start ->
  is_Some (_bodyTable st) -> is_Some (_data st) ->
  _insertData generate start st
  = (Throw TypeError, set_batches (batches st ++ [0]) st).
Proof.
  intros Hle [bt Hbt] [es Hes]. unfold _insertData. rewrite Hbt, Hes.
  unfold mbind, M_bind. rewrite insert_loop_past_end by lia.
  unfold modify, append_header_clone. simpl.
  change (entries (set_batches _ st)) with (entries st).
  rewrite (lookup_ge_None_2 (entries st) start) by lia. simpl.
  by destruct (_headerTable st).
Qed.

(** What [setData] leaves of the setup of a table that can render. *)
Lemma setData_after pinned_ancestor l xs cs st :
  heap st !! l = Some (HArray xs) ->
  collection (heap st) (_element st) = Some cs ->
  headers_ok (heap st) (_headers st) = true ->
  heap st ⊆ heap (setData generate object_to_number pinned_ancestor (VObject l) st).2
  /\ collection (heap (setData generate object_to_number pinned_ancestor (VObject l) st).2)
       (_element (setData generate object_to_number pinned_ancestor (VObject l) st).2)
     = Some cs
  /\ headers_ok (heap (setData generate object_to_number pinned_ancestor (VObject l) st).2)
       (_headers (setData generate object_to_number pinned_ancestor (VObject l) st).2)
     = true
  /\ timers (setData generate object_to_number pinned_ancestor (VObject l) st).2
     = timers st ++ (if INSERT_BATCH_LIMIT <? length xs then [INSERT_BATCH_LIMIT] else [])
  /\ length (entries (setData generate object_to_number pinned_ancestor (VObject l) st).2)
     = length xs
  /\ is_Some (_bodyTable (setData generate object_to_number pinned_ancestor (VObject l) st).2)
  /\ is_Some (_data (setData generate object_to_number pinned_ancestor (VObject l) st).2).
Proof.
  intros Hl Hcs Hok.
  destruct (setData_state generate object_to_number pinned_ancestor (VObject l) st)
    as (es & h2 & Hload & ->).
  assert (concat_items (heap st) (VObject l) = xs) as Hc
    by (unfold concat_items; by rewrite Hl).
  rewrite Hc in Hload.
  destruct (load_spec _ _ _ _ _ Hload) as (Hsub & Hlen & _).
  assert (heap st ⊆ h2) as Hsub2.
  { etransitivity; [|exact Hsub]. apply insert_subseteq, next_free_fresh. }
  set (s2 := set__data (Some es) (set_heap h2 st)) in *.
  assert (headers_ok (heap s2) (_headers s2) = true) as Hok2
    by (by apply (headers_ok_mono (heap st))).
  assert (collection (heap s2) (_element s2) = Some cs) as Hcs2
    by (by apply (collection_mono (heap st))).
  destruct (_updateTable_ok generate s2 cs Hok2 Hcs2)
    as (st1 & Hrun & Hheap & Helem & _ & _ & Hheaders & _ & _ & Htm & _ & _ & Hbody & _
        & Hrefs & _).
  destruct (keeps__updateTable generate s2) as (_ & _ & _ & _ & _ & Hdata).
  rewrite Hrun in *. simpl in *.
  rewrite Hheap, Helem, Hheaders.
  split; [exact Hsub2|]. split; [exact Hcs2|]. split; [exact Hok2|].
  split; [rewrite Htm; change (entries s2) with es; by rewrite Hlen|].
  split.
  { apply (f_equal length) in Hrefs. unfold data_refs in Hrefs.
    rewrite !length_map in Hrefs. change (entries s2) with es in Hrefs. lia. }
  split; [exact Hbody|]. apply Hdata. simpl. eauto.
Qed.

End ResizeFacts.

(** X7.  The option [pinToBottom] and the resize handler: when the
    configured value converts to a number other than 0, [setData] on a
    table that can render ends in a TypeError unless the page itself has
    an element of class [lw-table-body-container] around the table (the
    wrapper the widget makes carries [pl-table-body-container]); the table
    is rendered all the same.  When the value converts to 0 or NaN the
    handler returns at once and [setData] succeeds. *)
Theorem pinToBottom_needs_a_foreign_container generate object_to_number l xs cs st :
  Table.heap st !! l = Some (Table.HArray xs) ->
  Table.collection (Table.heap st) (Table._element st) = Some cs ->
  Spec.headers_ok (Table.heap st) (Table._headers st) = true ->
  (truthy (VNumber (Number object_to_number
                           (Table.prop (Table._config st) "pinToBottom"))) = true ->
   (Table.setData generate object_to_number false (VObject l) st).1 = Throw TypeError
   /\ (Table.setData generate object_to_number true (VObject l) st).1 = Ok tt)
  /\ (truthy (VNumber (Number object_to_number
                              (Table.prop (Table._config st) "pinToBottom"))) = false ->
      forall pinned_ancestor,
        (Table.setData generate object_to_number pinned_ancestor (VObject l) st).1 = Ok tt)
  /\ (Table.setData generate object_to_number false (VObject l) st).2
     = (Table.setData generate object_to_number true (VObject l) st).2.
Proof.
  intros Hl Hcs Hok.
  split; [|split].
  - intros Hpin.
    rewrite !(setData_outcome generate object_to_number _ l xs cs st Hl Hcs Hok).
    by rewrite Hpin.
  - intros Hpin pa.
    rewrite (setData_outcome generate object_to_number _ l xs cs st Hl Hcs Hok).
    by rewrite Hpin.
  - destruct (setData_state generate object_to_number false (VObject l) st)
      as (es & h2 & Hload & ->).
    destruct (setData_state generate object_to_number true (VObject l) st)
      as (es' & h2' & Hload' & ->).
    rewrite Hload in Hload'. by injection Hload' as <- <-.
Qed.

(** X8.  New data before the deferred batches of a larger load have run:
    after [setData] with more than 500 records and then [setData] with at
    most 500, the continuation of the first render is still waiting, with
    its start at 500; when it runs it throws a TypeError (at
    [this._data[ start ].row]) and changes nothing in the entries, the
    rows of the two tables or the store. *)
Theorem stale_batch_throws generate object_to_number pinned_ancestor l1 xs1 l2 xs2 cs st :
  Table.heap st !! l1 = Some (Table.HArray xs1) ->
  Table.heap st !! l2 = Some (Table.HArray xs2) ->
  Table.collection (Table.heap st) (Table._element st) = Some cs ->
  Spec.headers_ok (Table.heap st) (Table._headers st) = true ->
  Table.timers st = [] ->
  Table.INSERT_BATCH_LIMIT < length xs1 ->
  length xs2 <= Table.INSERT_BATCH_LIMIT ->
  Table.timers (View.reloaded generate object_to_number pinned_ancestor
                              (VObject l1) (VObject l2) st)
  = [Table.INSERT_BATCH_LIMIT]
  /\ (Table._insertData generate Table.INSERT_BATCH_LIMIT
        (Table.set_timers []
           (View.reloaded generate object_to_number pinned_ancestor
                          (VObject l1) (VObject l2) st))).1
     = Throw TypeError
  /\ Table.run_timer generate
       (View.reloaded generate object_to_number pinned_ancestor
                      (VObject l1) (VObject l2) st)
     = Table.set_batches
         (Table.batches (View.reloaded generate object_to_number pinned_ancestor
                                       (VObject l1) (VObject l2) st) ++ [0])
         (Table.set_timers []
            (View.reloaded generate object_to_number pinned_ancestor
                           (VObject l1) (VObject l2) st)).
Proof.
  intros Hl1 Hl2 Hcs Hok Ht Hbig Hsmall. unfold View.reloaded.
  destruct (setData_after generate object_to_number pinned_ancestor l1 xs1 cs st
              Hl1 Hcs Hok) as (Hsub1 & Hcs1 & Hok1 & Ht1 & _).
  set (st1 := (Table.setData generate object_to_number pinned_ancestor (VObject l1) st).2)
    in *.
  assert (Table.heap st1 !! l2 = Some (Table.HArray xs2)) as Hl2'
    by (by apply (lookup_weaken _ _ _ _ Hl2 Hsub1)).
  destruct (setData_after generate object_to_number pinned_ancestor l2 xs2 cs st1
              Hl2' Hcs1 Hok1) as (_ & _ & _ & Ht2 & Hlen2 & Hbody2 & Hdata2).
  set (st2 := (Table.setData generate object_to_number pinned_ancestor (VObject l2) st1).2)
    in *.
  assert (Table.timers st2 = [Table.INSERT_BATCH_LIMIT]) as Htimers.
  { rewrite Ht2, Ht1, Ht.
    destruct (Nat.ltb_spec Table.INSERT_BATCH_LIMIT (length xs1)); [|lia].
    destruct (Nat.ltb_spec Table.INSERT_BATCH_LIMIT (length xs2)); [lia|done]. }
  assert (Table._insertData generate Table.INSERT_BATCH_LIMIT (Table.set_timers [] st2)
          = (Throw TypeError,
             Table.set_batches (Table.batches st2 ++ [0]) (Table.set_timers [] st2)))
    as Hrun.
  { apply (_insertData_past_end generate Table.INSERT_BATCH_LIMIT
             (Table.set_timers [] st2)).
    - change (Table.entries (Table.set_timers [] st2)) with (Table.entries st2). lia.
    - exact Hbody2.
    - exact Hdata2. }
  split; [exact Htimers|]. split; [by rewrite Hrun|].
  unfold Table.run_timer. rewrite Htimers, Hrun. reflexivity.
Qed.


Section EventFacts.
Import Table Spec View.
Variable generate : string -> Val -> gmap string Val -> Val -> Val.

(** The cells of a row carry the names of the columns, in order. *)
Lemma build_cells_names h d hs cells :
  build_cells generate h d hs = Ok cells ->
  Forall2 (fun header td => td_name td = header_name h header
                            /\ td_classes td = addClassVal (td_name td) ["column"])
          hs cells.
Proof.
  revert cells. induction hs as [|x hs IH]; intros cells Hb; simpl in Hb.
  - injection Hb as <-. constructor.
  - unfold header_name.
    destruct (get_prop h x "name") as [name|e] eqn:Hname; simpl in Hb; [|discriminate].
    destruct (_createCell generate h name d x) as [cell|e] eqn:Hcell;
      simpl in Hb; [|discriminate].
    destruct (build_cells generate h d hs) as [cells'|e] eqn:Hrest;
      simpl in Hb; [|discriminate].
    injection Hb as <-. constructor; [|by apply IH].
    rewrite Hname. unfold _createCell in Hcell.
    destruct (get_prop h x "generator") as [g|e]; simpl in Hcell; [|discriminate].
    destruct (get_prop h x "filter") as [f|e]; simpl in Hcell; [|discriminate].
    destruct g; try discriminate. injection Hcell as <-. by split.
Qed.

End EventFacts.

(** X9.  Row events other than a click never touch the selection or
    anything else of the table; with no handler registered for the event
    nothing happens at all; and on a complete table a handler registered
    for the event is called with the record of the row the event started
    on (on the row itself or on one of its cells) and with that row. *)
Theorem other_row_events_only_call_back eventName target st :
  eventName <> "click" ->
  (Table._onRowEvent eventName target st).2 = st
  /\ (truthy (Table.prop (Table._callbacks st) eventName) = false ->
      (Table._onRowEvent eventName target st).1 = Ok None)
  /\ (forall e n f,
         View.complete st ->
         e ∈ Table.entries st -> Table.row e = Some n ->
         target = Table.OnRow n \/ target = Table.OnCell n ->
         Table.prop (Table._callbacks st) eventName = VFunction f ->
         (Table._onRowEvent eventName target st).1
         = Ok (Some {| Table.callee := f; Table.arg_record := Table.data e;
                       Table.arg_row := n |})).
Proof.
  intros Hne.
  assert (String.eqb eventName "click" = false) as Heq by (by apply String.eqb_neq).
  assert (Table._onRowEvent eventName target st
          = (if negb (Table.is_td target) && negb (Table.is_tr target)
             then (Ok None, st)
             else Table.call_handler eventName (Table.closest_tr target) st))
    as ->.
  { unfold Table._onRowEvent. rewrite Heq.
    by destruct (negb _ && negb _). }
  split; [|split].
  - destruct (negb _ && negb _); [reflexivity|]. unfold Table.call_handler.
    destruct (truthy _); [|reflexivity].
    destruct (Table.nodes st !! _ ≫= Table.tr_data) as [d|]; [|reflexivity].
    by destruct (Table.prop (Table._callbacks st) eventName).
  - intros Hno. destruct (negb _ && negb _); [reflexivity|].
    unfold Table.call_handler. by rewrite Hno.
  - intros e n f (_ & _ & _ & Hbuilt) He Hrow Htarget Hf.
    rewrite Forall_forall in Hbuilt.
    destruct (Hbuilt e He) as (n' & tr & Hn' & Htr & Hd).
    rewrite Hrow in Hn'. injection Hn' as <-.
    assert (negb (Table.is_td target) && negb (Table.is_tr target) = false
            /\ Table.closest_tr target = n) as [-> ->]
      by (by destruct Htarget as [-> | ->]).
    unfold Table.call_handler. rewrite Hf, Htr. simpl. by rewrite Hd.
Qed.

(** X10.  [_columnCallback], for an event inside cell [c] of a row
    element.  If the row is the one built for an entry under the current
    column definitions, whatever classes it has got since (so also when it
    is selected), the caller's handler is called with the name of column
    [c] and with the record of the entry, which is the copy [setData] made
    and so carries the row id; the table is left as it is, and the column
    the handler was bound with plays no part.  But once a complete table
    that sits in its container has been rendered again, here by
    [sortOnColumn] for a column with a plain class name and a comparator
    consistent on the entries, the cells of the rows have lost their
    names: the handler is then called with undefined as the name, and
    still with the record of the entry. *)
Theorem column_callback_arguments generate object_to_number pinned_ancestor
        sort_by_expression column f c st :
  (forall e n header classes cells,
      Table.build_cells generate (Table.heap st) (Table.data e)
                        (Table.items (Table.heap st) (Table._headers st)) = Ok cells ->
      Table.nodes st !! n
      = Some {| Table.tr_classes := classes; Table.tr_cells := cells;
                Table.tr_data := Some (Table.data e) |} ->
      Table.items (Table.heap st) (Table._headers st) !! c = Some header ->
      Table._columnCallback column (VFunction f) n c st
      = (Ok {| Table.column_callee := f;
               Table.arg_name := Spec.header_name (Table.heap st) header;
               Table.arg_data := Table.data e |}, st))
  /\ (forall name sortMode cs fuel e n,
         View.complete st ->
         Table.attached st = true ->
         Table.collection (Table.heap st) (Table._element st) = Some cs ->
         Spec.headers_ok (Table.heap st) (Table._headers st) = true ->
         is_Some (Table._headerTable st) ->
         Table.class_name name = true ->
         Spec.consistent_on (View.entry_order name sortMode st) (Table.entries st)
         = true ->
         length (Table.entries st) / Table.INSERT_BATCH_LIMIT <= fuel ->
         e ∈ Table.entries st -> Table.row e = Some n ->
         Table._columnCallback column (VFunction f) n c
           (View.resorted generate object_to_number pinned_ancestor
                          sort_by_expression name sortMode fuel st)
         = (Ok {| Table.column_callee := f; Table.arg_name := VUndefined;
                  Table.arg_data := Table.data e |},
            View.resorted generate object_to_number pinned_ancestor
                          sort_by_expression name sortMode fuel st)).
Proof.
  split.
  - intros e n header classes cells Hcells Hnode Hheader.
    pose proof (build_cells_names generate _ _ _ _ Hcells) as Hnames.
    destruct (Forall2_lookup_l _ _ _ _ _ Hnames Hheader) as (td & Htd & Hname & _).
    unfold Table._columnCallback. rewrite Hnode. simpl. rewrite Htd. simpl.
    by rewrite Hname.
  - intros name sortMode cs fuel e n Hc Hatt Hcs Hok Hht Hcn _ Hfuel He Hrow.
    destruct (resorted_spec generate object_to_number pinned_ancestor
                sort_by_expression name sortMode cs st fuel Hc Hcs Hok Hht Hcn Hfuel)
      as (K1 & K2 & K3).
    pose proof (complete_built _ Hc) as Hbuilt.
    rewrite Forall_forall in Hbuilt.
    destruct (Hbuilt e He) as (n' & tr & Hn' & Htr & Hd).
    rewrite Hrow in Hn'. injection Hn' as <-.
    assert (n ∈ Spec.body_rows (View.resorted generate object_to_number pinned_ancestor
                          sort_by_expression name sortMode fuel st)) as Hn.
    { destruct K1 as (_ & -> & _). rewrite K2.
      assert (View.rows (Table.Array_sort (View.entry_order name sortMode st)
                                          (Table.entries st))
              ≡ₚ View.rows (Table.entries st)) as ->
        by apply omap_Permutation, Array_sort_perm.
      apply list_elem_of_omap. eauto. }
    rewrite Forall_forall in K3. specialize (K3 n Hn).
    unfold Table._columnCallback. rewrite K3, Htr. unfold View.reused.
    rewrite Hatt. simpl. rewrite Hd. simpl.
    rewrite list_lookup_fmap.
    by destruct (Table.tr_cells tr !! c).
Qed.


(* ===================================================================== *)
(** * The comparators *)
(* ===================================================================== *)

Section OrderFacts.
Import Table Spec.

(** The order of strings: of two different strings one is below the
    other, and what is below a string is below every string that is not
    below it. *)
Lemma lt_asym a b : lt a b = true -> lt b a = false.
Proof.
  unfold lt, String.ltb. rewrite (String.compare_antisym b a).
  by destruct (String.compare a b).
Qed.

Lemma lt_total a b : lt a b = false -> lt b a = false -> a = b.
Proof.
  unfold lt, String.ltb. rewrite (String.compare_antisym b a).
  destruct (String.compare a b) eqn:Hc; try discriminate.
  intros _ _. by apply String.compare_eq_iff.
Qed.

Lemma lt_irrefl a : lt a a = false.
Proof.
  destruct (lt a a) eqn:H; [|reflexivity].
  pose proof (lt_asym _ _ H). congruence.
Qed.

Lemma lt_split a : forall b c, lt a c = true -> lt a b = true \/ lt b c = true.
Proof.
  unfold lt, String.ltb.
  induction a as [|x a IH]; intros [|y b] [|z c]; simpl; auto; try discriminate.
  unfold Ascii.compare.
  destruct (N.compare_spec (N_of_ascii x) (N_of_ascii z)) as [Hxz|Hxz|Hxz];
    destruct (N.compare_spec (N_of_ascii x) (N_of_ascii y)) as [Hxy|Hxy|Hxy];
    destruct (N.compare_spec (N_of_ascii y) (N_of_ascii z)) as [Hyz|Hyz|Hyz];
    auto; try discriminate; try lia.
Qed.

(** A comparator that compares keys is consistent on every list. *)
Lemma keyed_consistent {A K} (compare : A -> A -> JsNum) (key : A -> K)
      (below : K -> K -> bool) (good : K -> Prop) :
  (forall a, good (key a)) ->
  (forall x y, good x -> good y -> below x y = true -> below y x = false) ->
  (forall x y z, good x -> good y -> good z ->
                 below x z = true -> below x y = true \/ below y z = true) ->
  (forall a b, is_positive (compare a b) = below (key b) (key a)) ->
  forall l, consistent_on compare l = true.
Proof.
  intros Hgood Hasym Hsplit Hkey l. unfold consistent_on, total_on, transitive_on.
  apply andb_true_intro. split.
  - apply forallb_forall. intros a _. apply forallb_forall. intros b _.
    rewrite !Hkey.
    destruct (below (key b) (key a)) eqn:H; [|reflexivity].
    by rewrite (Hasym _ _ (Hgood b) (Hgood a) H).
  - apply forallb_forall. intros a _. apply forallb_forall. intros b _.
    apply forallb_forall. intros d _. rewrite !Hkey.
    destruct (below (key d) (key a)) eqn:H; [|by rewrite !implb_true_r].
    destruct (Hsplit _ (key b) _ (Hgood d) (Hgood b) (Hgood a) H) as [-> | ->];
      simpl; by rewrite ?andb_false_r.
Qed.

Lemma Zlt_asym (x y : Z) : True -> True -> (x <? y)%Z = true -> (y <? x)%Z = false.
Proof. lia. Qed.

Lemma Zlt_split (x y z : Z) :
  True -> True -> True ->
  (x <? z)%Z = true -> (x <? y)%Z = true \/ (y <? z)%Z = true.
Proof. intros _ _ _. destruct (Z.ltb_spec x y); [auto|]. right. lia. Qed.

(** ** Numbers *)

Lemma unit_scale_pos : (0 < unit_scale)%Z.
Proof. reflexivity. Qed.

Lemma Num_inj x y : Num x = Num y -> x = y.
Proof.
  unfold Num. intros [= H]. pose proof unit_scale_pos.
  apply (Z.mul_reg_r _ _ unit_scale); [lia|exact H].
Qed.

Lemma is_positive_Num z : is_positive (Num z) = (0 <? z)%Z.
Proof.
  unfold Num, is_positive. pose proof unit_scale_pos.
  destruct (Z.ltb_spec 0 z), (Z.ltb_spec 0 (z * unit_scale)); try reflexivity; nia.
Qed.

Lemma truthy_Num z : truthy (VNumber (Num z)) = negb (z =? 0)%Z.
Proof.
  unfold Num, truthy. pose proof unit_scale_pos. f_equal.
  destruct (Z.eqb_spec z 0), (Z.eqb_spec (z * unit_scale) 0); try reflexivity; nia.
Qed.

Lemma round_div_lower p d : (p / d <= round_div p d)%Z.
Proof.
  unfold round_div.
  destruct (2 * (p mod d) <? d)%Z; [lia|].
  destruct (d <? 2 * (p mod d))%Z; [lia|].
  destruct (Z.even (p / d)); lia.
Qed.

(** Rounding a size of one unit or more leaves one unit or more: a
    difference of two numbers does not round to zero. *)
Lemma nearest_pos p : (0 < p)%Z -> (0 < nearest p 1)%Z.
Proof.
  intros Hp. unfold nearest. rewrite Z.div_1_r, Z.mul_1_l.
  set (s := Z.max 0 (Z.log2 p - 52)).
  assert (0 <= s)%Z as Hs by (subst s; lia).
  assert (0 < 2 ^ s)%Z as Hpow by (apply Z.pow_pos_nonneg; lia).
  assert (2 ^ s <= p)%Z as Hle.
  { destruct (Z.log2_spec p Hp) as [Hlow _].
    pose proof (Z.log2_nonneg p) as Hnn.
    transitivity (2 ^ Z.log2 p)%Z; [|exact Hlow].
    apply Z.pow_le_mono_r; subst s; lia. }
  assert (1 <= p / 2 ^ s)%Z as Hq.
  { apply Z.div_le_lower_bound; lia. }
  pose proof (round_div_lower p (2 ^ s)).
  nia.
Qed.

Lemma to_double_positive negative p :
  (0 < p)%Z -> is_positive (to_double negative p 1) = negb negative.
Proof.
  intros Hp. unfold to_double. pose proof (nearest_pos p Hp) as Hn.
  destruct (2 ^ 2098 <=? nearest p 1)%Z; [reflexivity|].
  destruct (Z.eqb_spec (nearest p 1) 0) as [Hz|_]; [lia|].
  unfold is_positive. destruct negative; simpl.
  - destruct (Z.ltb_spec 0 (- nearest p 1)); [lia|reflexivity].
  - destruct (Z.ltb_spec 0 (nearest p 1)); [reflexivity|lia].
Qed.

(** A difference is positive exactly when the first number is the
    greater one; with a NaN, or with two infinities of one sign, it is
    NaN. *)
Lemma sub_positive a b : is_positive (sub a b) = num_lt b a.
Proof.
  assert (forall x y,
             is_positive
               (let d := (x - y)%Z in
                if (d =? 0)%Z then Fin 0 else to_double (d <? 0)%Z (Z.abs d) 1)
             = (y <? x)%Z) as Hfin.
  { intros x y. cbv zeta.
    destruct (Z.eqb_spec (x - y) 0) as [Hz|Hnz].
    - simpl. destruct (Z.ltb_spec y x); [lia|reflexivity].
    - rewrite to_double_positive by lia.
      destruct (Z.ltb_spec (x - y) 0), (Z.ltb_spec y x); simpl; try reflexivity; lia. }
  destruct a as [|s| |x], b as [|t| |y]; try reflexivity;
    repeat match goal with c : bool |- _ => destruct c end; try reflexivity.
  - destruct y as [|y|y]; [reflexivity|apply (Hfin 0%Z)..].
  - apply (Hfin x 0%Z).
  - apply (Hfin x y).
Qed.

(** The difference of a smaller and a greater number is negative. *)
Lemma to_double_negative negative p :
  (0 < p)%Z -> num_lt (to_double negative p 1) (Num 0) = negative.
Proof.
  intros Hp. unfold to_double. pose proof (nearest_pos p Hp) as Hn.
  destruct (2 ^ 2098 <=? nearest p 1)%Z; [by destruct negative|].
  destruct (Z.eqb_spec (nearest p 1) 0) as [Hz|_]; [lia|].
  unfold num_lt, Num. cbn [units]. rewrite Z.mul_0_l. destruct negative.
  - destruct (Z.ltb_spec (- nearest p 1) 0); [reflexivity|lia].
  - destruct (Z.ltb_spec (nearest p 1) 0); [lia|reflexivity].
Qed.

Lemma sub_negative a b :
  is_positive (sub b a) = true -> num_lt (sub a b) (Num 0) = true.
Proof.
  rewrite sub_positive.
  assert (forall x y, (x < y)%Z ->
             num_lt (let d := (x - y)%Z in
                     if (d =? 0)%Z then Fin 0 else to_double (d <? 0)%Z (Z.abs d) 1)
                    (Num 0) = true) as Hfin.
  { intros x y Hxy. cbv zeta.
    destruct (Z.eqb_spec (x - y) 0) as [Hz|Hnz]; [lia|].
    rewrite to_double_negative by lia. apply Z.ltb_lt. lia. }
  destruct a as [|s| |x], b as [|t| |y]; try (simpl; discriminate);
    repeat match goal with c : bool |- _ => destruct c end;
    try (simpl; discriminate); try (intros _; reflexivity).
  - intros H. apply Z.ltb_lt in H. cbn [units] in H.
    destruct y as [|y|y]; try lia. apply (Hfin 0%Z (Z.pos y)). lia.
  - intros H. apply Z.ltb_lt in H. cbn [units] in H. apply (Hfin x 0%Z). exact H.
  - intros H. apply Z.ltb_lt in H. cbn [units] in H. apply (Hfin x y). exact H.
Qed.

Lemma StronglySorted_weaken {A} (R S : A -> A -> Prop) (l : list A) :
  (forall a b, R a b -> S a b) -> StronglySorted R l -> StronglySorted S l.
Proof.
  intros HRS. induction 1 as [|x l Hl IH Hx]; constructor; [exact IH|].
  eapply Forall_impl; [exact Hx|]. intros y. apply HRS.
Qed.

Lemma num_or_zero_spec n :
  is_NaN (num_or_zero n) = false
  /\ (truthy (VNumber n) = true -> num_or_zero n = n)
  /\ (truthy (VNumber n) = false -> num_or_zero n = Num 0).
Proof.
  unfold num_or_zero. destruct (truthy (VNumber n)) eqn:Ht.
  - split; [by destruct n|]. by split.
  - split; [reflexivity|]. by split.
Qed.

Lemma num_lt_asym x y :
  is_NaN x = false -> is_NaN y = false -> num_lt x y = true -> num_lt y x = false.
Proof.
  destruct x as [|s| |x], y as [|t| |y]; simpl; try discriminate; intros _ _.
  all: repeat match goal with b : bool |- _ => destruct b end; simpl;
    try discriminate; try reflexivity.
  all: lia.
Qed.

Lemma num_lt_split x y z :
  is_NaN x = false -> is_NaN y = false -> is_NaN z = false ->
  num_lt x z = true -> num_lt x y = true \/ num_lt y z = true.
Proof.
  destruct x as [|s| |x], y as [|t| |y], z as [|u| |z]; simpl;
    try discriminate; intros _ _ _.
  all: repeat match goal with b : bool |- _ => destruct b end; simpl;
    try discriminate; auto.
  all: lia.
Qed.

Variable object_to_number : N -> JsNum.
Variable number_to_string : Z -> string.
Variable object_to_string : N -> string.

(** The number [numberSort] compares a record by. *)
Lemma numberSort_key column a b :
  is_positive (numberSort object_to_number column a b)
  = num_lt (sort_number object_to_number (prop b column))
           (sort_number object_to_number (prop a column)).
Proof. apply sub_positive. Qed.

Lemma sort_number_good v : is_NaN (sort_number object_to_number v) = false.
Proof. apply num_or_zero_spec. Qed.

Lemma text_order_key (s t : string) :
  is_positive (if lt s t then Num (-1) else if lt t s then Num 1 else Num 0)
  = lt t s.
Proof.
  destruct (lt s t) eqn:Hst; [by rewrite (lt_asym _ _ Hst)|].
  by destruct (lt t s).
Qed.

Lemma booleanSort_key column a b :
  is_positive (booleanSort column a b)
  = (- bool_number (truthy (prop b column)) <? - bool_number (truthy (prop a column)))%Z.
Proof.
  unfold booleanSort. by destruct (truthy (prop a column)), (truthy (prop b column)).
Qed.

Lemma numberSort_consistent {A} (get : A -> gmap string Val) column (l : list A) :
  consistent_on (fun a b => numberSort object_to_number column (get a) (get b)) l = true
  /\ consistent_on
       (fun a b => reverseSort (numberSort object_to_number) column (get a) (get b)) l
     = true.
Proof.
  split.
  - apply (keyed_consistent _
             (fun a => sort_number object_to_number (prop (get a) column))
             num_lt (fun n => is_NaN n = false)).
    + intros a. apply sort_number_good.
    + apply num_lt_asym.
    + apply num_lt_split.
    + intros a b. apply numberSort_key.
  - apply (keyed_consistent _
             (fun a => sort_number object_to_number (prop (get a) column))
             (fun x y => num_lt y x) (fun n => is_NaN n = false)).
    + intros a. apply sort_number_good.
    + intros x y Hx Hy. by apply num_lt_asym.
    + intros x y z Hx Hy Hz H. destruct (num_lt_split _ y _ Hz Hy Hx H); auto.
    + intros a b. unfold reverseSort. apply numberSort_key.
Qed.

(** The comparators of the widget are consistent whatever the records. *)
Lemma builtin_consistent (f : Comparator) :
  f ∈ [numberSort object_to_number; stringSort number_to_string object_to_string;
       caseInsensitiveSort number_to_string object_to_string; booleanSort] ->
  forall {A} (get : A -> gmap string Val) column (l : list A),
    consistent_on (fun a b => f column (get a) (get b)) l = true
    /\ consistent_on (fun a b => reverseSort f column (get a) (get b)) l = true.
Proof.
  intros Hf A get column l.
  rewrite !elem_of_cons in Hf.
  destruct Hf as [->|[->|[->|[->|Hf]]]]; [| | | |by apply elem_of_nil in Hf].
  - apply numberSort_consistent.
  - split.
    + apply (keyed_consistent _
               (fun a => ToString number_to_string object_to_string (prop (get a) column))
               lt (fun _ => True)); auto.
      * intros x y _ _. apply lt_asym.
      * intros x y z _ _ _. apply lt_split.
      * intros a b. apply text_order_key.
    + apply (keyed_consistent _
               (fun a => ToString number_to_string object_to_string (prop (get a) column))
               (fun x y => lt y x) (fun _ => True)); auto.
      * intros x y _ _. apply lt_asym.
      * intros x y z _ _ _ H. destruct (lt_split _ y _ H); auto.
      * intros a b. apply text_order_key.
  - split.
    + apply (keyed_consistent _
               (fun a => toLowerCase
                           (ToString number_to_string object_to_string
                                     (prop (get a) column)))
               lt (fun _ => True)); auto.
      * intros x y _ _. apply lt_asym.
      * intros x y z _ _ _. apply lt_split.
      * intros a b. apply text_order_key.
    + apply (keyed_consistent _
               (fun a => toLowerCase
                           (ToString number_to_string object_to_string
                                     (prop (get a) column)))
               (fun x y => lt y x) (fun _ => True)); auto.
      * intros x y _ _. apply lt_asym.
      * intros x y z _ _ _ H. destruct (lt_split _ y _ H); auto.
      * intros a b. apply text_order_key.
  - split.
    + apply (keyed_consistent _
               (fun a => (- bool_number (truthy (prop (get a) column)))%Z)
               Z.ltb (fun _ => True)); auto using Zlt_asym, Zlt_split.
      intros a b. apply booleanSort_key.
    + apply (keyed_consistent _
               (fun a => bool_number (truthy (prop (get a) column)))
               Z.ltb (fun _ => True)); auto using Zlt_asym, Zlt_split.
      intros a b. unfold reverseSort. rewrite booleanSort_key. lia.
Qed.

End OrderFacts.

(** C7.  [numberSort] compares two records by the numbers their column
    values coerce to under [Number], a value whose coercion is NaN
    counting as 0: the number it takes for a value is never NaN, is 0
    where the coercion is NaN and is the coercion itself where that is
    neither NaN nor a zero; its result is positive exactly when the number
    of the first record is the greater one, so [sort] with it yields a
    rearrangement in which the numbers never fall.  The texts "10", "2"
    and "abc" coerce to 10, 2 and NaN and count as 10, 2 and 0, and the
    three rows sort as "abc", "2", "10". *)
Theorem numberSort_orders_by_number (object_to_number : N -> JsNum) :
  (forall v,
      is_NaN (Spec.sort_number object_to_number v) = false
      /\ (is_NaN (Number object_to_number v) = true ->
          Spec.sort_number object_to_number v = Num 0)
      /\ (truthy (VNumber (Number object_to_number v)) = true ->
          Spec.sort_number object_to_number v = Number object_to_number v))
  /\ (forall column a b,
         Table.is_positive (Table.numberSort object_to_number column a b)
         = num_lt (Spec.sort_number object_to_number (Table.prop b column))
                  (Spec.sort_number object_to_number (Table.prop a column))
         /\ (num_lt (Spec.sort_number object_to_number (Table.prop a column))
                    (Spec.sort_number object_to_number (Table.prop b column)) = true ->
             num_lt (Table.numberSort object_to_number column a b) (Num 0) = true))
  /\ (forall column (l : list (gmap string Val)),
         Table.Array_sort (Table.numberSort object_to_number column) l ≡ₚ l
         /\ StronglySorted
              (fun a b =>
                 num_lt (Spec.sort_number object_to_number (Table.prop b column))
                        (Spec.sort_number object_to_number (Table.prop a column))
                 = false)
              (Table.Array_sort (Table.numberSort object_to_number column) l))
  /\ map (Number object_to_number) [VString "10"; VString "2"; VString "abc"]
     = [Num 10; Num 2; NaN]
  /\ map (Spec.sort_number object_to_number) [VString "10"; VString "2"; VString "abc"]
     = [Num 10; Num 2; Num 0]
  /\ Table.Array_sort (Table.numberSort object_to_number "value")
       [Page.cell "10"; Page.cell "2"; Page.cell "abc"]
     = [Page.cell "abc"; Page.cell "2"; Page.cell "10"].
Proof.
  split.
  { intros v. unfold Spec.sort_number.
    destruct (num_or_zero_spec (Number object_to_number v)) as (H1 & H2 & H3).
    split; [exact H1|]. split; [|exact H2].
    intros Hnan. apply H3. by destruct (Number object_to_number v). }
  split.
  { intros column a b. split; [apply numberSort_key|].
    intros Hlt. unfold Table.numberSort. fold (Spec.sort_number object_to_number).
    rewrite <- sub_positive in Hlt. by apply sub_negative. }
  split.
  { intros column l. split; [apply Array_sort_perm|].
    destruct (numberSort_consistent object_to_number (fun r => r) column l) as [Hc _].
    pose proof (Array_sort_sorted _ _ Hc) as Hs.
    eapply StronglySorted_weaken; [|exact Hs].
    intros a b Hab. unfold Spec.precedes in Hab. by rewrite numberSort_key in Hab. }
  split; [by vm_compute|]. split; [by vm_compute|]. by vm_compute.
Qed.

(** X11.  Each comparator the widget offers ([numberSort], [stringSort],
    [caseInsensitiveSort], [booleanSort]), and its reverse, is consistent
    on every list of records: of two records one may stand before the
    other, and standing before is transitive.  So [sort] with it, on the
    records themselves or on entries through their records as
    [sortOnColumn] does, yields a rearrangement in which no record stands
    before one it compares above. *)
Theorem builtin_comparators_sort object_to_number number_to_string object_to_string (f : Table.Comparator) :
  f ∈ [Table.numberSort object_to_number; Table.stringSort number_to_string object_to_string;
       Table.caseInsensitiveSort number_to_string object_to_string; Table.booleanSort] ->
  forall column,
    (forall h refs,
        Spec.consistent_on (Spec.by_records h column f) refs = true
        /\ Spec.consistent_on (Spec.by_records h column (Table.reverseSort f)) refs = true)
    /\ (forall l : list (gmap string Val),
           Table.Array_sort (f column) l ≡ₚ l
           /\ StronglySorted (Spec.precedes (f column)) (Table.Array_sort (f column) l)
           /\ StronglySorted (Spec.precedes (Table.reverseSort f column))
                (Table.Array_sort (Table.reverseSort f column) l)).
Proof.
  intros Hf column. split.
  - intros h refs.
    apply (builtin_consistent object_to_number number_to_string object_to_string f Hf
             (Table.record h) column refs).
  - intros l.
    destruct (builtin_consistent object_to_number number_to_string object_to_string f Hf
                (fun r => r) column l) as [H1 H2].
    split; [apply Array_sort_perm|].
    split; by apply Array_sort_sorted.
Qed.

Lemma builtin_comparators_sort_witness :
  Table.Array_sort (Table.stringSort Page.number_to_string Page.object_to_string "value")
                   [Page.cell "b"; Page.cell "a"]
  ≡ₚ [Page.cell "b"; Page.cell "a"].
Proof.
  assert (Table.stringSort Page.number_to_string Page.object_to_string
          ∈ [Table.numberSort Page.object_to_number;
             Table.stringSort Page.number_to_string Page.object_to_string;
             Table.caseInsensitiveSort Page.number_to_string Page.object_to_string; Table.booleanSort]) as Hin
    by (apply list_elem_of_further, list_elem_of_here).
  destruct (builtin_comparators_sort Page.object_to_number Page.number_to_string
              Page.object_to_string
              (Table.stringSort Page.number_to_string Page.object_to_string) Hin "value") as [_ H].
  destruct (H [Page.cell "b"; Page.cell "a"]) as [Hp _]. exact Hp.
Defined.


Section TextFacts.
Import Table Spec.
Variable number_to_string : Z -> string.
Variable object_to_string : N -> string.

Lemma lower_above c : lower c = c \/ Ascii.compare c (lower c) = Lt.
Proof. destruct c as [[] [] [] [] [] [] [] []]; vm_compute; auto. Qed.

Lemma ascii_compare_refl c : Ascii.compare c c = Eq.
Proof. unfold Ascii.compare. apply N.compare_refl. Qed.

(** A text with a capital letter is below its lower-case spelling. *)
Lemma lt_toLowerCase s : toLowerCase s <> s -> lt s (toLowerCase s) = true.
Proof.
  unfold lt, String.ltb. induction s as [|c s IH]; simpl; [done|].
  intros Hne. destruct (lower_above c) as [Hc|Hc].
  - rewrite Hc, ascii_compare_refl. apply IH. intros Hs. apply Hne. by rewrite Hc, Hs.
  - by rewrite Hc.
Qed.

Lemma text_order_zero (s t : string) :
  (if lt s t then Num (-1) else if lt t s then Num 1 else Num 0) = Num 0 <-> s = t.
Proof.
  split.
  - destruct (lt s t) eqn:Hst; [discriminate|].
    destruct (lt t s) eqn:Hts; [discriminate|]. intros _. by apply lt_total.
  - intros ->. by rewrite lt_irrefl.
Qed.

Lemma booleanSort_insert_truthy column x (k : list (gmap string Val)) :
  truthy (prop x column) = true ->
  sort_insert (booleanSort column) x k = x :: k.
Proof.
  intros Hx. destruct k as [|y k]; [reflexivity|].
  simpl. unfold booleanSort. rewrite Hx. by destruct (truthy (prop y column)).
Qed.

Lemma booleanSort_insert_falsy column x (ts fs : list (gmap string Val)) :
  truthy (prop x column) = false ->
  Forall (fun r => truthy (prop r column) = true) ts ->
  Forall (fun r => truthy (prop r column) = false) fs ->
  sort_insert (booleanSort column) x (ts ++ fs) = ts ++ x :: fs.
Proof.
  intros Hx Hts Hfs. induction Hts as [|y ts Hy _ IH].
  - destruct Hfs as [|y fs Hy _]; [reflexivity|].
    simpl. unfold booleanSort. by rewrite Hx, Hy.
  - assert (is_positive (booleanSort column x y) = true) as Hp
      by (unfold booleanSort; by rewrite Hx, Hy).
    change (sort_insert (booleanSort column) x ((y :: ts) ++ fs))
      with (if is_positive (booleanSort column x y)
            then y :: sort_insert (booleanSort column) x (ts ++ fs)
            else x :: y :: ts ++ fs).
    by rewrite Hp, IH.
Qed.

End TextFacts.

(** X12.  [stringSort] compares the texts [String( a[ column ] )] and
    [String( b[ column ] )] code unit by code unit: it yields 0 exactly
    when the two texts are equal, -1 exactly when the first is below the
    second and 1 exactly when it is above, and swapping the records
    negates the result. *)
Theorem stringSort_compares_texts number_to_string object_to_string column a b :
  (Table.stringSort number_to_string object_to_string column a b = Num 0
   <-> ToString number_to_string object_to_string (Table.prop a column)
       = ToString number_to_string object_to_string (Table.prop b column))
  /\ (Table.stringSort number_to_string object_to_string column a b = Num (-1)
      <-> lt (ToString number_to_string object_to_string (Table.prop a column))
             (ToString number_to_string object_to_string (Table.prop b column)) = true)
  /\ (Table.stringSort number_to_string object_to_string column a b = Num 1
      <-> lt (ToString number_to_string object_to_string (Table.prop b column))
             (ToString number_to_string object_to_string (Table.prop a column)) = true)
  /\ Table.stringSort number_to_string object_to_string column b a
     = sub (Num 0) (Table.stringSort number_to_string object_to_string column a b).
Proof.
  unfold Table.stringSort.
  set (s := ToString number_to_string object_to_string (Table.prop a column)).
  set (t := ToString number_to_string object_to_string (Table.prop b column)).
  split; [apply text_order_zero|].
  destruct (lt s t) eqn:Hst.
  - rewrite (lt_asym _ _ Hst). repeat split; auto; discriminate.
  - destruct (lt t s) eqn:Hts; repeat split; auto; discriminate.
Qed.

(** X13.  On texts whose code units are all below 256 (the Latin-1
    range, which is what the strings of this development are):
    [caseInsensitiveSort] compares the lower-case spellings of the two
    texts, and yields 0 exactly when these are equal.  Such a text with a
    capital letter and its lower-case spelling tie under it, while
    [stringSort] puts the one with the capital first.  (Outside that
    range a capital can have a smaller code unit as its lower-case
    letter, as U+212A has; nothing is stated about such texts.) *)
Theorem caseInsensitiveSort_ignores_case number_to_string object_to_string column a b :
  (Table.caseInsensitiveSort number_to_string object_to_string column a b = Num 0
   <-> toLowerCase (ToString number_to_string object_to_string (Table.prop a column))
       = toLowerCase (ToString number_to_string object_to_string (Table.prop b column)))
  /\ (ToString number_to_string object_to_string (Table.prop b column)
      = toLowerCase (ToString number_to_string object_to_string (Table.prop a column)) ->
      ToString number_to_string object_to_string (Table.prop a column)
      <> ToString number_to_string object_to_string (Table.prop b column) ->
      Table.caseInsensitiveSort number_to_string object_to_string column a b = Num 0
      /\ Table.stringSort number_to_string object_to_string column a b = Num (-1)).
Proof.
  unfold Table.caseInsensitiveSort, Table.stringSort.
  set (s := ToString number_to_string object_to_string (Table.prop a column)).
  set (t := ToString number_to_string object_to_string (Table.prop b column)).
  split; [apply text_order_zero|].
  intros Ht Hne.
  assert (toLowerCase (toLowerCase s) = toLowerCase s) as Hidem.
  { clear. induction s as [|c s IH]; simpl; [reflexivity|]. rewrite IH. f_equal.
    destruct c as [[] [] [] [] [] [] [] []]; by vm_compute. }
  split.
  - apply text_order_zero. by rewrite Ht, Hidem.
  - rewrite Ht. rewrite lt_toLowerCase; [reflexivity|]. congruence.
Qed.

(** X14.  [sort] with [booleanSort] moves the records whose column value
    is truthy before the others and keeps the order within each of the
    two groups. *)
Theorem booleanSort_puts_truthy_first column (l : list (gmap string Val)) :
  Table.Array_sort (Table.booleanSort column) l
  = filter (fun r => truthy (Table.prop r column) = true) l
    ++ filter (fun r => truthy (Table.prop r column) = false) l.
Proof.
  induction l as [|x l IH]; [reflexivity|].
  simpl Table.Array_sort. rewrite IH. clear IH.
  rewrite !filter_cons.
  destruct (truthy (Table.prop x column)) eqn:Hx.
  - rewrite decide_True, decide_False by done.
    by apply booleanSort_insert_truthy.
  - rewrite decide_False, decide_True by done.
    apply booleanSort_insert_falsy; [exact Hx|..];
      apply Forall_forall; by intros r [Hr _]%list_elem_of_filter.
Qed.

(* ===================================================================== *)
(** * Instances on the page *)
(* ===================================================================== *)

(** The page's table with three records loaded is complete. *)
Lemma loaded_complete : View.complete (Page.loaded (Page.page_heap 3)).
Proof.
  destruct (shown_spec Page.generate Page.object_to_number Page.pinned_ancestor
              3%N (Page.data_array 3) [7%N] (Page.fresh_table 3) 0) as [Hc _].
  - by vm_compute.
  - by vm_compute.
  - by vm_compute.
  - by vm_compute.
  - vm_compute. lia.
  - assert (Page.loaded (Page.page_heap 3)
            = View.shown Page.generate Page.object_to_number Page.pinned_ancestor
                         (VObject 3%N) 0 (Page.fresh_table 3)) as -> by (by vm_compute).
    exact Hc.
Qed.

Lemma setData_shows_records_witness :
  View.complete (View.shown Page.generate Page.object_to_number Page.pinned_ancestor
                            (VObject 3%N) 0 (Page.fresh_table 3))
  /\ Forall2 (View.shows Page.generate
                (View.shown Page.generate Page.object_to_number Page.pinned_ancestor
                            (VObject 3%N) 0 (Page.fresh_table 3)))
       (Table.entries
          (View.shown Page.generate Page.object_to_number Page.pinned_ancestor
                      (VObject 3%N) 0 (Page.fresh_table 3)))
       (Spec.body_rows
          (View.shown Page.generate Page.object_to_number Page.pinned_ancestor
                      (VObject 3%N) 0 (Page.fresh_table 3)))
  /\ Forall (fun n => Table.nodes (Page.fresh_table 3) !! n = None)
       (Spec.body_rows
          (View.shown Page.generate Page.object_to_number Page.pinned_ancestor
                      (VObject 3%N) 0 (Page.fresh_table 3))).
Proof.
  apply (setData_shows_records Page.generate Page.object_to_number Page.pinned_ancestor
           3%N (Page.data_array 3) [7%N] (Page.fresh_table 3) 0).
  - by vm_compute.
  - by vm_compute.
  - by vm_compute.
  - by vm_compute.
  - vm_compute. lia.
Defined.


Lemma setHeaders_keeps_old_cells_witness :
  View.complete (View.reheaded Page.generate (VObject 1%N) 0 (Page.loaded (Page.page_heap 3)))
  /\ Table.entries (View.reheaded Page.generate (VObject 1%N) 0
                                  (Page.loaded (Page.page_heap 3)))
     = Table.entries (Page.loaded (Page.page_heap 3)).
Proof.
  destruct (setHeaders_keeps_old_cells Page.generate 1%N
              (Table.items (Table.heap (Page.loaded (Page.page_heap 3))) (VObject 1%N))
              [7%N] (Page.loaded (Page.page_heap 3)) 0) as (H1 & H2 & _).
  - exact loaded_complete.
  - by vm_compute.
  - by vm_compute.
  - by vm_compute.
  - vm_compute. lia.
  - split; [exact H1|exact H2].
Defined.

Lemma rebuild_makes_new_rows_witness :
  View.complete (View.rebuilt Page.generate 0 (Page.loaded (Page.page_heap 3)))
  /\ Forall (fun n => Table.nodes (Page.loaded (Page.page_heap 3)) !! n = None)
       (Spec.body_rows (View.rebuilt Page.generate 0 (Page.loaded (Page.page_heap 3)))).
Proof.
  destruct (rebuild_makes_new_rows Page.generate [7%N] (Page.loaded (Page.page_heap 3)) 0)
    as (H1 & _ & H3 & _).
  - by vm_compute.
  - by vm_compute.
  - by vm_compute.
  - vm_compute. lia.
  - split; [exact H1|exact H3].
Defined.

Lemma setHeaders_fills_defaults_witness :
  Table._headers (Table.setHeaders Page.generate (VObject 1%N) (Page.bound (Page.page_heap 3))).2
  = VObject 1%N.
Proof.
  destruct (setHeaders_fills_defaults Page.generate 1%N [VObject 2%N]
              (Page.bound (Page.page_heap 3))) as (H1 & _).
  - by vm_compute.
  - by vm_compute.
  - exact H1.
Defined.

Lemma pinToBottom_needs_a_foreign_container_witness :
  (Table.setData Page.generate Page.object_to_number false (VObject 3%N)
     (Table.set__config (<["pinToBottom" := VNumber (Num 20)]>
                           (Table._config (Page.fresh_table 3)))
                        (Page.fresh_table 3))).1
  = Throw TypeError.
Proof.
  destruct (pinToBottom_needs_a_foreign_container
              Page.generate Page.object_to_number 3%N (Page.data_array 3) [7%N]
              (Table.set__config (<["pinToBottom" := VNumber (Num 20)]>
                                    (Table._config (Page.fresh_table 3)))
                                 (Page.fresh_table 3))) as (H & _).
  - by vm_compute.
  - by vm_compute.
  - by vm_compute.
  - apply H. by vm_compute.
Defined.

Lemma stale_batch_throws_witness :
  Table.timers (View.reloaded Page.generate Page.object_to_number Page.pinned_ancestor
                              (VObject 3%N) (VObject 1%N) (Page.fresh_table 501))
  = [Table.INSERT_BATCH_LIMIT]
  /\ (Table._insertData Page.generate Table.INSERT_BATCH_LIMIT
        (Table.set_timers []
           (View.reloaded Page.generate Page.object_to_number Page.pinned_ancestor
                          (VObject 3%N) (VObject 1%N) (Page.fresh_table 501)))).1
     = Throw TypeError.
Proof.
  destruct (stale_batch_throws Page.generate Page.object_to_number Page.pinned_ancestor
              3%N (Page.data_array 501) 1%N
              (Table.items (Table.heap (Page.fresh_table 501)) (VObject 1%N))
              [7%N] (Page.fresh_table 501)) as (H1 & H2 & _).
  - by vm_compute.
  - by vm_compute.
  - by vm_compute.
  - by vm_compute.
  - by vm_compute.
  - vm_compute. lia.
  - vm_compute. lia.
  - split; [exact H1|exact H2].
Defined.

Lemma other_row_events_only_call_back_witness :
  (Table._onRowEvent "dblclick" (Table.OnCell 2%N) (Page.loaded (Page.page_heap 3))).2
  = Page.loaded (Page.page_heap 3).
Proof.
  destruct (other_row_events_only_call_back "dblclick" (Table.OnCell 2%N)
              (Page.loaded (Page.page_heap 3))) as (H & _).
  - discriminate.
  - exact H.
Defined.

Lemma column_callback_arguments_witness :
  Table._columnCallback (VString "name") (VFunction "onButton") 1%N 0
    (View.shown Page.generate Page.object_to_number Page.pinned_ancestor
                (VObject 3%N) 0 (Page.fresh_table 3))
  = (Ok {| Table.column_callee := "onButton";
           Table.arg_name :=
             Spec.header_name
               (Table.heap (View.shown Page.generate Page.object_to_number
                                       Page.pinned_ancestor (VObject 3%N) 0
                                       (Page.fresh_table 3)))
               (VObject 14%N);
           Table.arg_data := 16%N |},
     View.shown Page.generate Page.object_to_number Page.pinned_ancestor
                (VObject 3%N) 0 (Page.fresh_table 3))
  /\ Table._columnCallback (VString "name") (VFunction "onButton") 1%N 0
       (View.resorted Page.generate Page.object_to_number Page.pinned_ancestor
                      Page.sort_by_expression
                      "name" (Table.numberSort Page.object_to_number) 0
                      (Page.loaded (Page.page_heap 3)))
     = (Ok {| Table.column_callee := "onButton"; Table.arg_name := VUndefined;
              Table.arg_data := 16%N |},
        View.resorted Page.generate Page.object_to_number Page.pinned_ancestor
                      Page.sort_by_expression
                      "name" (Table.numberSort Page.object_to_number) 0
                      (Page.loaded (Page.page_heap 3))).
Proof.
  split.
  - destruct (shown_spec Page.generate Page.object_to_number Page.pinned_ancestor
                3%N (Page.data_array 3) [7%N] (Page.fresh_table 3) 0)
      as (_ & Hshows & _).
    + by vm_compute.
    + by vm_compute.
    + by vm_compute.
    + by vm_compute.
    + vm_compute. lia.
    + assert (View.shows Page.generate
                (View.shown Page.generate Page.object_to_number Page.pinned_ancestor
                            (VObject 3%N) 0 (Page.fresh_table 3))
                {| Table.row := Some 1%N; Table.data := 16%N |} 1%N)
        as (_ & cells & Hcells & Hnode)
        by (apply (Forall2_lookup_lr _ _ _ 0 _ _ Hshows); by vm_compute).
      apply (proj1 (column_callback_arguments
                      Page.generate Page.object_to_number Page.pinned_ancestor
                      Page.sort_by_expression (VString "name") "onButton" 0 _)
               {| Table.row := Some 1%N; Table.data := 16%N |} 1%N (VObject 14%N)
               [] cells Hcells Hnode).
      by vm_compute.
  - apply (proj2 (column_callback_arguments
                    Page.generate Page.object_to_number Page.pinned_ancestor
                    Page.sort_by_expression (VString "name") "onButton" 0
                    (Page.loaded (Page.page_heap 3)))
             "name" (Table.numberSort Page.object_to_number) [7%N] 0
             {| Table.row := Some 1%N; Table.data := 16%N |} 1%N).
    + exact loaded_complete.
    + by vm_compute.
    + by vm_compute.
    + by vm_compute.
    + eexists. by vm_compute.
    + by vm_compute.
    + by vm_compute.
    + vm_compute. lia.
    + assert (Table.entries (Page.loaded (Page.page_heap 3))
              = [ {| Table.row := Some 1%N; Table.data := 16%N |};
                  {| Table.row := Some 2%N; Table.data := 17%N |};
                  {| Table.row := Some 3%N; Table.data := 18%N |} ]) as ->
        by (by vm_compute).
      left.
    + reflexivity.
Defined.
